(** * nano-banana-pro: [scripts/generate_image.py]

    A shallow embedding of the image-generation command line tool and the
    properties of its observable behaviour: argument validation, resolution
    detection, request configuration, output paths, batch metadata, the HTML
    gallery and exit codes.

    The script talks to the outside world (environment, clock, file system,
    the remote API, the imaging library).  Everything the outside world
    decides is collected in a [World] record; everything the script does to
    it is recorded as a list of [Event]s.  The body of [main] is written in a
    small monad that carries the one mutable list of the script
    ([generated_images]), the emitted events, and the two ways Python leaves
    a block early: a raised exception (caught by [except Exception]) and
    [sys.exit] (not caught by it).

    Python [str] values are modelled by [string], holding the text in
    UTF-8: an ASCII character is one [ascii], any other character is the
    sequence of its bytes.  [len] and slices count characters, not bytes
    ([str_len], [str_take]).

    The world decides what can fail: making the output directory, opening
    the input image, the remote call, iterating over the parts of the
    response, decoding an inline payload and saving the decoded image.  An
    exception raised inside a [try] block is caught there; the one raised by
    [mkdir] is not caught by anything.  The parser is not modelled: a command
    line is the namespace it returns, or the way it ends the process itself
    ([CommandLine]).  Importing the libraries, creating the client and
    writing the two text files of a batch are taken to succeed. *)

From Stdlib Require Import String Ascii List ZArith Lia Bool DecimalString DecimalZ.
Import ListNotations.
Set Warnings "-register-all".
Local Open Scope string_scope.
Local Open Scope list_scope.
Local Open Scope Z_scope.

(** ** Python values *)

(** Truthiness of an optional string ([None] and [""] are falsy). *)
Definition truthy (o : option string) : bool :=
  match o with
  | None => false
  | Some s => negb (s =? "")%string
  end.

(** An f-string is the concatenation of its pieces. *)
Definition fstr (pieces : list string) : string := String.concat "" pieces.

(** [str(n)] for an integer. *)
Definition str_int (n : Z) : string := NilZero.string_of_int (Z.to_int n).

Fixpoint zeros (n : nat) : string :=
  match n with
  | O => ""
  | S n' => String "0" (zeros n')
  end.

(** [f"{n:03d}"] for a non-negative [n]. *)
Definition pad3 (n : Z) : string :=
  let s := str_int n in
  zeros (3 - String.length s) ++ s.

(** A byte [10xxxxxx] continues the character begun before it. *)
Definition is_continuation (c : ascii) : bool :=
  let n := N_of_ascii c in ((128 <=? n) && (n <? 192))%N.

(** [len(s)]: the number of characters. *)
Fixpoint str_len (s : string) : nat :=
  match s with
  | EmptyString => O
  | String c s' => if is_continuation c then str_len s' else S (str_len s')
  end.

(** [s[:n]]: the first [n] characters, each with all its bytes. *)
Fixpoint str_take (n : nat) (s : string) : string :=
  match s with
  | EmptyString => ""
  | String c s' =>
      if is_continuation c then String c (str_take n s')
      else match n with
           | O => ""
           | S n' => String c (str_take n' s')
           end
  end.

(** ** [pathlib] (POSIX flavour)

    A path is its root ([""], ["/"] or ["//"]) and its components; parsing
    drops empty and ["."] components, as [PurePosixPath] does. *)
Module Path.

Record t := mk { root : string; parts : list string }.

(** Components of a string between slashes, in order.  [cur] is the
    component being read. *)
Fixpoint split_slash (s : string) (cur : string) : list string :=
  match s with
  | EmptyString => [cur]
  | String c s' =>
      if (c =? "/")%char then cur :: split_slash s' ""
      else split_slash s' (cur ++ String c "")
  end.

Definition keep_part (p : string) : bool :=
  negb (p =? "")%string && negb (p =? ".")%string.

Definition parse_root (s : string) : string :=
  match s with
  | String "/" (String "/" (String "/" _)) => "/"
  | String "/" (String "/" _) => "//"
  | String "/" _ => "/"
  | _ => ""
  end.

(** [Path(s)] *)
Definition of_string (s : string) : t :=
  mk (parse_root s) (filter keep_part (split_slash s "")).

(** [p / q] *)
Definition join (p q : t) : t :=
  if (root q =? "")%string then mk (root p) (parts p ++ parts q) else q.

(** [p / "s"] *)
Definition join_str (p : t) (s : string) : t := join p (of_string s).

(** [p.parent] *)
Definition parent (p : t) : t :=
  match parts p with
  | [] => p
  | _ => mk (root p) (removelast (parts p))
  end.

(** [p.name] *)
Definition name (p : t) : string := last (parts p) "".

(** [p.is_absolute()] *)
Definition is_absolute (p : t) : bool := negb (root p =? "")%string.

(** [str(p)] *)
Definition to_string (p : t) : string :=
  match root p, parts p with
  | EmptyString, [] => "."
  | r, ps => r ++ String.concat "/" ps
  end.

End Path.

(** ** Command line arguments *)

(** [--resolution], one of the three [choices]. *)
Inductive Resolution := R1K | R2K | R4K.

Definition resolution_str (r : Resolution) : string :=
  match r with R1K => "1K" | R2K => "2K" | R4K => "4K" end.

Definition resolution_eqb (a b : Resolution) : bool :=
  match a, b with
  | R1K, R1K | R2K, R2K | R4K, R4K => true
  | _, _ => false
  end.

(** [--aspect-ratio], one of the five [choices]. *)
Inductive AspectRatio := A1x1 | A3x4 | A4x3 | A9x16 | A16x9.

Definition aspect_ratio_str (a : AspectRatio) : string :=
  match a with
  | A1x1 => "1:1" | A3x4 => "3:4" | A4x3 => "4:3"
  | A9x16 => "9:16" | A16x9 => "16:9"
  end.

(** The namespace returned by [parser.parse_args()].  Options without a
    default are [None] when absent; [--resolution] and [--aspect-ratio] are
    among their [choices] and [--count] is an integer, as the parser
    returns no other namespace. *)
Record Args := {
  prompt : string;
  filename : option string;
  input_image : option string;
  resolution : Resolution;
  aspect_ratio : AspectRatio;
  count : Z;
  out_dir : option string;
  model : string;
  api_key : option string;
  no_gallery : bool
}.

Definition default_model : string := "gemini-2.0-flash-preview-image-generation".

(** ** Exceptions *)

(** [TypeError] is the one exception class the script provokes itself;
    every other exception comes from a library or the operating system and is
    kept by its text. *)
Inductive Exn :=
| TypeError (msg : string)
| LibraryError (msg : string).

(** [str(e)] *)
Definition exn_str (e : Exn) : string :=
  match e with TypeError m => m | LibraryError m => m end.

(** ** The remote API and the imaging library *)

(** [image.mode] of a decoded image. *)
Inductive ImageMode := RGBA | RGB | OtherMode.

(** [part.inline_data]: what base64-decoding (when the payload is text) and
    [PILImage.open] make of the payload: an image, or an exception. *)
Inductive InlineData :=
| Decodes (mode : ImageMode)
| Undecodable (e : Exn).

(** One element of [response.parts]. *)
Record Part := {
  text : option string;
  inline_data : option InlineData
}.

(** [response.parts] is [None] when the response has no content. *)
Record Response := { parts : option (list Part) }.

(** The opened input image; only its [size] is read. *)
Record InputImage := { source : string; width : Z; height : Z }.

(** A value of the [image_config_kwargs] dict. *)
Inductive ConfigValue :=
| Size (r : Resolution)
| Ratio (a : AspectRatio).

(** [image_config_kwargs]: a dict with string keys, as the list of its
    items in insertion order. *)
Definition Kwargs := list (string * ConfigValue).

(** [kwargs.get(key)] *)
Fixpoint dict_get (key : string) (d : Kwargs) : option ConfigValue :=
  match d with
  | [] => None
  | (k, v) :: rest => if (k =? key)%string then Some v else dict_get key rest
  end.

(** [kwargs[key] = v] *)
Fixpoint dict_set (key : string) (v : ConfigValue) (d : Kwargs) : Kwargs :=
  match d with
  | [] => [(key, v)]
  | (k, v0) :: rest =>
      if (k =? key)%string then (k, v) :: rest else (k, v0) :: dict_set key v rest
  end.

(** [contents]: the prompt alone, or the input image and the prompt. *)
Inductive Contents :=
| PromptOnly (p : string)
| ImageAndPrompt (img : InputImage) (p : string).

(** The arguments of [client.models.generate_content]. *)
Record Request := {
  req_model : string;
  contents : Contents;
  image_config : Kwargs
}.

(** ** The outside world *)

Record World := {
  (** [os.environ.get("GEMINI_API_KEY")] *)
  env_api_key : option string;
  (** [datetime.now().strftime("%Y%m%d-%H%M%S")] *)
  timestamp : string;
  (** [d.mkdir(parents=True, exist_ok=True)]: [None] when it returns (the
      directory then exists, made with its missing ancestors if it did not),
      or the exception it raises (the directory is then not made) *)
  mkdir : Path.t -> option Exn;
  (** [PILImage.open(path)]: the image's (width, height), or an exception *)
  open_image : string -> Exn + Z * Z;
  (** the outcome of the [i]-th call (from 0) of [generate_content]; within
      one run the request of each call is fixed by the arguments and the
      world, so the call number tells the calls apart *)
  generate_content : nat -> Exn + Response;
  (** "Convert to RGB for PNG" and [save(str(output_path), 'PNG')] for the
      image decoded from the part at position [j] (from 0) of the response of
      call [i]: [None] when the file is written, or the exception that the
      conversion or the save raises, and then the save adds no file; within
      one run the path of each save is fixed as well *)
  save_png : nat -> nat -> option Exn;
  (** [path.resolve()] *)
  resolve : Path.t -> Path.t
}.

(** How an image is brought to RGB before it is saved as PNG. *)
Inductive Conversion := FlattenOnWhite | AsIs | ConvertRGB.

(** ** JSON values (the argument of [json.dumps]) *)
Inductive Json :=
| JNull
| JStr (s : string)
| JArr (items : list Json)
| JObj (fields : list (string * Json)).

(** ** What the script does *)
Inductive Event :=
| Stdout (line : string)                      (* print(line) *)
| Stderr (line : string)                      (* print(line, file=sys.stderr) *)
| NewClient (key : string)                    (* genai.Client(api_key=key) *)
| Mkdir (dir : Path.t)                        (* dir.mkdir(parents=True, exist_ok=True) returned *)
| OpenImage (path : string)                   (* PILImage.open(path) *)
| Call (i : nat) (req : Request)              (* generate_content(...) *)
| SavePng (path : string) (how : Conversion)  (* image.save(path, 'PNG') returned *)
| WriteJson (path : Path.t) (value : Json)    (* write_text(json.dumps(value, indent=2)) *)
| WriteText (path : Path.t) (body : string).  (* write_text(body) *)

(** An entry of [generated_images]. *)
Record GeneratedImage := {
  gi_filename : string;
  gi_path : string;
  gi_prompt : string;
  gi_resolution : Resolution;
  gi_aspect_ratio : AspectRatio;
  gi_model : string;
  gi_model_text : option string
}.

(** ** The monad of [main] *)

(** How a block ends: normally, by a raised exception, or by [sys.exit]. *)
Inductive Res (A : Type) :=
| Ret (a : A)
| Raise (e : Exn)
| SysExit (code : Z).
Arguments Ret {A} a.
Arguments Raise {A} e.
Arguments SysExit {A} code.

(** A computation reads the current [generated_images] and gives its result,
    the new [generated_images] and the events it emitted. *)
Definition M (A : Type) : Type :=
  list GeneratedImage -> Res A * list GeneratedImage * list Event.

Definition ret {A} (a : A) : M A := fun g => (Ret a, g, []).

Definition bind {A B} (m : M A) (f : A -> M B) : M B :=
  fun g =>
    match m g with
    | (Ret a, g1, t1) => let '(r, g2, t2) := f a g1 in (r, g2, t1 ++ t2)
    | (Raise e, g1, t1) => (Raise e, g1, t1)
    | (SysExit c, g1, t1) => (SysExit c, g1, t1)
    end.

Declare Scope prog_scope.
Delimit Scope prog_scope with prog.
Notation "x <- m ;; k" := (bind m (fun x => k))
  (at level 100, m at next level, right associativity) : prog_scope.
Notation "m ;; k" := (bind m (fun _ => k))
  (at level 100, right associativity) : prog_scope.
Local Open Scope prog_scope.

Definition emit (e : Event) : M unit := fun g => (Ret tt, g, [e]).
Definition print (s : string) : M unit := emit (Stdout s).
Definition eprint (s : string) : M unit := emit (Stderr s).
Definition raise {A} (e : Exn) : M A := fun g => (Raise e, g, []).
Definition sys_exit {A} (code : Z) : M A := fun g => (SysExit code, g, []).

(** [generated_images.append(x)] *)
Definition append_image (x : GeneratedImage) : M unit :=
  fun g => (Ret tt, g ++ [x], []).

Definition get_images : M (list GeneratedImage) := fun g => (Ret g, g, []).

(** [if c: body] *)
Definition when (c : bool) (body : M unit) : M unit :=
  if c then body else ret tt.

(** [try: body  except Exception as e: handler e].  [sys.exit] raises
    [SystemExit], which is not an [Exception] and passes through. *)
Definition try_except {A} (body : M A) (handler : Exn -> M A) : M A :=
  fun g =>
    match body g with
    | (Raise e, g1, t1) => let '(r, g2, t2) := handler e g1 in (r, g2, t1 ++ t2)
    | other => other
    end.

(** A library call whose outcome the world decides. *)
Definition lift_result {A} (r : Exn + A) : M A :=
  match r with
  | inl e => raise e
  | inr a => ret a
  end.

(** [for x in xs: body x] *)
Fixpoint for_each {A} (xs : list A) (body : A -> M unit) : M unit :=
  match xs with
  | [] => ret tt
  | x :: rest => body x ;; for_each rest body
  end.

(** [range(n)]: empty when [n <= 0]. *)
Definition range (n : Z) : list nat := seq 0 (Z.to_nat n).

(** ** [get_api_key] *)

(** The key given on the command line first, then the environment. *)
Definition get_api_key (w : World) (provided_key : option string) : option string :=
  if truthy provided_key then provided_key else env_api_key w.

(** ** [generate_gallery_html] *)

(** The double quote character, and the line break. *)
Definition dq_char : ascii := ascii_of_nat 34.
Definition dq : string := String dq_char "".
Definition nl : string := String (ascii_of_nat 10) "".

(** [html.escape(s)], with [quote=True]: the five characters [&], [<], [>],
    the double quote and ['] are replaced by entities. *)
Definition escape_char (c : ascii) : string :=
  if (c =? "&")%char then "&amp;"
  else if (c =? "<")%char then "&lt;"
  else if (c =? ">")%char then "&gt;"
  else if (c =? dq_char)%char then "&quot;"
  else if (c =? "'")%char then "&#x27;"
  else String c "".

Fixpoint html_escape (s : string) : string :=
  match s with
  | EmptyString => ""
  | String c s' => escape_char c ++ html_escape s'
  end.

(** The first element of [html_parts].  Characters outside ASCII are held
    as their UTF-8 bytes. *)
Definition gallery_head : string := fstr [
"<!DOCTYPE html>
<html>
<head>
    <title>Generated Images</title>
    <style>
        body { font-family: system-ui, sans-serif; background: #1a1a2e; color: #eee; padding: 20px; }
        h1 { text-align: center; color: #ffd700; }
        .gallery { display: grid; grid-template-columns: repeat(auto-fill, minmax(300px, 1fr)); gap: 20px; }
        .card { background: #16213e; border-radius: 12px; overflow: hidden; box-shadow: 0 4px 6px rgba(0,0,0,0.3); }
        .card img { width: 100%; height: auto; display: block; }
        .card .info { padding: 12px; }
        .card .prompt { font-size: 14px; color: #aaa; word-wrap: break-word; }
        .card .meta { font-size: 12px; color: #666; margin-top: 8px; }
    </style>
</head>
<body>
    <h1>üçå Nano Banana Pro Gallery</h1>
    <div class="; dq; "gallery"; dq; ">
"].

(** [prompt_preview]: the escaped first 50 characters, with an ellipsis when
    the prompt is longer. *)
Definition prompt_preview (p : string) : string :=
  html_escape (str_take 50 p) ++ (if (50 <? str_len p)%nat then "..." else "").

(** The fixed text of a card, between the five interpolated values. *)
Definition card_open : string := fstr [nl;
"        <div class="; dq; "card"; dq; ">
            <img src="; dq].
Definition card_alt : string := fstr [dq; " alt="; dq].
Definition card_info : string := fstr [dq; ">
            <div class="; dq; "info"; dq; ">
                <div class="; dq; "prompt"; dq; ">"].
Definition card_meta : string := fstr ["</div>
                <div class="; dq; "meta"; dq; ">"].
Definition card_sep : string := " ‚Ä¢ ".
Definition card_close : string := "</div>
            </div>
        </div>
".

(** The element appended to [html_parts] for one image.  Every entry of
    [generated_images] has the key [model], so the default of [img.get] is
    never used. *)
Definition gallery_card (img : GeneratedImage) : string :=
  let safe_filename := html_escape (gi_filename img) in
  let safe_prompt := html_escape (gi_prompt img) in
  let safe_resolution := html_escape (resolution_str (gi_resolution img)) in
  let safe_model := html_escape (gi_model img) in
  fstr [card_open; safe_filename; card_alt; prompt_preview (gi_prompt img);
        card_info; safe_prompt; card_meta; safe_resolution; card_sep;
        safe_model; card_close].

Definition gallery_foot : string := fstr [nl;
"    </div>
</body>
</html>
"].

(** [''.join(html_parts)] *)
Definition gallery_html (images : list GeneratedImage) : string :=
  fstr (gallery_head :: map gallery_card images ++ [gallery_foot]).

(** Writes [index.html] into [output_dir] and returns its path. *)
Definition generate_gallery_html (output_dir : Path.t) (images : list GeneratedImage)
  : M Path.t :=
  let html_path := Path.join_str output_dir "index.html" in
  emit (WriteText html_path (gallery_html images)) ;;
  ret html_path.

(** ** [main] *)

(** [Path(x)] for an optional string: [Path(None)] raises [TypeError]. *)
Definition path_of (x : option string) : M Path.t :=
  match x with
  | Some s => ret (Path.of_string s)
  | None => raise (TypeError "expected str, bytes or os.PathLike object, not NoneType")
  end.

(** The resolution detected from the input image's longer edge. *)
Definition detect_resolution (width height : Z) : Resolution :=
  let max_dim := Z.max width height in
  if 3000 <=? max_dim then R4K
  else if 1500 <=? max_dim then R2K
  else R1K.

(** [d.mkdir(parents=True, exist_ok=True)] *)
Definition make_dir (w : World) (d : Path.t) : M unit :=
  match mkdir w d with
  | None => emit (Mkdir d)
  | Some e => raise e
  end.

(** "Set up output directory" *)
Definition setup_output_dir (args : Args) (w : World) : M Path.t :=
  if truthy (out_dir args) then
    out <- path_of (out_dir args) ;;
    let output_dir := Path.join_str out (fstr ["nano-banana-"; timestamp w]) in
    make_dir w output_dir ;;
    ret output_dir
  else
    file <- path_of (filename args) ;;
    let output_dir := Path.parent file in
    make_dir w output_dir ;;
    ret output_dir.

(** "Load input image if provided": the opened image, if any, and
    [output_resolution]. *)
Definition load_input_image (args : Args) (w : World)
  : M (option InputImage * Resolution) :=
  match input_image args with
  | Some path =>
      if truthy (input_image args) then
        try_except
          (emit (OpenImage path) ;;
           size <- lift_result (open_image w path) ;;
           let img := {| source := path; width := fst size; height := snd size |} in
           print (fstr ["Loaded input image: "; path]) ;;
           if resolution_eqb (resolution args) R1K then
             let output_resolution := detect_resolution (width img) (height img) in
             print (fstr ["Auto-detected resolution: "; resolution_str output_resolution;
                          " (from input "; str_int (width img); "x";
                          str_int (height img); ")"]) ;;
             ret (Some img, output_resolution)
           else ret (Some img, resolution args))
          (fun e =>
             eprint (fstr ["Error loading input image: "; exn_str e]) ;;
             sys_exit 1)
      else ret (None, resolution args)
  | None => ret (None, resolution args)
  end.

(** The output path of iteration [i], with the progress line of batch
    mode. *)
Definition output_path_for (args : Args) (output_dir : Path.t) (i : nat) : M Path.t :=
  if 1 <? count args then
    let filename := fstr ["image-"; pad3 (Z.of_nat i + 1); ".png"] in
    let output_path := Path.join_str output_dir filename in
    print (fstr [nl; "["; str_int (Z.of_nat i + 1); "/"; str_int (count args);
                 "] Generating..."]) ;;
    ret output_path
  else
    match filename args with
    | Some f =>
        if truthy (filename args) then
          let output_path := Path.of_string f in
          if negb (Path.is_absolute output_path)
          then ret (Path.join output_dir output_path)
          else ret output_path
        else ret (Path.join_str output_dir "image.png")
    | None => ret (Path.join_str output_dir "image.png")
    end.

(** "Convert to RGB for PNG" *)
Definition conversion (mode : ImageMode) : Conversion :=
  match mode with
  | RGBA => FlattenOnWhite
  | RGB => AsIs
  | OtherMode => ConvertRGB
  end.

(** [PILImage.open(BytesIO(image_data))], after base64-decoding if needed. *)
Definition decode (d : InlineData) : Exn + ImageMode :=
  match d with
  | Decodes mode => inr mode
  | Undecodable e => inl e
  end.

(** The dict appended to [generated_images] for a saved image. *)
Definition image_entry (args : Args) (w : World) (output_path : Path.t)
    (output_resolution : Resolution) (model_text : option string) : GeneratedImage :=
  {| gi_filename := Path.name output_path;
     gi_path := Path.to_string (resolve w output_path);
     gi_prompt := prompt args;
     gi_resolution := output_resolution;
     gi_aspect_ratio := aspect_ratio args;
     gi_model := model args;
     gi_model_text := model_text |}.

(** The conversion [how] and [save(str(output_path), 'PNG')]. *)
Definition save_image (w : World) (i j : nat) (output_path : Path.t)
    (how : Conversion) : M unit :=
  match save_png w i j with
  | None => emit (SavePng (Path.to_string output_path) how)
  | Some e => raise e
  end.

(** [for part in response.parts: ...] in iteration [i], from the part at
    position [j] on, with the loop-carried locals [image_saved] and
    [model_text]. *)
Fixpoint process_parts (args : Args) (w : World) (output_path : Path.t)
    (output_resolution : Resolution) (i j : nat) (ps : list Part)
    (image_saved : bool) (model_text : option string) : M (bool * option string) :=
  match ps with
  | [] => ret (image_saved, model_text)
  | part :: rest =>
      match text part with
      | Some t =>
          print (fstr ["Model response: "; t]) ;;
          process_parts args w output_path output_resolution i (S j) rest
            image_saved (Some t)
      | None =>
          match inline_data part with
          | Some image_data =>
              mode <- lift_result (decode image_data) ;;
              save_image w i j output_path (conversion mode) ;;
              append_image
                (image_entry args w output_path output_resolution model_text) ;;
              process_parts args w output_path output_resolution i (S j) rest
                true model_text
          | None =>
              process_parts args w output_path output_resolution i (S j) rest
                image_saved model_text
          end
      end
  end.

(** Iterating over [response.parts] when it is [None]. *)
Definition parts_iter (r : Response) : M (list Part) :=
  match parts r with
  | Some ps => ret ps
  | None => raise (TypeError "'NoneType' object is not iterable")
  end.

(** The arguments of the remote call of an iteration: [contents], and the
    image configuration built in [image_config_kwargs]. *)
Definition build_request (args : Args) (input : option InputImage)
    (output_resolution : Resolution) : Request :=
  let contents :=
    match input with
    | Some img => ImageAndPrompt img (prompt args)
    | None => PromptOnly (prompt args)
    end in
  let image_config_kwargs := [("image_size", Size output_resolution)] in
  let image_config_kwargs :=
    match input with
    | Some _ => image_config_kwargs
    | None => dict_set "aspect_ratio" (Ratio (aspect_ratio args)) image_config_kwargs
    end in
  {| req_model := model args; contents := contents; image_config := image_config_kwargs |}.

(** The body of [for i in range(args.count)]. *)
Definition iteration (args : Args) (w : World) (output_dir : Path.t)
    (input : option InputImage) (output_resolution : Resolution) (i : nat) : M unit :=
  output_path <- output_path_for args output_dir i ;;
  match input with
  | Some _ =>
      print (fstr ["Editing image with resolution "; resolution_str output_resolution; "..."])
  | None =>
      print (fstr ["Generating image with resolution "; resolution_str output_resolution;
                   ", aspect ratio "; aspect_ratio_str (aspect_ratio args); "..."])
  end ;;
  try_except
    (emit (Call i (build_request args input output_resolution)) ;;
     response <- lift_result (generate_content w i) ;;
     ps <- parts_iter response ;;
     r <- process_parts args w output_path output_resolution i 0 ps false None ;;
     if fst r then
       let full_path := resolve w output_path in
       print (fstr ["Image saved: "; Path.to_string full_path]) ;;
       when (count args =? 1) (print (fstr ["MEDIA: "; Path.to_string full_path]))
     else
       eprint (fstr ["Error: No image was generated in response ";
                     str_int (Z.of_nat i + 1); "."]) ;;
       when (count args =? 1) (sys_exit 1))
    (fun e =>
       eprint (fstr ["Error generating image: "; exn_str e]) ;;
       when (count args =? 1) (sys_exit 1)).

(** An element of [prompts_data]. *)
Definition prompt_entry (img : GeneratedImage) : Json :=
  JObj [("filename", JStr (gi_filename img));
        ("prompt", JStr (gi_prompt img));
        ("resolution", JStr (resolution_str (gi_resolution img)));
        ("aspect_ratio", JStr (aspect_ratio_str (gi_aspect_ratio img)));
        ("model", JStr (gi_model img));
        ("model_text", match gi_model_text img with
                       | Some t => JStr t
                       | None => JNull
                       end)].

(** "Save metadata and generate gallery for batch mode" *)
Definition save_batch (args : Args) (output_dir : Path.t) : M unit :=
  when (1 <? count args)
    (generated_images <- get_images ;;
     when (match generated_images with [] => true | _ => false end)
       (eprint (fstr [nl; "Error: No images were successfully generated."]) ;;
        sys_exit 1) ;;
     let prompts_data := map prompt_entry generated_images in
     let prompts_path := Path.join_str output_dir "prompts.json" in
     emit (WriteJson prompts_path (JArr prompts_data)) ;;
     print (fstr [nl; "Metadata saved: "; Path.to_string prompts_path]) ;;
     when (negb (no_gallery args))
       (gallery_path <- generate_gallery_html output_dir generated_images ;;
        print (fstr ["Gallery saved: "; Path.to_string gallery_path])) ;;
     print (fstr [nl; "Generated "; str_int (Z.of_nat (length generated_images)); "/";
                  str_int (count args); " images in "; Path.to_string output_dir])).

(** [main] from "Validate arguments" on, for the namespace [args] that
    [parse_args] returned. *)
Definition main (args : Args) (w : World) : M unit :=
  (* Validate arguments *)
  when ((1 <? count args) && negb (truthy (out_dir args)))
    (eprint "Error: --out-dir is required when --count > 1" ;;
     sys_exit 1) ;;
  when ((count args =? 1) && negb (truthy (filename args)) && negb (truthy (out_dir args)))
    (eprint "Error: --filename or --out-dir is required" ;;
     sys_exit 1) ;;
  (* Get API key *)
  let api_key := get_api_key w (api_key args) in
  when (negb (truthy api_key))
    (eprint "Error: No API key provided." ;;
     eprint "Please either:" ;;
     eprint "  1. Provide --api-key argument" ;;
     eprint "  2. Set GEMINI_API_KEY environment variable" ;;
     sys_exit 1) ;;
  (* Initialize client *)
  emit (NewClient (match api_key with Some k => k | None => "" end)) ;;
  output_dir <- setup_output_dir args w ;;
  loaded <- load_input_image args w ;;
  let '(input, output_resolution) := loaded in
  (* Generate images *)
  for_each (range (count args))
    (iteration args w output_dir input output_resolution) ;;
  save_batch args output_dir.

(** ** The command line

    [parser.parse_args()] returns the namespace, or ends the process
    itself: with status 2 after a usage message on standard error for a
    command line it does not accept ([--prompt] missing, a value outside the
    [choices], a [--count] that is no integer, an unknown option), and with
    status 0 after the help text for [--help]. *)
Inductive CommandLine :=
| Parsed (args : Args)
| Rejected (usage : string)
| Help (text : string).

(** The script from its first line: [main()] with the command line as the
    parser reads it. *)
Definition script (cl : CommandLine) (w : World) : M unit :=
  match cl with
  | Parsed args => main args w
  | Rejected usage => eprint usage ;; sys_exit 2
  | Help text => print text ;; sys_exit 0
  end.

(** ** Running the script *)

(** How the process ends: an exit status, or an uncaught exception
    (traceback, status 1). *)
Inductive Outcome :=
| Exit (code : Z)
| Uncaught (e : Exn).

Definition outcome_of {A} (r : Res A) : Outcome :=
  match r with
  | Ret _ => Exit 0
  | Raise e => Uncaught e
  | SysExit c => Exit c
  end.

Definition exit_status (o : Outcome) : Z :=
  match o with
  | Exit c => c
  | Uncaught _ => 1
  end.

(** A run starts with [generated_images = []]. *)
Definition run (args : Args) (w : World) : Res unit * list GeneratedImage * list Event :=
  main args w [].

Definition outcome (args : Args) (w : World) : Outcome :=
  outcome_of (fst (fst (run args w))).

Definition trace (args : Args) (w : World) : list Event := snd (run args w).

Definition images (args : Args) (w : World) : list GeneratedImage :=
  snd (fst (run args w)).

(** How the script ends on the command line [cl]. *)
Definition script_outcome (cl : CommandLine) (w : World) : Outcome :=
  outcome_of (fst (fst (script cl w []))).

(** * The vocabulary of the properties *)

(** ** Observations on a trace *)

(** The paths of the PNG files saved, in order. *)
Definition saves (t : list Event) : list string :=
  flat_map (fun e => match e with SavePng p _ => [p] | _ => [] end) t.

(** The remote calls issued, in order. *)
Definition calls (t : list Event) : list (nat * Request) :=
  flat_map (fun e => match e with Call i req => [(i, req)] | _ => [] end) t.

(** The lines written to standard error, in order. *)
Definition errors (t : list Event) : list string :=
  flat_map (fun e => match e with Stderr s => [s] | _ => [] end) t.

(** Directories made and text files written, in order. *)
Definition file_setup (t : list Event) : list Event :=
  filter (fun e => match e with
                   | Mkdir _ | WriteJson _ _ | WriteText _ _ => true
                   | _ => false
                   end) t.

Definition is_write_json (e : Event) : bool :=
  match e with WriteJson _ _ => true | _ => false end.

Definition is_write_text (e : Event) : bool :=
  match e with WriteText _ _ => true | _ => false end.

(** A message that fits on one line. *)
Fixpoint one_line (s : string) : bool :=
  match s with
  | EmptyString => true
  | String c s' => negb (c =? ascii_of_nat 10)%char && one_line s'
  end.

(** ** What a response yields *)

(** The [model_text] values with which the images of [ps] are recorded, in
    order, when [ps] starts at position [j] of the response and [save] tells
    how the save of each position goes: each image part that decodes and is
    saved is recorded with the text of the last text part before it;
    processing stops at a payload that does not decode and at a save that
    raises. *)
Fixpoint saved_texts (save : nat -> option Exn) (j : nat) (ps : list Part)
    (model_text : option string) : list (option string) :=
  match ps with
  | [] => []
  | part :: rest =>
      match text part with
      | Some t => saved_texts save (S j) rest (Some t)
      | None =>
          match inline_data part with
          | Some (Decodes _) =>
              match save j with
              | None => model_text :: saved_texts save (S j) rest model_text
              | Some _ => []
              end
          | Some (Undecodable _) => []
          | None => saved_texts save (S j) rest model_text
          end
      end
  end.

(** How the loop over the parts ends: with the final [image_saved] and
    [model_text], or with the exception of a payload that does not decode or
    of a save. *)
Fixpoint parts_result (save : nat -> option Exn) (j : nat) (ps : list Part)
    (image_saved : bool) (model_text : option string) : Res (bool * option string) :=
  match ps with
  | [] => Ret (image_saved, model_text)
  | part :: rest =>
      match text part with
      | Some t => parts_result save (S j) rest image_saved (Some t)
      | None =>
          match inline_data part with
          | Some (Decodes _) =>
              match save j with
              | None => parts_result save (S j) rest true model_text
              | Some e => Raise e
              end
          | Some (Undecodable e) => Raise e
          | None => parts_result save (S j) rest image_saved model_text
          end
      end
  end.

(** [response.parts] of the [i]-th call, when the call returns one. *)
Definition call_parts (w : World) (i : nat) : option (list Part) :=
  match generate_content w i with
  | inr response => parts response
  | inl _ => None
  end.

(** The [model_text] values of the images saved in iteration [i]. *)
Definition saved_in (w : World) (i : nat) : list (option string) :=
  match call_parts w i with
  | Some ps => saved_texts (save_png w i) 0 ps None
  | None => []
  end.

(** Iteration [i] succeeds: the call returns, every part is processed
    without an exception (every image part decodes and is saved), and an image
    was saved ("Image saved" is printed). *)
Definition call_succeeds (w : World) (i : nat) : bool :=
  match call_parts w i with
  | Some ps =>
      match parts_result (save_png w i) 0 ps false None with
      | Ret (true, _) => true
      | _ => false
      end
  | None => false
  end.

(** A part handled as an image: no text, and inline data. *)
Definition is_image_part (p : Part) : bool :=
  match text p, inline_data p with
  | None, Some _ => true
  | _, _ => false
  end.

(** The generation of iteration [i] fails: the remote call raises, or the
    response has no image part. *)
Definition generation_fails (w : World) (i : nat) : bool :=
  match generate_content w i with
  | inl _ => true
  | inr response =>
      match parts response with
      | None => true
      | Some ps => negb (existsb is_image_part ps)
      end
  end.

(** The first image part of [ps] decodes, and its save raises. *)
Fixpoint first_save_raises (save : nat -> option Exn) (j : nat) (ps : list Part)
  : bool :=
  match ps with
  | [] => false
  | part :: rest =>
      match text part with
      | Some _ => first_save_raises save (S j) rest
      | None =>
          match inline_data part with
          | Some (Decodes _) => match save j with Some _ => true | None => false end
          | Some (Undecodable _) => false
          | None => first_save_raises save (S j) rest
          end
      end
  end.

(** The response of call [i] holds an image that decodes, and the save of
    the first one raises: the file cannot be written. *)
Definition save_fails (w : World) (i : nat) : bool :=
  match call_parts w i with
  | Some ps => first_save_raises (save_png w i) 0 ps
  | None => false
  end.

(** The responses of a run in which every iteration saves one image when it
    succeeds and none when it fails. *)
Definition one_image_per_success (w : World) (n : Z) : Prop :=
  forall i, In i (range n) ->
    length (saved_in w i) = if call_succeeds w i then 1%nat else 0%nat.

(** The text of the last text part of [ps], starting from [model_text]. *)
Fixpoint last_text_from (ps : list Part) (model_text : option string) : option string :=
  match ps with
  | [] => model_text
  | part :: rest =>
      last_text_from rest
        (match text part with Some t => Some t | None => model_text end)
  end.

(** The text of the last text part of a response, if it has one. *)
Definition last_text (ps : list Part) : option string := last_text_from ps None.

(** ** Paths, phases and endings of a run *)

(** The output path of iteration [i]. *)
Definition output_path (args : Args) (output_dir : Path.t) (i : nat) : Path.t :=
  if 1 <? count args then
    Path.join_str output_dir (fstr ["image-"; pad3 (Z.of_nat i + 1); ".png"])
  else if truthy (filename args) then
    let f := Path.of_string (match filename args with Some f => f | None => "" end) in
    if Path.is_absolute f then f else Path.join output_dir f
  else Path.join_str output_dir "image.png".

(** How iteration [i] ends: a failure is fatal when [count == 1]. *)
Definition iteration_end (args : Args) (w : World) (i : nat) : Res unit :=
  if call_succeeds w i then Ret tt
  else if count args =? 1 then SysExit 1
  else Ret tt.

(** The timestamped directory under the root given by [--out-dir]. *)
Definition timestamped_dir (w : World) (out : string) : Path.t :=
  Path.join_str (Path.of_string out) (fstr ["nano-banana-"; timestamp w]).

(** The output directory of a run that passed validation. *)
Definition output_dir_is (args : Args) (w : World) (d : Path.t) : Prop :=
  (exists out, out_dir args = Some out /\ truthy (out_dir args) = true /\
               d = timestamped_dir w out) \/
  (exists f, truthy (out_dir args) = false /\ filename args = Some f /\
             d = Path.parent (Path.of_string f)).

(** How "Load input image" ends. *)
Definition load_end (args : Args) (w : World) : Res (option InputImage * Resolution) :=
  match input_image args with
  | Some path =>
      if truthy (input_image args) then
        match open_image w path with
        | inr size =>
            let img := {| source := path; width := fst size; height := snd size |} in
            Ret (Some img,
                 if resolution_eqb (resolution args) R1K
                 then detect_resolution (width img) (height img)
                 else resolution args)
        | inl _ => SysExit 1
        end
      else Ret (None, resolution args)
  | None => Ret (None, resolution args)
  end.

(** No input image is named, or the one named opens. *)
Definition input_opens (args : Args) (w : World) : Prop :=
  truthy (input_image args) = false \/
  exists path size, input_image args = Some path /\ open_image w path = inr size.

(** What "Load input image" leaves behind when it does not exit: no image
    and the requested resolution, or the opened image and the resolution
    chosen for it. *)
Definition loaded (args : Args) (w : World)
    (input : option InputImage) (output_resolution : Resolution) : Prop :=
  match input with
  | None =>
      truthy (input_image args) = false /\ output_resolution = resolution args
  | Some img =>
      truthy (input_image args) = true /\
      input_image args = Some (source img) /\
      open_image w (source img) = inr (width img, height img) /\
      output_resolution =
        (if resolution_eqb (resolution args) R1K
         then detect_resolution (width img) (height img)
         else resolution args)
  end.

(** An event is a remote call only with the request built from the loaded
    input. *)
Definition call_built (args : Args) (w : World) (e : Event) : Prop :=
  forall i req, e = Call i req ->
    exists input output_resolution,
      loaded args w input output_resolution /\
      req = build_request args input output_resolution.

(** The entries added to [generated_images] by the iterations [xs]. *)
Definition loop_images (args : Args) (w : World) (output_dir : Path.t)
    (res : Resolution) (xs : list nat) : list GeneratedImage :=
  flat_map
    (fun i => map (image_entry args w (output_path args output_dir i) res) (saved_in w i))
    xs.

(** The files saved by the iterations [xs], one path per save. *)
Definition loop_saves (args : Args) (w : World) (output_dir : Path.t)
    (xs : list nat) : list string :=
  flat_map
    (fun i => repeat (Path.to_string (output_path args output_dir i))
                     (length (saved_in w i)))
    xs.

(** What a batch run with at least one image writes and prints after the
    loop. *)
Definition batch_report (args : Args) (output_dir : Path.t)
    (generated_images : list GeneratedImage) : list Event :=
  [WriteJson (Path.join_str output_dir "prompts.json")
     (JArr (map prompt_entry generated_images));
   Stdout (fstr [nl; "Metadata saved: ";
                 Path.to_string (Path.join_str output_dir "prompts.json")])]
  ++ (if no_gallery args then []
      else [WriteText (Path.join_str output_dir "index.html")
              (gallery_html generated_images);
            Stdout (fstr ["Gallery saved: ";
                          Path.to_string (Path.join_str output_dir "index.html")])])
  ++ [Stdout (fstr [nl; "Generated ";
                    str_int (Z.of_nat (length generated_images)); "/";
                    str_int (count args); " images in ";
                    Path.to_string output_dir])].

(** A run that does not reach the loop ends without an image, a remote call
    or a saved file, and not with status 0. *)
Definition stopped (args : Args) (w : World) : Prop :=
  images args w = [] /\ saves (trace args w) = [] /\ calls (trace args w) = [] /\
  exit_status (outcome args w) <> 0.

(** ** Markup of the gallery page *)

(** The characters that open or close markup in HTML text and attribute
    values. *)
Definition is_markup (c : ascii) : bool :=
  (c =? "<")%char || (c =? ">")%char || (c =? dq_char)%char || (c =? "'")%char.

(** The markup characters of a text, in order. *)
Fixpoint markup (s : string) : string :=
  match s with
  | EmptyString => ""
  | String c s' => if is_markup c then String c (markup s') else markup s'
  end.

(** Every [&] of the text starts one of the five entities. *)
Fixpoint entities_only (s : string) : bool :=
  match s with
  | EmptyString => true
  | String c s' =>
      (if (c =? "&")%char
       then prefix "amp;" s' || prefix "lt;" s' || prefix "gt;" s'
            || prefix "quot;" s' || prefix "#x27;" s'
       else true)
      && entities_only s'
  end.

(** The markup characters of a card: those of its fixed text. *)
Definition card_markup : string :=
  markup (card_open ++ card_alt ++ card_info ++ card_meta ++ card_sep ++ card_close).

(** How a reader of the page decodes a text: each of the five entities
    stands for its character, everything else for itself.  [skip] counts the
    characters of an entity still to be passed over. *)
Fixpoint html_unescape_from (skip : nat) (s : string) : string :=
  match s with
  | EmptyString => ""
  | String c s' =>
      match skip with
      | S k => html_unescape_from k s'
      | O =>
          if (c =? "&")%char then
            if prefix "amp;" s' then String "&" (html_unescape_from 4 s')
            else if prefix "lt;" s' then String "<" (html_unescape_from 3 s')
            else if prefix "gt;" s' then String ">" (html_unescape_from 3 s')
            else if prefix "quot;" s' then String dq_char (html_unescape_from 5 s')
            else if prefix "#x27;" s' then String "'" (html_unescape_from 5 s')
            else String c (html_unescape_from 0 s')
          else String c (html_unescape_from 0 s')
      end
  end.

Definition html_unescape (s : string) : string := html_unescape_from 0 s.

(** The pieces of a text between its markup characters, in order.  [cur]
    is the piece being read. *)
Fixpoint split_markup (s : string) (cur : string) : list string :=
  match s with
  | EmptyString => [cur]
  | String c s' =>
      if is_markup c then cur :: split_markup s' ""
      else split_markup s' (cur ++ String c "")
  end.

Definition segments (s : string) : list string := split_markup s "".

Fixpoint spaces (n : nat) : string :=
  match n with
  | O => ""
  | S n' => String " " (spaces n')
  end.

(** A line break and an indentation of [n] spaces. *)
Definition line_start (n : nat) : string := nl ++ spaces n.

(** The pieces of a card whose [src] and [alt] attributes have the values
    [src] and [alt], whose prompt block holds [body] and whose caption is
    [caption]: tag names and attribute names, attribute values, and the text
    between the tags. *)
Definition card_segments (src alt body caption : string) : list string :=
  [line_start 8; "div class="; "card"; "";
   line_start 12; "img src="; src; " alt="; alt; "";
   line_start 12; "div class="; "info"; "";
   line_start 16; "div class="; "prompt"; ""; body; "/div";
   line_start 16; "div class="; "meta"; ""; caption; "/div";
   line_start 12; "/div";
   line_start 8; "/div";
   nl].

(** What a reader finds in a card: the value of [src], the value of [alt],
    the text of the prompt block and the caption, entities decoded. *)
Definition read_card (card : string) : list string :=
  map (fun n => html_unescape (nth n (segments card) "")) [6; 8; 18; 24]%nat.

(** ** Event invariants and postconditions

    [sat E Q m]: whatever [generated_images] is, every event [m] emits
    satisfies [E], and when [m] returns normally its value satisfies [Q]. *)

Definition sat {A} (E : Event -> Prop) (Q : A -> Prop) (m : M A) : Prop :=
  forall g,
    Forall E (snd (m g)) /\
    (forall a, fst (fst (m g)) = Ret a -> Q a).

(** ** Concrete worlds and command lines *)

Definition text_part (s : string) : Part :=
  {| text := Some s; inline_data := None |}.

Definition image_part (mode : ImageMode) : Part :=
  {| text := None; inline_data := Some (Decodes mode) |}.

Definition broken_part : Part :=
  {| text := None;
     inline_data := Some (Undecodable (LibraryError "cannot identify image file")) |}.

(** A world with a key in the environment, a 3200x1800 input image, a
    file system on which every directory can be made and every image saved,
    and the given outcomes of the remote calls. *)
Definition world_with (responses : nat -> Exn + Response) : World :=
  {| env_api_key := Some "env-key";
     timestamp := "20250101-120000";
     mkdir := fun _ => None;
     open_image := fun _ => inr (3200, 1800);
     generate_content := responses;
     save_png := fun _ _ => None;
     resolve := fun p => Path.join (Path.of_string "/work") p |}.

Definition respond (ps : list Part) : Exn + Response := inr {| parts := Some ps |}.

(** [--prompt p --filename out.png] *)
Definition single_args : Args :=
  {| prompt := "a cute robot"; filename := Some "out.png"; input_image := None;
     resolution := R1K; aspect_ratio := A1x1; count := 1; out_dir := None;
     model := default_model; api_key := None; no_gallery := false |}.

(** [--prompt p --count n --out-dir shots] *)
Definition batch_args (n : Z) : Args :=
  {| prompt := "a cute robot"; filename := None; input_image := None;
     resolution := R1K; aspect_ratio := A16x9; count := n; out_dir := Some "shots";
     model := default_model; api_key := None; no_gallery := false |}.

(** [--prompt p --input-image photo.jpg --filename edited.png] *)
Definition edit_args (r : Resolution) : Args :=
  {| prompt := "make it sunset"; filename := Some "edited.png";
     input_image := Some "photo.jpg";
     resolution := r; aspect_ratio := A1x1; count := 1; out_dir := None;
     model := default_model; api_key := None; no_gallery := false |}.

(** [--prompt p --count 3] *)
Definition no_dir_args : Args :=
  {| prompt := "a cute robot"; filename := None; input_image := None;
     resolution := R1K; aspect_ratio := A1x1; count := 3; out_dir := None;
     model := default_model; api_key := None; no_gallery := false |}.

(** Every call answers with a text and an image. *)
Definition good_world : World :=
  world_with (fun _ => respond [text_part "Here you go"; image_part RGB]).

(** Every call raises. *)
Definition failing_world : World :=
  world_with (fun _ => inl (LibraryError "quota exceeded")).

(** Calls 0 and 2 raise, the others answer with an image. *)
Definition mixed_world : World :=
  world_with (fun i => match i with
                       | 0%nat | 2%nat => inl (LibraryError "quota exceeded")
                       | _ => respond [image_part RGBA]
                       end).

(** The answer holds an image and then a payload that is no image. *)
Definition partial_world : World :=
  world_with (fun _ => respond [image_part RGB; broken_part]).

(** The first answer holds two images, the others one. *)
Definition double_world : World :=
  world_with (fun i => match i with
                       | 0%nat => respond [image_part RGB; image_part RGB]
                       | _ => respond [image_part RGB]
                       end).

(** The answer holds the image first and the text after it. *)
Definition text_last_world : World :=
  world_with (fun _ => respond [image_part RGB; text_part "Here is your image"]).

(** No key on the command line or in the environment. *)
Definition keyless_world : World :=
  {| env_api_key := None;
     timestamp := "20250101-120000";
     mkdir := fun _ => None;
     open_image := fun _ => inr (3200, 1800);
     generate_content := fun _ => respond [image_part RGB];
     save_png := fun _ _ => None;
     resolve := fun p => Path.join (Path.of_string "/work") p |}.

(** ** Command lines, names and numbers *)

(** The argument checks let the command line through. *)
Definition validation_passes (args : Args) : Prop :=
  (1 < count args -> truthy (out_dir args) = true) /\
  (count args = 1 ->
     truthy (filename args) = true \/ truthy (out_dir args) = true).

(** The name of the file of iteration [i] in batch mode. *)
Definition batch_name (i : nat) : string :=
  fstr ["image-"; pad3 (Z.of_nat i + 1); ".png"].

(** No character of the string is a slash. *)
Fixpoint no_slash (s : string) : bool :=
  match s with
  | EmptyString => true
  | String c s' => negb (c =? "/")%char && no_slash s'
  end.

(** The number a string of decimal digits denotes. *)
Definition decimal_value (s : string) : option Z :=
  option_map Z.of_uint (NilEmpty.uint_of_string s).

(** [s[n:]]: what follows the first [n] characters. *)
Fixpoint str_drop (n : nat) (s : string) : string :=
  match s with
  | EmptyString => ""
  | String c s' =>
      if is_continuation c then str_drop n s'
      else match n with
           | O => s
           | S n' => str_drop n' s'
           end
  end.

(** Every byte of the string continues a character. *)
Fixpoint all_continuation (s : string) : bool :=
  match s with
  | EmptyString => true
  | String c s' => is_continuation c && all_continuation s'
  end.

(** The UTF-8 encoding of the character with code point [cp] (below
    0x110000): one byte below 0x80, else a leading byte followed by one, two
    or three bytes [10xxxxxx]. *)
Definition utf8_char (cp : N) : string :=
  (if cp <? 128 then String (ascii_of_N cp) ""
   else if cp <? 2048 then
     String (ascii_of_N (192 + cp / 64))
       (String (ascii_of_N (128 + cp mod 64)) "")
   else if cp <? 65536 then
     String (ascii_of_N (224 + cp / 4096))
       (String (ascii_of_N (128 + (cp / 64) mod 64))
          (String (ascii_of_N (128 + cp mod 64)) ""))
   else
     String (ascii_of_N (240 + cp / 262144))
       (String (ascii_of_N (128 + (cp / 4096) mod 64))
          (String (ascii_of_N (128 + (cp / 64) mod 64))
             (String (ascii_of_N (128 + cp mod 64)) ""))))%N.

(** The string that holds the text with the characters [cps]. *)
Fixpoint utf8 (cps : list N) : string :=
  match cps with
  | [] => ""
  | cp :: rest => utf8_char cp ++ utf8 rest
  end.

(** The three resolutions in increasing order. *)
Definition resolution_rank (r : Resolution) : Z :=
  match r with R1K => 1 | R2K => 2 | R4K => 4 end.

(** ** The images of a response *)

(** The image parts of [ps], by position (counted from [j]) and mode, up to
    the first payload that does not decode. *)
Fixpoint decoded_parts (j : nat) (ps : list Part) : list (nat * ImageMode) :=
  match ps with
  | [] => []
  | part :: rest =>
      match text part with
      | Some _ => decoded_parts (S j) rest
      | None =>
          match inline_data part with
          | Some (Decodes mode) => (j, mode) :: decoded_parts (S j) rest
          | Some (Undecodable _) => []
          | None => decoded_parts (S j) rest
          end
      end
  end.

(** The longest prefix of [xs] whose saves return. *)
Fixpoint saved_prefix (save : nat -> option Exn) (xs : list (nat * ImageMode))
  : list (nat * ImageMode) :=
  match xs with
  | [] => []
  | (j, mode) :: rest =>
      match save j with
      | None => (j, mode) :: saved_prefix save rest
      | Some _ => []
      end
  end.

Definition is_save (e : Event) : bool :=
  match e with SavePng _ _ => true | _ => false end.

(** ** Further worlds and command lines *)

(** The input image does not open. *)
Definition unreadable_world : World :=
  {| env_api_key := Some "env-key";
     timestamp := "20250101-120000";
     mkdir := fun _ => None;
     open_image := fun _ => inl (LibraryError "cannot identify image file");
     generate_content := fun _ => respond [image_part RGB];
     save_png := fun _ _ => None;
     resolve := fun p => Path.join (Path.of_string "/work") p |}.

(** What a save raises when the directory of its path does not exist. *)
Definition missing_dir : Exn := LibraryError "[Errno 2] No such file or directory".

(** What [mkdir] raises when [--out-dir] names a regular file. *)
Definition not_a_directory : Exn := LibraryError "[Errno 20] Not a directory".

(** Every call answers with a text and an image, and no image can be saved:
    the directory of the output path does not exist. *)
Definition unsaved_world : World :=
  {| env_api_key := Some "env-key";
     timestamp := "20250101-120000";
     mkdir := fun _ => None;
     open_image := fun _ => inr (3200, 1800);
     generate_content := fun _ => respond [text_part "Here you go"; image_part RGB];
     save_png := fun _ _ => Some missing_dir;
     resolve := fun p => Path.join (Path.of_string "/work") p |}.

(** No directory can be made. *)
Definition blocked_world : World :=
  {| env_api_key := Some "env-key";
     timestamp := "20250101-120000";
     mkdir := fun _ => Some not_a_directory;
     open_image := fun _ => inr (3200, 1800);
     generate_content := fun _ => respond [image_part RGB];
     save_png := fun _ _ => None;
     resolve := fun p => Path.join (Path.of_string "/work") p |}.

(** An image whose prompt and model try to close the tag they are in. *)
Definition hostile_image : GeneratedImage :=
  {| gi_filename := "image-001.png";
     gi_path := "/work/shots/image-001.png";
     gi_prompt := "</div><script>alert('x')</script> & more";
     gi_resolution := R1K;
     gi_aspect_ratio := A1x1;
     gi_model := fstr [dq; "><b>"];
     gi_model_text := None |}.

(** [--prompt p --count n --out-dir shots --input-image photo.jpg] *)
Definition batch_edit_args (n : Z) : Args :=
  {| prompt := "make it sunset"; filename := None; input_image := Some "photo.jpg";
     resolution := R1K; aspect_ratio := A1x1; count := n; out_dir := Some "shots";
     model := default_model; api_key := None; no_gallery := false |}.

(** [--prompt p --filename sub/a.png] *)
Definition nested_args : Args :=
  {| prompt := "a cute robot"; filename := Some "sub/a.png"; input_image := None;
     resolution := R1K; aspect_ratio := A1x1; count := 1; out_dir := None;
     model := default_model; api_key := None; no_gallery := false |}.
(** * Checks of the model on small inputs *)

Example path_parse_rel : Path.to_string (Path.of_string "./out//imgs/") = "out/imgs".
Proof. reflexivity. Qed.

Example path_parse_abs : Path.of_string "/tmp/a.png" = Path.mk "/" ["tmp"; "a.png"].
Proof. reflexivity. Qed.

Example path_parent_bare : Path.to_string (Path.parent (Path.of_string "a.png")) = ".".
Proof. reflexivity. Qed.

Example pad3_7 : pad3 7 = "007".
Proof. reflexivity. Qed.

Example pad3_1234 : pad3 1234 = "1234".
Proof. reflexivity. Qed.

(** * Reasoning about computations *)

(** ** Rules for [sat] *)

Section Sat.
Context (E : Event -> Prop).

Lemma sat_ret {A} (Q : A -> Prop) (a : A) : Q a -> sat E Q (ret a).
Proof.
  intros HQ g; split; [constructor|].
  intros a' Heq; inversion Heq; subst; exact HQ.
Qed.

Lemma sat_bind {A B} (Q : A -> Prop) (R : B -> Prop) (m : M A) (f : A -> M B) :
  sat E Q m -> (forall a, Q a -> sat E R (f a)) -> sat E R (bind m f).
Proof.
  intros Hm Hf g. unfold bind.
  destruct (Hm g) as [Hev Hres].
  destruct (m g) as [[r g1] t1]; simpl in *.
  destruct r as [a | e | c]; simpl.
  - specialize (Hf a (Hres a eq_refl) g1).
    destruct Hf as [Hev2 Hres2].
    destruct (f a g1) as [[r2 g2] t2]; simpl in *.
    split; [apply Forall_app; split; assumption | exact Hres2].
  - split; [assumption | discriminate].
  - split; [assumption | discriminate].
Qed.

Lemma sat_weaken {A} (Q Q' : A -> Prop) (m : M A) :
  sat E Q m -> (forall a, Q a -> Q' a) -> sat E Q' m.
Proof.
  intros Hm Himp g. destruct (Hm g) as [Hev Hres].
  split; [assumption | intros a Ha; apply Himp, Hres, Ha].
Qed.

Lemma sat_emit (e : Event) (Q : unit -> Prop) : E e -> Q tt -> sat E Q (emit e).
Proof.
  intros He HQ g; split; simpl.
  - constructor; [assumption | constructor].
  - intros [] _; exact HQ.
Qed.

Lemma sat_raise {A} (Q : A -> Prop) (e : Exn) : sat E Q (raise e).
Proof. intros g; split; simpl; [constructor | discriminate]. Qed.

Lemma sat_sys_exit {A} (Q : A -> Prop) (c : Z) : sat E Q (sys_exit c).
Proof. intros g; split; simpl; [constructor | discriminate]. Qed.

Lemma sat_append_image (x : GeneratedImage) (Q : unit -> Prop) :
  Q tt -> sat E Q (append_image x).
Proof. intros HQ g; split; simpl; [constructor | intros [] _; exact HQ]. Qed.

Lemma sat_get_images : sat E (fun _ => True) get_images.
Proof. intros g; split; simpl; [constructor | trivial]. Qed.

Lemma sat_lift_result {A} (Q : A -> Prop) (r : Exn + A) :
  (forall a, r = inr a -> Q a) -> sat E Q (lift_result r).
Proof.
  intros H. destruct r as [e | a]; simpl.
  - apply sat_raise.
  - apply sat_ret, H; reflexivity.
Qed.

Lemma sat_when (c : bool) (body : M unit) :
  (c = true -> sat E (fun _ => True) body) -> sat E (fun _ => True) (when c body).
Proof.
  intros H. destruct c; simpl; [apply H; reflexivity | apply sat_ret; exact I].
Qed.

Lemma sat_try_except {A} (Q : A -> Prop) (body : M A) (handler : Exn -> M A) :
  sat E Q body -> (forall e, sat E Q (handler e)) -> sat E Q (try_except body handler).
Proof.
  intros Hb Hh g. unfold try_except.
  destruct (Hb g) as [Hev Hres].
  destruct (body g) as [[r g1] t1]; simpl in *.
  destruct r as [a | e | c]; simpl.
  - split; assumption.
  - destruct (Hh e g1) as [Hev2 Hres2].
    destruct (handler e g1) as [[r2 g2] t2]; simpl in *.
    split; [apply Forall_app; split; assumption | exact Hres2].
  - split; [assumption | discriminate].
Qed.

Lemma sat_for_each {A} (xs : list A) (body : A -> M unit) :
  (forall x, In x xs -> sat E (fun _ => True) (body x)) ->
  sat E (fun _ => True) (for_each xs body).
Proof.
  induction xs as [| x rest IH]; intros H; simpl.
  - apply sat_ret; exact I.
  - eapply sat_bind.
    + apply H; left; reflexivity.
    + intros _ _. apply IH. intros y Hy. apply H; right; exact Hy.
Qed.

End Sat.

(** * The remote calls of a run *)

Ltac other_event :=
  hnf; intros; match goal with H : _ = _ |- _ => discriminate H end.

Ltac sat_quiet :=
  repeat
    lazymatch goal with
    | |- sat _ _ (ret _) => apply sat_ret; exact I
    | |- sat _ _ (raise _) => apply sat_raise
    | |- sat _ _ (sys_exit _) => apply sat_sys_exit
    | |- sat _ _ (emit _) => apply sat_emit; [other_event | exact I]
    | |- sat _ _ (print _) => apply sat_emit; [other_event | exact I]
    | |- sat _ _ (eprint _) => apply sat_emit; [other_event | exact I]
    | |- sat _ _ (append_image _) => apply sat_append_image; exact I
    | |- sat _ _ (when _ _) => apply sat_when; intros _
    | |- sat _ _ (bind _ _) => eapply sat_bind with (Q := fun _ => True); [| intros ? _]
    end.

Section Calls.
Context (args : Args) (w : World).
Let E := call_built args w.

Lemma sat_path_of (x : option string) : sat E (fun _ => True) (path_of x).
Proof. destruct x; simpl; sat_quiet. Qed.

Lemma sat_make_dir (d : Path.t) : sat E (fun _ => True) (make_dir w d).
Proof. unfold make_dir. destruct (mkdir w d); sat_quiet. Qed.

Lemma sat_save_image (i j : nat) (p : Path.t) (how : Conversion) :
  sat E (fun _ => True) (save_image w i j p how).
Proof. unfold save_image. destruct (save_png w i j); sat_quiet. Qed.

Lemma sat_setup_output_dir : sat E (fun _ => True) (setup_output_dir args w).
Proof.
  unfold setup_output_dir.
  destruct (truthy (out_dir args)).
  - eapply sat_bind; [apply sat_path_of | intros out _].
    eapply sat_bind; [apply sat_make_dir | intros _ _]. sat_quiet.
  - eapply sat_bind; [apply sat_path_of | intros file _].
    eapply sat_bind; [apply sat_make_dir | intros _ _]. sat_quiet.
Qed.

Lemma sat_load_input_image :
  sat E (fun r => loaded args w (fst r) (snd r)) (load_input_image args w).
Proof.
  unfold load_input_image.
  destruct (input_image args) as [path |] eqn:Hin.
  - destruct (truthy (Some path)) eqn:Htruthy.
    + apply sat_try_except.
      * eapply sat_bind with (Q := fun _ => True);
          [apply sat_emit; [other_event | exact I] | intros _ _].
        eapply sat_bind with (Q := fun size => open_image w path = inr size);
          [apply sat_lift_result; auto | intros [wd ht] Hopen].
        eapply sat_bind with (Q := fun _ => True);
          [apply sat_emit; [other_event | exact I] | intros _ _].
        simpl fst; simpl snd.
        destruct (resolution_eqb (resolution args) R1K) eqn:Hres.
        -- eapply sat_bind with (Q := fun _ => True);
             [apply sat_emit; [other_event | exact I] | intros _ _].
           apply sat_ret. unfold loaded; simpl.
           rewrite Hin, Htruthy, Hres. auto.
        -- apply sat_ret. unfold loaded; simpl.
           rewrite Hin, Htruthy, Hres. auto.
      * intros e. eapply sat_bind with (Q := fun _ => True);
          [apply sat_emit; [other_event | exact I] | intros _ _].
        apply sat_sys_exit.
    + apply sat_ret. unfold loaded; simpl. rewrite Hin. auto.
  - apply sat_ret. unfold loaded; simpl. rewrite Hin. auto.
Qed.

Lemma sat_output_path_for (output_dir : Path.t) (i : nat) :
  sat E (fun _ => True) (output_path_for args output_dir i).
Proof.
  unfold output_path_for.
  destruct (1 <? count args); [sat_quiet |].
  destruct (filename args) as [f |]; [| sat_quiet].
  destruct (truthy (Some f)); [| sat_quiet].
  destruct (negb (Path.is_absolute (Path.of_string f))); sat_quiet.
Qed.

Lemma sat_process_parts (output_path : Path.t) (res : Resolution) (i : nat)
    (ps : list Part) :
  forall j saved mt,
    sat E (fun _ => True) (process_parts args w output_path res i j ps saved mt).
Proof.
  induction ps as [| part rest IH]; intros j saved mt; simpl.
  - sat_quiet.
  - destruct (text part) as [t |].
    + eapply sat_bind with (Q := fun _ => True);
        [apply sat_emit; [other_event | exact I] | intros _ _]. apply IH.
    + destruct (inline_data part) as [d |]; [| apply IH].
      eapply sat_bind with (Q := fun _ => True);
        [apply sat_lift_result; trivial | intros mode _].
      eapply sat_bind with (Q := fun _ => True);
        [apply sat_save_image | intros _ _].
      eapply sat_bind with (Q := fun _ => True);
        [apply sat_append_image; exact I | intros _ _]. apply IH.
Qed.

Lemma sat_iteration (output_dir : Path.t) (input : option InputImage)
    (res : Resolution) (i : nat) :
  loaded args w input res ->
  sat E (fun _ => True) (iteration args w output_dir input res i).
Proof.
  intros Hloaded. unfold iteration.
  eapply sat_bind; [apply sat_output_path_for | intros output_path _].
  eapply sat_bind with (Q := fun _ => True); [destruct input; sat_quiet | intros _ _].
  apply sat_try_except.
  - eapply sat_bind with (Q := fun _ => True).
    + apply sat_emit; [| exact I].
      intros j req Hcall. inversion Hcall; subst.
      exists input, res. split; [exact Hloaded | reflexivity].
    + intros _ _.
      eapply sat_bind with (Q := fun _ => True);
        [apply sat_lift_result; trivial | intros response _].
      eapply sat_bind with (Q := fun _ => True);
        [unfold parts_iter; destruct (parts response); sat_quiet | intros ps _].
      eapply sat_bind with (Q := fun _ => True);
        [apply sat_process_parts | intros r _].
      destruct (fst r); sat_quiet.
  - intros e. sat_quiet.
Qed.

Lemma sat_save_batch (output_dir : Path.t) :
  sat E (fun _ => True) (save_batch args output_dir).
Proof.
  unfold save_batch, generate_gallery_html.
  apply sat_when; intros _.
  eapply sat_bind; [apply sat_get_images | intros g _].
  sat_quiet.
Qed.

Lemma sat_main : sat E (fun _ => True) (main args w).
Proof.
  unfold main.
  eapply sat_bind with (Q := fun _ => True); [sat_quiet | intros _ _].
  eapply sat_bind with (Q := fun _ => True); [sat_quiet | intros _ _].
  eapply sat_bind with (Q := fun _ => True); [sat_quiet | intros _ _].
  eapply sat_bind with (Q := fun _ => True);
    [apply sat_emit; [other_event | exact I] | intros _ _].
  eapply sat_bind; [apply sat_setup_output_dir | intros output_dir _].
  eapply sat_bind; [apply sat_load_input_image | intros [input res] Hloaded].
  simpl in Hloaded.
  eapply sat_bind with (Q := fun _ => True).
  - apply sat_for_each. intros i _. apply sat_iteration; exact Hloaded.
  - intros _ _. apply sat_save_batch.
Qed.

(** Every remote call of a run carries the request built from the loaded
    input image and the resolution chosen for it. *)
Lemma calls_in_trace (i : nat) (req : Request) :
  In (Call i req) (trace args w) ->
  exists input output_resolution,
    loaded args w input output_resolution /\
    req = build_request args input output_resolution.
Proof.
  intros Hin. destruct (sat_main []) as [Hev _].
  rewrite Forall_forall in Hev.
  exact (Hev _ Hin i req eq_refl).
Qed.

End Calls.

(** * Argument validation *)

(** C2.  When [count > 1] and [--out-dir] is absent (or empty), or when
    [count == 1] and both [--filename] and [--out-dir] are absent (or empty),
    the whole run is one message of one line on standard error followed by
    exit status 1: no client is created, no directory made, no image opened,
    no remote call issued and nothing written. *)
Theorem validation_failure_exits_first (args : Args) (w : World) :
  (1 < count args /\ truthy (out_dir args) = false) \/
  (count args = 1 /\ truthy (filename args) = false /\ truthy (out_dir args) = false) ->
  exists msg,
    trace args w = [Stderr msg] /\
    one_line msg = true /\
    outcome args w = Exit 1 /\
    exit_status (outcome args w) <> 0 /\
    images args w = [].
Proof.
  intros [[Hcount Hout] | [Hcount [Hfile Hout]]].
  - exists "Error: --out-dir is required when --count > 1".
    unfold trace, outcome, images, run, main.
    apply Z.ltb_lt in Hcount.
    unfold bind at 1. rewrite Hcount, Hout. simpl.
    repeat split; try reflexivity. discriminate.
  - exists "Error: --filename or --out-dir is required".
    unfold trace, outcome, images, run, main.
    unfold bind at 1. rewrite Hcount, Hfile, Hout. simpl.
    repeat split; try reflexivity. discriminate.
Qed.

(** * Request configuration *)

(** C4.  In every remote call of a run the image configuration has the
    key [aspect_ratio] exactly when no input image was supplied, and then
    with the requested ratio; the key [image_size] is there in every call. *)
Theorem aspect_ratio_only_without_input (args : Args) (w : World)
    (i : nat) (req : Request) :
  In (Call i req) (trace args w) ->
  (dict_get "aspect_ratio" (image_config req) <> None <->
     truthy (input_image args) = false) /\
  (truthy (input_image args) = false ->
     dict_get "aspect_ratio" (image_config req) = Some (Ratio (aspect_ratio args))) /\
  (exists r, dict_get "image_size" (image_config req) = Some (Size r)).
Proof.
  intros Hin.
  destruct (calls_in_trace args w i req Hin) as [input [res [Hloaded ->]]].
  destruct input as [img |]; simpl in Hloaded.
  - destruct Hloaded as [Htruthy _]. rewrite Htruthy. simpl.
    repeat split; try congruence; try discriminate.
    exists res; reflexivity.
  - destruct Hloaded as [Htruthy _]. rewrite Htruthy. simpl.
    repeat split; try congruence; try discriminate.
    exists res; reflexivity.
Qed.

(** * Resolution of an editing run *)

(** C3.  When an input image is supplied and opens with size
    [wd] x [ht], every remote call of the run carries as [image_size]:
    with the resolution left at [1K], the one read off the longer edge (4K from
    3000 px, 2K from 1500 px, 1K below); with 2K or 4K requested, the
    requested one, whatever the size. *)
Theorem resolution_from_input_image (args : Args) (w : World)
    (path : string) (wd ht : Z) (i : nat) (req : Request) :
  input_image args = Some path ->
  truthy (input_image args) = true ->
  open_image w path = inr (wd, ht) ->
  In (Call i req) (trace args w) ->
  (resolution args = R1K ->
     (3000 <= Z.max wd ht ->
        dict_get "image_size" (image_config req) = Some (Size R4K)) /\
     (1500 <= Z.max wd ht < 3000 ->
        dict_get "image_size" (image_config req) = Some (Size R2K)) /\
     (Z.max wd ht < 1500 ->
        dict_get "image_size" (image_config req) = Some (Size R1K))) /\
  (resolution args <> R1K ->
     dict_get "image_size" (image_config req) = Some (Size (resolution args))).
Proof.
  intros Hpath Htruthy Hopen Hin.
  destruct (calls_in_trace args w i req Hin) as [input [res [Hloaded ->]]].
  destruct input as [img |]; simpl in Hloaded.
  2: { destruct Hloaded as [Hfalse _]. congruence. }
  destruct Hloaded as [_ [Hsrc [Hopen' Hres]]].
  assert (Hsame : source img = path) by congruence.
  rewrite Hsame, Hopen in Hopen'. inversion Hopen'; subst wd ht.
  simpl. split.
  - intros H1K. rewrite H1K in Hres. simpl in Hres. subst res.
    unfold detect_resolution.
    repeat split; intros Hdim.
    + apply Z.leb_le in Hdim. rewrite Hdim. reflexivity.
    + destruct Hdim as [Hlo Hhi].
      apply Z.leb_le in Hlo. apply Z.leb_gt in Hhi. rewrite Hhi, Hlo. reflexivity.
    + assert (Hlt : Z.max (width img) (height img) < 3000) by lia.
      apply Z.leb_gt in Hdim. apply Z.leb_gt in Hlt. rewrite Hlt, Hdim. reflexivity.
  - intros Hnot. destruct (resolution args); simpl in Hres; subst res;
      try reflexivity. congruence.
Qed.

(** * One iteration of the loop *)

(** ** Projections of a trace *)

Lemma saves_app (t1 t2 : list Event) : saves (t1 ++ t2) = saves t1 ++ saves t2.
Proof. apply flat_map_app. Qed.

Lemma calls_app (t1 t2 : list Event) : calls (t1 ++ t2) = calls t1 ++ calls t2.
Proof. apply flat_map_app. Qed.

Lemma errors_app (t1 t2 : list Event) : errors (t1 ++ t2) = errors t1 ++ errors t2.
Proof. apply flat_map_app. Qed.

Lemma file_setup_app (t1 t2 : list Event) :
  file_setup (t1 ++ t2) = file_setup t1 ++ file_setup t2.
Proof. apply filter_app. Qed.

(** ** The iteration *)

Section Iteration.
Context (args : Args) (w : World) (output_dir : Path.t)
        (input : option InputImage) (res : Resolution).

Lemma output_path_for_eq (i : nat) :
  exists t, (forall g,
    output_path_for args output_dir i g = (Ret (output_path args output_dir i), g, t)) /\
    saves t = [] /\ calls t = [] /\ errors t = [] /\ file_setup t = [].
Proof.
  unfold output_path_for, output_path.
  destruct (1 <? count args).
  - eexists; split; [intros g; unfold bind, print, emit, ret; simpl; reflexivity |].
    repeat split.
  - destruct (filename args) as [f |]; simpl.
    + destruct (negb (f =? "")%string).
      * destruct (Path.is_absolute (Path.of_string f)); simpl;
          (exists []; split; [intros g; reflexivity | repeat split]).
      * exists []; split; [intros g; reflexivity | repeat split].
    + exists []; split; [intros g; reflexivity | repeat split].
Qed.

Lemma process_parts_eq (p : Path.t) (i : nat) (ps : list Part) :
  forall j saved mt, exists t, (forall g,
    process_parts args w p res i j ps saved mt g =
      (parts_result (save_png w i) j ps saved mt,
       g ++ map (image_entry args w p res) (saved_texts (save_png w i) j ps mt), t)) /\
    saves t =
      repeat (Path.to_string p) (length (saved_texts (save_png w i) j ps mt)) /\
    calls t = [] /\ errors t = [] /\ file_setup t = [].
Proof.
  induction ps as [| part rest IH]; intros j saved mt; simpl.
  - exists []. split; [intros g; unfold ret; rewrite app_nil_r; reflexivity |].
    repeat split.
  - destruct (text part) as [txt |].
    + destruct (IH (S j) saved (Some txt)) as [t [Hrun [Hs [Hc [He Hf]]]]].
      exists (Stdout (fstr ["Model response: "; txt]) :: t).
      split; [| repeat split; assumption].
      intros g. unfold bind, print, emit. rewrite Hrun. reflexivity.
    + destruct (inline_data part) as [[mode | e] |].
      * destruct (save_png w i j) as [e |] eqn:Hsave.
        -- exists []. split; [| repeat split].
           intros g. unfold bind, lift_result, decode, save_image, raise, ret.
           rewrite Hsave. simpl. rewrite app_nil_r. reflexivity.
        -- destruct (IH (S j) true mt) as [t [Hrun [Hs [Hc [He Hf]]]]].
           exists (SavePng (Path.to_string p) (conversion mode) :: t).
           split.
           ++ intros g.
              unfold bind, save_image, emit, append_image, lift_result, decode, ret.
              rewrite Hsave, Hrun. simpl. rewrite <- app_assoc. reflexivity.
           ++ simpl. rewrite Hs. repeat split; assumption.
      * exists []. split; [| repeat split].
        intros g. unfold bind, lift_result, decode, raise. simpl.
        rewrite app_nil_r. reflexivity.
      * apply IH.
Qed.

Lemma parts_result_no_exit (save : nat -> option Exn) (ps : list Part) :
  forall j saved mt c, parts_result save j ps saved mt <> SysExit c.
Proof.
  induction ps as [| part rest IH]; intros j saved mt c; simpl; [discriminate |].
  destruct (text part); [apply IH |].
  destruct (inline_data part) as [[mode | e] |]; [| discriminate | apply IH].
  destruct (save j); [discriminate | apply IH].
Qed.

Ltac run_iteration Hpath :=
  intros g; unfold iteration; unfold bind at 1; rewrite Hpath;
  unfold parts_iter, try_except, bind, print, eprint, emit, when, sys_exit, ret,
    lift_result, raise.

Lemma iteration_eq (i : nat) :
  exists t, (forall g,
    iteration args w output_dir input res i g =
      (iteration_end args w i,
       g ++ map (image_entry args w (output_path args output_dir i) res) (saved_in w i),
       t)) /\
    saves t =
      repeat (Path.to_string (output_path args output_dir i)) (length (saved_in w i)) /\
    calls t = [(i, build_request args input res)] /\
    (errors t = [] <-> call_succeeds w i = true) /\
    file_setup t = [].
Proof.
  destruct (output_path_for_eq i) as [t0 [Hpath [Hs0 [Hc0 [He0 Hf0]]]]].
  unfold iteration_end, call_succeeds, saved_in, call_parts.
  destruct (generate_content w i) as [e | response] eqn:Hgen;
    [| destruct (parts response) as [ps |] eqn:Hparts;
       [destruct (process_parts_eq (output_path args output_dir i) i ps 0 false None)
          as [t1 [Hrun [Hs1 [Hc1 [He1 Hf1]]]]];
        destruct (parts_result (save_png w i) 0 ps false None)
          as [[[|] mt] | e | c] eqn:Hres |]];
    try (exfalso; exact (parts_result_no_exit _ _ _ _ _ _ Hres));
    destruct input as [img |]; destruct (count args =? 1) eqn:Hone;
    (eexists; split;
     [ run_iteration Hpath; rewrite Hgen, ?Hone;
       repeat first [rewrite Hparts | rewrite Hrun | progress simpl];
       rewrite ?app_nil_r; reflexivity
     | rewrite ?saves_app, ?calls_app, ?errors_app, ?file_setup_app,
         ?Hs0, ?Hc0, ?He0, ?Hf0; simpl;
       rewrite ?saves_app, ?calls_app, ?errors_app, ?file_setup_app,
         ?Hs1, ?Hc1, ?He1, ?Hf1; simpl;
       rewrite ?app_nil_r;
       repeat split; try reflexivity; try discriminate; intros; discriminate ]).
Qed.

End Iteration.

(** * The phases of a run *)

Lemma bind_Ret {A B} (m : M A) (f : A -> M B) g a g1 t1 :
  m g = (Ret a, g1, t1) ->
  bind m f g = let '(r, g2, t2) := f a g1 in (r, g2, t1 ++ t2).
Proof. intros H. unfold bind. rewrite H. reflexivity. Qed.

Lemma bind_Raise {A B} (m : M A) (f : A -> M B) g e g1 t1 :
  m g = (Raise e, g1, t1) -> bind m f g = (Raise e, g1, t1).
Proof. intros H. unfold bind. rewrite H. reflexivity. Qed.

Lemma bind_SysExit {A B} (m : M A) (f : A -> M B) g c g1 t1 :
  m g = (SysExit c, g1, t1) -> bind m f g = (SysExit c, g1, t1).
Proof. intros H. unfold bind. rewrite H. reflexivity. Qed.

(** ** The output directory *)

Lemma setup_with_out_dir (args : Args) (w : World) (out : string) :
  out_dir args = Some out -> truthy (out_dir args) = true ->
  mkdir w (timestamped_dir w out) = None ->
  forall g, setup_output_dir args w g =
            (Ret (timestamped_dir w out), g, [Mkdir (timestamped_dir w out)]).
Proof.
  intros Hout Htruthy Hmk g. unfold setup_output_dir. rewrite Htruthy, Hout.
  unfold timestamped_dir in Hmk.
  unfold bind, path_of, make_dir, ret. rewrite Hmk. reflexivity.
Qed.

Lemma setup_with_filename (args : Args) (w : World) (f : string) :
  truthy (out_dir args) = false -> filename args = Some f ->
  mkdir w (Path.parent (Path.of_string f)) = None ->
  forall g, setup_output_dir args w g =
            (Ret (Path.parent (Path.of_string f)), g,
             [Mkdir (Path.parent (Path.of_string f))]).
Proof.
  intros Hout Hfile Hmk g. unfold setup_output_dir. rewrite Hout, Hfile.
  unfold bind, path_of, make_dir, ret. rewrite Hmk. reflexivity.
Qed.

(** When [mkdir] raises, so does "Set up output directory". *)
Lemma setup_blocked (args : Args) (w : World) (d : Path.t) (e : Exn) :
  output_dir_is args w d -> mkdir w d = Some e ->
  forall g, setup_output_dir args w g = (Raise e, g, []).
Proof.
  intros [[out [Hout [Htruthy ->]]] | [f [Htruthy [Hfile ->]]]] Hmk g;
    unfold setup_output_dir; unfold timestamped_dir in *.
  - rewrite Htruthy, Hout. unfold bind, path_of, make_dir, ret, raise.
    rewrite Hmk. reflexivity.
  - rewrite Htruthy, Hfile. unfold bind, path_of, make_dir, ret, raise.
    rewrite Hmk. reflexivity.
Qed.

Lemma setup_with_neither (args : Args) (w : World) :
  truthy (out_dir args) = false -> filename args = None ->
  forall g, exists msg, setup_output_dir args w g = (Raise (TypeError msg), g, []).
Proof.
  intros Hout Hfile g. unfold setup_output_dir. rewrite Hout, Hfile.
  eexists; reflexivity.
Qed.

(** ** The input image *)

Lemma load_input_image_eq (args : Args) (w : World) :
  exists t, (forall g, load_input_image args w g = (load_end args w, g, t)) /\
    saves t = [] /\ calls t = [] /\ file_setup t = [] /\
    (forall r, load_end args w = Ret r -> errors t = []).
Proof.
  unfold load_input_image, load_end.
  destruct (input_image args) as [path |] eqn:Hin.
  2: { exists []. split; [reflexivity | repeat split]. }
  destruct (truthy (Some path)).
  2: { exists []. split; [reflexivity | repeat split]. }
  destruct (open_image w path) as [e | [wd ht]] eqn:Hopen.
  - eexists. split.
    + intros g. unfold try_except, bind, emit, print, eprint, lift_result, raise, sys_exit.
      simpl. reflexivity.
    + repeat split. intros r Hr; discriminate Hr.
  - destruct (resolution_eqb (resolution args) R1K) eqn:Hres.
    + eexists. split.
      * intros g. unfold try_except, bind, emit, print, eprint, lift_result, ret.
        simpl. rewrite ?Hres. reflexivity.
      * repeat split.
    + eexists. split.
      * intros g. unfold try_except, bind, emit, print, eprint, lift_result, ret.
        simpl. rewrite ?Hres. reflexivity.
      * repeat split.
Qed.

(** ** The loop *)

Section Loop.
Context (args : Args) (w : World) (output_dir : Path.t)
        (input : option InputImage) (res : Resolution).

(** When no iteration exits, the loop runs every iteration in turn. *)
Lemma for_each_iteration (xs : list nat) :
  (forall i, In i xs -> iteration_end args w i = Ret tt) ->
  exists t, (forall g,
    for_each xs (iteration args w output_dir input res) g =
      (Ret tt, g ++ loop_images args w output_dir res xs, t)) /\
    saves t = loop_saves args w output_dir xs /\
    calls t = map (fun i => (i, build_request args input res)) xs /\
    (errors t = [] <-> forallb (call_succeeds w) xs = true) /\
    file_setup t = [].
Proof.
  induction xs as [| i rest IH]; intros Hend.
  - exists []. split; [intros g; simpl; unfold ret; rewrite app_nil_r; reflexivity |].
    repeat split.
  - destruct IH as [t2 [Hrun2 [Hs2 [Hc2 [He2 Hf2]]]]];
      [intros j Hj; apply Hend; right; exact Hj |].
    destruct (iteration_eq args w output_dir input res i)
      as [t1 [Hrun1 [Hs1 [Hc1 [He1 Hf1]]]]].
    exists (t1 ++ t2). split.
    + intros g. simpl for_each.
      erewrite bind_Ret
        by (rewrite Hrun1, (Hend i (or_introl eq_refl)); reflexivity).
      rewrite Hrun2. simpl. rewrite <- app_assoc. reflexivity.
    + rewrite saves_app, calls_app, errors_app, file_setup_app, Hs1, Hs2, Hc1, Hc2,
        Hf1, Hf2.
      repeat split; try reflexivity.
      * intros Herr. apply app_eq_nil in Herr. destruct Herr as [Ha Hb].
        simpl. rewrite (proj1 He1 Ha), (proj1 He2 Hb). reflexivity.
      * simpl. intros Hall. apply andb_true_iff in Hall. destruct Hall as [Ha Hb].
        rewrite (proj2 He1 Ha), (proj2 He2 Hb). reflexivity.
Qed.

End Loop.

(** ** Metadata and gallery *)

Lemma save_batch_eq (args : Args) (output_dir : Path.t) (g : list GeneratedImage) :
  save_batch args output_dir g =
    if 1 <? count args then
      match g with
      | [] => (SysExit 1, [],
               [Stderr (fstr [nl; "Error: No images were successfully generated."])])
      | _ => (Ret tt, g, batch_report args output_dir g)
      end
    else (Ret tt, g, []).
Proof.
  unfold save_batch, batch_report, generate_gallery_html.
  destruct (1 <? count args); [| reflexivity].
  destruct g as [| x g']; [reflexivity |].
  unfold bind, when, get_images, emit, print, ret.
  destruct (no_gallery args); reflexivity.
Qed.

(** ** From the start of [main] to the loop *)

Lemma started_run (args : Args) (w : World) (k : string) (d : Path.t)
    (input : option InputImage) (res : Resolution) :
  (1 <? count args) && negb (truthy (out_dir args)) = false ->
  (count args =? 1) && negb (truthy (filename args)) && negb (truthy (out_dir args))
    = false ->
  get_api_key w (api_key args) = Some k ->
  truthy (Some k) = true ->
  (forall g, setup_output_dir args w g = (Ret d, g, [Mkdir d])) ->
  load_end args w = Ret (input, res) ->
  exists tl,
    saves tl = [] /\ calls tl = [] /\ file_setup tl = [] /\ errors tl = [] /\
    run args w =
      let '(r, g, t) :=
        (for_each (range (count args)) (iteration args w d input res) ;;
         save_batch args d) [] in
      (r, g, [NewClient k; Mkdir d] ++ tl ++ t).
Proof.
  intros Hv1 Hv2 Hkey Htruthy Hsetup Hload.
  destruct (load_input_image_eq args w) as [tl [Hrun [Hs [Hc [Hf He]]]]].
  exists tl. repeat split; try assumption; [eapply He; exact Hload |].
  unfold run, main.
  rewrite Hv1, Hv2, Hkey, Htruthy. simpl negb. simpl when.
  erewrite bind_Ret by reflexivity.
  erewrite bind_Ret by reflexivity.
  erewrite bind_Ret by reflexivity.
  erewrite bind_Ret by reflexivity.
  erewrite bind_Ret by apply Hsetup.
  erewrite bind_Ret by (rewrite Hrun, Hload; reflexivity).
  destruct ((for_each (range (count args)) (iteration args w d input res);;
             save_batch args d) []) as [[r g] t].
  reflexivity.
Qed.

Lemma load_end_cases (args : Args) (w : World) :
  (exists input res, load_end args w = Ret (input, res)) \/
  load_end args w = SysExit 1.
Proof.
  unfold load_end.
  destruct (input_image args) as [path |]; [| left; eauto].
  destruct (truthy (Some path)); [| left; eauto].
  destruct (open_image w path) as [e | size]; [right; reflexivity | left; eauto].
Qed.

Lemma stopped_without_key (args : Args) (w : World) :
  (1 <? count args) && negb (truthy (out_dir args)) = false ->
  (count args =? 1) && negb (truthy (filename args)) && negb (truthy (out_dir args))
    = false ->
  truthy (get_api_key w (api_key args)) = false ->
  run args w =
    (SysExit 1, [],
     [Stderr "Error: No API key provided."; Stderr "Please either:";
      Stderr "  1. Provide --api-key argument";
      Stderr "  2. Set GEMINI_API_KEY environment variable"]).
Proof.
  intros Hv1 Hv2 Hkey. unfold run, main.
  rewrite Hv1, Hv2, Hkey. reflexivity.
Qed.

Lemma stopped_at_load (args : Args) (w : World) (k : string) (d : Path.t) :
  (1 <? count args) && negb (truthy (out_dir args)) = false ->
  (count args =? 1) && negb (truthy (filename args)) && negb (truthy (out_dir args))
    = false ->
  get_api_key w (api_key args) = Some k ->
  truthy (Some k) = true ->
  (forall g, setup_output_dir args w g = (Ret d, g, [Mkdir d])) ->
  load_end args w = SysExit 1 ->
  exists tl,
    saves tl = [] /\ calls tl = [] /\
    run args w = (SysExit 1, [], [NewClient k; Mkdir d] ++ tl).
Proof.
  intros Hv1 Hv2 Hkey Htruthy Hsetup Hload.
  destruct (load_input_image_eq args w) as [tl [Hrun [Hs [Hc [Hf He]]]]].
  exists tl. repeat split; try assumption.
  unfold run, main.
  rewrite Hv1, Hv2, Hkey, Htruthy. simpl negb. simpl when.
  erewrite bind_Ret by reflexivity.
  erewrite bind_Ret by reflexivity.
  erewrite bind_Ret by reflexivity.
  erewrite bind_Ret by reflexivity.
  erewrite bind_Ret by apply Hsetup.
  erewrite bind_SysExit by (rewrite Hrun, Hload; reflexivity).
  simpl. rewrite ?app_nil_r. reflexivity.
Qed.

Lemma stopped_at_mkdir (args : Args) (w : World) (k : string) (d : Path.t) (e : Exn) :
  (1 <? count args) && negb (truthy (out_dir args)) = false ->
  (count args =? 1) && negb (truthy (filename args)) && negb (truthy (out_dir args))
    = false ->
  get_api_key w (api_key args) = Some k ->
  truthy (Some k) = true ->
  output_dir_is args w d -> mkdir w d = Some e ->
  run args w = (Raise e, [], [NewClient k]).
Proof.
  intros Hv1 Hv2 Hkey Htruthy Hd Hmk.
  unfold run, main.
  rewrite Hv1, Hv2, Hkey, Htruthy. simpl negb. simpl when.
  erewrite bind_Ret by reflexivity.
  erewrite bind_Ret by reflexivity.
  erewrite bind_Ret by reflexivity.
  erewrite bind_Ret by reflexivity.
  erewrite bind_Raise by (apply (setup_blocked args w d e Hd Hmk)).
  reflexivity.
Qed.

(** ** Batch mode *)

Lemma batch_never_exits (args : Args) (w : World) (i : nat) :
  1 < count args -> iteration_end args w i = Ret tt.
Proof.
  intros Hcount. unfold iteration_end.
  destruct (call_succeeds w i); [reflexivity |].
  destruct (Z.eqb_spec (count args) 1); [lia | reflexivity].
Qed.

Lemma batch_started (args : Args) (w : World) (k out : string)
    (input : option InputImage) (res : Resolution) :
  1 < count args ->
  out_dir args = Some out -> truthy (out_dir args) = true ->
  get_api_key w (api_key args) = Some k -> truthy (Some k) = true ->
  mkdir w (timestamped_dir w out) = None ->
  load_end args w = Ret (input, res) ->
  let d := timestamped_dir w out in
  let imgs := loop_images args w d res (range (count args)) in
  exists tl tloop,
    (saves tl = [] /\ calls tl = [] /\ file_setup tl = [] /\ errors tl = []) /\
    (saves tloop = loop_saves args w d (range (count args)) /\
     calls tloop = map (fun i => (i, build_request args input res)) (range (count args)) /\
     (errors tloop = [] <-> forallb (call_succeeds w) (range (count args)) = true) /\
     file_setup tloop = []) /\
    run args w =
      match imgs with
      | [] => (SysExit 1, [],
               [NewClient k; Mkdir d] ++ tl ++ tloop ++
               [Stderr (fstr [nl; "Error: No images were successfully generated."])])
      | _ => (Ret tt, imgs,
              [NewClient k; Mkdir d] ++ tl ++ tloop ++ batch_report args d imgs)
      end.
Proof.
  intros Hcount Hout Htruthy Hkey Hk Hmk Hload d imgs.
  assert (Hv1 : (1 <? count args) && negb (truthy (out_dir args)) = false)
    by (rewrite Htruthy; apply andb_false_r).
  assert (Hv2 : (count args =? 1) && negb (truthy (filename args))
                && negb (truthy (out_dir args)) = false)
    by (rewrite Htruthy; apply andb_false_r).
  destruct (started_run args w k d input res Hv1 Hv2 Hkey Hk
              (setup_with_out_dir args w out Hout Htruthy Hmk) Hload)
    as [tl [Hs [Hc [Hf [He Hrun]]]]].
  destruct (for_each_iteration args w d input res (range (count args))
              (fun i _ => batch_never_exits args w i Hcount))
    as [tloop [Hloop Hprops]].
  exists tl, tloop. split; [auto |]. split; [exact Hprops |].
  rewrite Hrun.
  erewrite bind_Ret by apply Hloop.
  rewrite save_batch_eq. apply Z.ltb_lt in Hcount. rewrite Hcount.
  simpl app at 1. fold imgs.
  destruct imgs; reflexivity.
Qed.

Lemma saves_batch_report (args : Args) (d : Path.t) (g : list GeneratedImage) :
  saves (batch_report args d g) = [] /\ calls (batch_report args d g) = [].
Proof. unfold batch_report. destruct (no_gallery args); split; reflexivity. Qed.

(** What a batch run that gets to its loop records, saves, calls, and how
    it ends. *)
Lemma batch_run_eq (args : Args) (w : World) (k out : string)
    (input : option InputImage) (res : Resolution) :
  1 < count args ->
  out_dir args = Some out -> truthy (out_dir args) = true ->
  get_api_key w (api_key args) = Some k -> truthy (Some k) = true ->
  mkdir w (timestamped_dir w out) = None ->
  load_end args w = Ret (input, res) ->
  let d := timestamped_dir w out in
  images args w = loop_images args w d res (range (count args)) /\
  saves (trace args w) = loop_saves args w d (range (count args)) /\
  calls (trace args w) =
    map (fun i => (i, build_request args input res)) (range (count args)) /\
  outcome args w =
    match loop_images args w d res (range (count args)) with
    | [] => Exit 1
    | _ => Exit 0
    end.
Proof.
  intros Hcount Hout Ht Hkey Hk Hmk Hload d.
  destruct (batch_started args w k out input res Hcount Hout Ht Hkey Hk Hmk Hload)
    as [tl [tloop [[Hs1 [Hc1 _]] [[Hs2 [Hc2 _]] Hrun]]]].
  fold d in Hrun, Hs2.
  unfold images, trace, outcome.
  destruct (loop_images args w d res (range (count args))) as [| x imgs];
    rewrite Hrun; cbn [fst snd outcome_of].
  - rewrite !saves_app, !calls_app, Hs1, Hs2, Hc1, Hc2.
    cbn [saves calls flat_map app]. rewrite !app_nil_r. auto.
  - destruct (saves_batch_report args d (x :: imgs)) as [Hs3 Hc3].
    rewrite !saves_app, !calls_app, Hs1, Hs2, Hc1, Hc2, Hs3, Hc3.
    cbn [saves calls flat_map app]. rewrite !app_nil_r. auto.
Qed.

Lemma truthy_some (o : option string) :
  truthy o = true -> exists s, o = Some s.
Proof. destruct o as [s |]; [eauto | discriminate]. Qed.

Lemma batch_cases (args : Args) (w : World) :
  1 < count args ->
  stopped args w \/
  exists k out input res,
    out_dir args = Some out /\ truthy (out_dir args) = true /\
    get_api_key w (api_key args) = Some k /\ truthy (Some k) = true /\
    mkdir w (timestamped_dir w out) = None /\
    load_end args w = Ret (input, res).
Proof.
  intros Hcount.
  destruct (truthy (out_dir args)) eqn:Hout.
  - assert (Hv1 : (1 <? count args) && negb (truthy (out_dir args)) = false)
      by (rewrite Hout; apply andb_false_r).
    assert (Hv2 : (count args =? 1) && negb (truthy (filename args))
                  && negb (truthy (out_dir args)) = false)
      by (rewrite Hout; apply andb_false_r).
    destruct (truthy_some _ Hout) as [out Hdir].
    destruct (truthy (get_api_key w (api_key args))) eqn:Hkey.
    + destruct (truthy_some _ Hkey) as [k Hget]. rewrite Hget in Hkey.
      destruct (mkdir w (timestamped_dir w out)) as [e |] eqn:Hmk.
      { left. unfold stopped, images, trace, outcome.
        rewrite (stopped_at_mkdir args w k (timestamped_dir w out) e Hv1 Hv2 Hget Hkey
                   (or_introl (ex_intro _ out (conj Hdir (conj Hout eq_refl)))) Hmk).
        simpl. repeat split. discriminate. }
      destruct (load_end_cases args w) as [[input [res Hload]] | Hload].
      * right. exists k, out, input, res. auto 6.
      * left.
        destruct (stopped_at_load args w k _ Hv1 Hv2 Hget Hkey
                    (setup_with_out_dir args w out Hdir Hout Hmk) Hload)
          as [tl [Hs [Hc Hrun]]].
        unfold stopped, images, trace, outcome. rewrite Hrun. simpl.
        repeat split; try assumption. discriminate.
    + left. unfold stopped, images, trace, outcome.
      rewrite (stopped_without_key args w Hv1 Hv2 Hkey). simpl.
      repeat split. discriminate.
  - left. apply Z.ltb_lt in Hcount.
    unfold stopped, images, trace, outcome, run, main.
    unfold bind at 1. rewrite Hcount, Hout. simpl.
    repeat split. discriminate.
Qed.

(** ** Single mode *)

Lemma setup_output_dir_eq (args : Args) (w : World) (d : Path.t) :
  output_dir_is args w d -> mkdir w d = None ->
  forall g, setup_output_dir args w g = (Ret d, g, [Mkdir d]).
Proof.
  intros [[out [Hout [Htruthy ->]]] | [f [Htruthy [Hfile ->]]]] Hmk.
  - apply setup_with_out_dir; assumption.
  - apply setup_with_filename; assumption.
Qed.

Lemma single_started (args : Args) (w : World) (k : string) (d : Path.t)
    (input : option InputImage) (res : Resolution) :
  count args = 1 ->
  output_dir_is args w d -> mkdir w d = None ->
  truthy (filename args) || truthy (out_dir args) = true ->
  get_api_key w (api_key args) = Some k -> truthy (Some k) = true ->
  load_end args w = Ret (input, res) ->
  exists tl t,
    (saves tl = [] /\ calls tl = [] /\ file_setup tl = [] /\ errors tl = []) /\
    (saves t = repeat (Path.to_string (output_path args d 0))
                      (length (saved_in w 0)) /\
     calls t = [(0%nat, build_request args input res)] /\
     (errors t = [] <-> call_succeeds w 0 = true) /\
     file_setup t = []) /\
    run args w =
      (iteration_end args w 0,
       map (image_entry args w (output_path args d 0) res) (saved_in w 0),
       [NewClient k; Mkdir d] ++ tl ++ t).
Proof.
  intros Hcount Hdir Hmk Hgiven Hkey Hk Hload.
  assert (Hv1 : (1 <? count args) && negb (truthy (out_dir args)) = false)
    by (rewrite Hcount; reflexivity).
  assert (Hv2 : (count args =? 1) && negb (truthy (filename args))
                && negb (truthy (out_dir args)) = false).
  { rewrite <- andb_assoc, <- negb_orb, Hgiven. apply andb_false_r. }
  destruct (started_run args w k d input res Hv1 Hv2 Hkey Hk
              (setup_output_dir_eq args w d Hdir Hmk) Hload)
    as [tl [Hs [Hc [Hf [He Hrun]]]]].
  destruct (iteration_eq args w d input res 0) as [t [Hit Hprops]].
  exists tl, t. split; [auto |]. split; [exact Hprops |].
  rewrite Hrun, Hcount. change (range 1) with [0%nat]. simpl for_each.
  unfold bind at 1. unfold bind at 1. rewrite Hit.
  destruct (iteration_end args w 0) as [[] | e | c]; simpl;
    rewrite ?save_batch_eq, ?Hcount; simpl; rewrite ?app_nil_r; reflexivity.
Qed.

Lemma single_cases (args : Args) (w : World) :
  count args = 1 ->
  stopped args w \/
  exists k d input res,
    output_dir_is args w d /\ mkdir w d = None /\
    truthy (filename args) || truthy (out_dir args) = true /\
    get_api_key w (api_key args) = Some k /\ truthy (Some k) = true /\
    load_end args w = Ret (input, res).
Proof.
  intros Hcount.
  assert (Hv1 : (1 <? count args) && negb (truthy (out_dir args)) = false)
    by (rewrite Hcount; reflexivity).
  destruct (truthy (filename args) || truthy (out_dir args)) eqn:Hgiven.
  - assert (Hv2 : (count args =? 1) && negb (truthy (filename args))
                  && negb (truthy (out_dir args)) = false).
    { rewrite <- andb_assoc, <- negb_orb, Hgiven. apply andb_false_r. }
    assert (Hdir : exists d, output_dir_is args w d).
    { destruct (truthy (out_dir args)) eqn:Hout.
      - destruct (truthy_some _ Hout) as [out Hsome].
        exists (timestamped_dir w out). left. exists out. auto.
      - rewrite orb_false_r in Hgiven.
        destruct (truthy_some _ Hgiven) as [f Hsome].
        exists (Path.parent (Path.of_string f)). right. exists f. auto. }
    destruct Hdir as [d Hdir].
    destruct (truthy (get_api_key w (api_key args))) eqn:Hkey.
    + destruct (truthy_some _ Hkey) as [k Hget]. rewrite Hget in Hkey.
      destruct (mkdir w d) as [e |] eqn:Hmk.
      { left. unfold stopped, images, trace, outcome.
        rewrite (stopped_at_mkdir args w k d e Hv1 Hv2 Hget Hkey Hdir Hmk).
        simpl. repeat split. discriminate. }
      destruct (load_end_cases args w) as [[input [res Hload]] | Hload].
      * right. exists k, d, input, res. auto 6.
      * left.
        destruct (stopped_at_load args w k d Hv1 Hv2 Hget Hkey
                    (setup_output_dir_eq args w d Hdir Hmk) Hload)
          as [tl [Hs [Hc Hrun]]].
        unfold stopped, images, trace, outcome. rewrite Hrun. simpl.
        repeat split; try assumption. discriminate.
    + left. unfold stopped, images, trace, outcome.
      rewrite (stopped_without_key args w Hv1 Hv2 Hkey). simpl.
      repeat split. discriminate.
  - left. apply orb_false_iff in Hgiven. destruct Hgiven as [Hfile Hout].
    unfold stopped, images, trace, outcome, run, main.
    unfold bind at 1. rewrite Hcount, Hfile, Hout. simpl.
    repeat split. discriminate.
Qed.

(** ** No iteration at all *)

Lemma empty_started (args : Args) (w : World) (k : string) (d : Path.t)
    (input : option InputImage) (res : Resolution) :
  count args <= 0 ->
  get_api_key w (api_key args) = Some k -> truthy (Some k) = true ->
  (forall g, setup_output_dir args w g = (Ret d, g, [Mkdir d])) ->
  load_end args w = Ret (input, res) ->
  exists tl,
    (saves tl = [] /\ calls tl = [] /\ file_setup tl = [] /\ errors tl = []) /\
    run args w = (Ret tt, [], [NewClient k; Mkdir d] ++ tl).
Proof.
  intros Hcount Hkey Hk Hsetup Hload.
  assert (Hlt : (1 <? count args) = false) by (apply Z.ltb_ge; lia).
  assert (Hne : (count args =? 1) = false) by (apply Z.eqb_neq; lia).
  assert (Hv1 : (1 <? count args) && negb (truthy (out_dir args)) = false)
    by (rewrite Hlt; reflexivity).
  assert (Hv2 : (count args =? 1) && negb (truthy (filename args))
                && negb (truthy (out_dir args)) = false)
    by (rewrite Hne; reflexivity).
  destruct (started_run args w k d input res Hv1 Hv2 Hkey Hk Hsetup Hload)
    as [tl [Hs [Hc [Hf [He Hrun]]]]].
  exists tl. split; [auto |].
  rewrite Hrun.
  assert (Hrange : range (count args) = []).
  { unfold range. destruct (count args); try reflexivity. lia. }
  rewrite Hrange. simpl for_each.
  unfold bind, ret. rewrite save_batch_eq, Hlt. simpl.
  rewrite app_nil_r. reflexivity.
Qed.

(** * Failures and the exit status *)

Lemma no_image_part_result (save : nat -> option Exn) (ps : list Part) :
  existsb is_image_part ps = false ->
  forall j saved mt,
    saved_texts save j ps mt = [] /\
    exists mt', parts_result save j ps saved mt = Ret (saved, mt').
Proof.
  induction ps as [| part rest IH]; intros Hno j saved mt; simpl.
  - split; [reflexivity | eauto].
  - simpl in Hno. apply orb_false_iff in Hno. destruct Hno as [Hpart Hrest].
    unfold is_image_part in Hpart.
    destruct (text part) as [t |]; [apply IH; exact Hrest |].
    destruct (inline_data part) as [d |]; [discriminate Hpart |].
    apply IH; exact Hrest.
Qed.

Lemma generation_fails_spec (w : World) (i : nat) :
  generation_fails w i = true ->
  call_succeeds w i = false /\ saved_in w i = [].
Proof.
  unfold generation_fails, call_succeeds, saved_in, call_parts.
  destruct (generate_content w i) as [e | response]; [auto |].
  destruct (parts response) as [ps |]; [| auto].
  intros Hno. apply negb_true_iff in Hno.
  destruct (no_image_part_result (save_png w i) ps Hno 0%nat false None)
    as [Hsaved [mt' Hres]].
  rewrite Hsaved, Hres. auto.
Qed.

Lemma first_save_raises_result (save : nat -> option Exn) (ps : list Part) :
  forall j saved mt,
    first_save_raises save j ps = true ->
    saved_texts save j ps mt = [] /\
    exists e, parts_result save j ps saved mt = Raise e.
Proof.
  induction ps as [| part rest IH]; intros j saved mt Hfirst; simpl in *.
  - discriminate Hfirst.
  - destruct (text part) as [t |]; [apply IH; exact Hfirst |].
    destruct (inline_data part) as [[mode | e] |].
    + destruct (save j) as [e |]; [eauto | discriminate Hfirst].
    + discriminate Hfirst.
    + apply IH; exact Hfirst.
Qed.

Lemma save_fails_spec (w : World) (i : nat) :
  save_fails w i = true ->
  call_succeeds w i = false /\ saved_in w i = [].
Proof.
  unfold save_fails, call_succeeds, saved_in.
  destruct (call_parts w i) as [ps |]; [| discriminate].
  intros Hfirst.
  destruct (first_save_raises_result (save_png w i) ps 0%nat false None Hfirst)
    as [Hsaved [e Hres]].
  rewrite Hsaved, Hres. auto.
Qed.

Lemma length_loop_saves (args : Args) (w : World) (d : Path.t) (res : Resolution)
    (xs : list nat) :
  length (loop_saves args w d xs) = length (loop_images args w d res xs).
Proof.
  unfold loop_saves, loop_images.
  induction xs as [| i rest IH]; simpl; [reflexivity |].
  rewrite !length_app, IH, repeat_length, length_map. reflexivity.
Qed.

Lemma saved_when_result_true (save : nat -> option Exn) (ps : list Part) :
  forall j saved mt mt',
    parts_result save j ps saved mt = Ret (true, mt') ->
    saved = true \/ saved_texts save j ps mt <> [].
Proof.
  induction ps as [| part rest IH]; intros j saved mt mt' Hres; simpl in *.
  - left. congruence.
  - destruct (text part) as [t |]; [eapply IH; exact Hres |].
    destruct (inline_data part) as [[mode | e] |].
    + destruct (save j); [discriminate Hres | right; discriminate].
    + discriminate Hres.
    + eapply IH; exact Hres.
Qed.

Lemma call_succeeds_saved (w : World) (i : nat) :
  call_succeeds w i = true -> exists n, length (saved_in w i) = S n.
Proof.
  unfold call_succeeds, saved_in.
  destruct (call_parts w i) as [ps |]; [| discriminate].
  destruct (parts_result (save_png w i) 0 ps false None) as [[[|] mt'] | e | c] eqn:Hres;
    try discriminate.
  intros _.
  destruct (saved_when_result_true (save_png w i) ps 0%nat false None mt' Hres)
    as [H | H]; [discriminate H |].
  destruct (saved_texts (save_png w i) 0 ps None); [congruence | eexists; reflexivity].
Qed.

Lemma in_calls (t : list Event) (i : nat) (req : Request) :
  In (Call i req) t -> In (i, req) (calls t).
Proof.
  intros Hin. unfold calls. apply in_flat_map.
  exists (Call i req). split; [exact Hin | left; reflexivity].
Qed.

Lemma loop_images_some (args : Args) (w : World) (d : Path.t) (res : Resolution)
    (xs : list nat) (i : nat) :
  In i xs -> saved_in w i <> [] -> loop_images args w d res xs <> [].
Proof.
  unfold loop_images. intros Hi Hsome Hnil.
  assert (Hin : forall x, In x (flat_map
            (fun i => map (image_entry args w (output_path args d i) res) (saved_in w i))
            xs) -> False) by (rewrite Hnil; intros x []).
  destruct (saved_in w i) as [| mt rest] eqn:Hsaved; [congruence |].
  apply (Hin (image_entry args w (output_path args d i) res mt)).
  apply in_flat_map. exists i. split; [exact Hi |]. rewrite Hsaved. left. reflexivity.
Qed.

Lemma loop_images_nil (args : Args) (w : World) (d : Path.t) (res : Resolution)
    (xs : list nat) :
  loop_images args w d res xs = [] <-> forall i, In i xs -> saved_in w i = [].
Proof.
  unfold loop_images. induction xs as [| x xs IH]; simpl.
  - split; [intros _ i [] | reflexivity].
  - split.
    + intros Happ. apply app_eq_nil in Happ. destruct Happ as [Hx Hrest].
      intros i [<- | Hi].
      * destruct (saved_in w x); [reflexivity | discriminate Hx].
      * apply IH; assumption.
    + intros Hall. rewrite (Hall x (or_introl eq_refl)). simpl.
      apply IH. intros i Hi. apply Hall. right. exact Hi.
Qed.

(** C1.  In single mode a generation that fails (the call raises or the
    response has no image part) makes the process exit with a non-zero status.
    In batch mode the exit status is 0 exactly when at least one image was
    generated by the end, and non-zero when none was; a run that issues a
    remote call at all issues one for every index of [range(count)] in
    order, whichever of them fail; every generated image is a saved file;
    a run that saved a file exits 0.  A batch in which some call is issued
    and succeeds exits 0 with an image recorded, whatever the other calls
    do; a batch that gets to its calls and in which every generation fails
    exits 1. *)
Theorem generation_failure_exit_status (args : Args) (w : World) :
  (count args = 1 -> generation_fails w 0 = true ->
     exit_status (outcome args w) <> 0 /\ images args w = []) /\
  (1 < count args ->
     (outcome args w = Exit 0 <-> images args w <> []) /\
     (images args w = [] -> exit_status (outcome args w) <> 0) /\
     (calls (trace args w) <> [] ->
        map fst (calls (trace args w)) = range (count args)) /\
     length (saves (trace args w)) = length (images args w) /\
     (saves (trace args w) <> [] -> outcome args w = Exit 0) /\
     (forall i req,
        In (Call i req) (trace args w) -> call_succeeds w i = true ->
        outcome args w = Exit 0 /\ images args w <> []) /\
     (calls (trace args w) <> [] ->
      (forall i, In i (range (count args)) -> generation_fails w i = true) ->
      outcome args w = Exit 1 /\ images args w = [] /\
      length (calls (trace args w)) = Z.to_nat (count args))).
Proof.
  split.
  - intros Hcount Hfails.
    destruct (single_cases args w Hcount)
      as [[Hi [_ [_ Hne]]]
         | [k [d [input [res [Hdir [Hmk [Hgiven [Hkey [Hk Hload]]]]]]]]]];
      [auto |].
    destruct (single_started args w k d input res Hcount Hdir Hmk Hgiven Hkey Hk Hload)
      as [tl [t [_ [_ Hrun]]]].
    destruct (generation_fails_spec w 0 Hfails) as [Hnot Hnone].
    unfold outcome, images. rewrite Hrun. unfold iteration_end.
    rewrite Hnot, Hcount, Hnone. simpl. split; [discriminate | reflexivity].
  - intros Hcount.
    destruct (batch_cases args w Hcount)
      as [[Hi [Hs [Hc Hne]]]
         | [k [out [input [res [Hout [Ht [Hkey [Hk [Hmk Hload]]]]]]]]]].
    + rewrite Hi, Hs, Hc.
      split; [split; [| congruence] |].
      { intros Hzero. rewrite Hzero in Hne. simpl in Hne. congruence. }
      split; [intros _; exact Hne |].
      split; [congruence |]. split; [reflexivity |]. split; [congruence |].
      split; [| congruence].
      intros i req Hin. apply in_calls in Hin. rewrite Hc in Hin. destruct Hin.
    + destruct (batch_run_eq args w k out input res Hcount Hout Ht Hkey Hk Hmk Hload)
        as [Himages [Hsaves [Hcalls Hexit]]].
      pose proof (length_loop_saves args w (timestamped_dir w out) res
                    (range (count args))) as Hlen.
      pose proof (loop_images_some args w (timestamped_dir w out) res
                    (range (count args))) as Hsome.
      pose proof (loop_images_nil args w (timestamped_dir w out) res
                    (range (count args))) as Hnil.
      assert (Hissued : forall i req, In (Call i req) (trace args w) ->
                In i (range (count args))).
      { intros i req Hin. apply in_calls in Hin. rewrite Hcalls in Hin.
        apply in_map_iff in Hin. destruct Hin as [j [Heq Hj]].
        inversion Heq; subst. exact Hj. }
      assert (Hrange : length (range (count args)) = Z.to_nat (count args))
        by (unfold range; apply length_seq).
      rewrite Hcalls, map_map, map_id, length_map, Hrange, Himages, Hsaves, Hexit, Hlen.
      destruct (loop_images args w (timestamped_dir w out) res (range (count args)))
        as [| x imgs] eqn:Himgs.
      * split; [split; [discriminate | congruence] |].
        split; [intros _; discriminate |]. split; [reflexivity |].
        split; [reflexivity |].
        split.
        { intros Hne. exfalso. apply Hne.
          destruct (loop_saves args w (timestamped_dir w out) (range (count args)));
            [reflexivity | discriminate Hlen]. }
        split; [| auto].
        intros i req Hin Hok. exfalso.
        destruct (call_succeeds_saved w i Hok) as [n Hn].
        apply (Hsome i (Hissued i req Hin)); [| reflexivity].
        intros Hnone. rewrite Hnone in Hn. discriminate Hn.
      * split; [split; [discriminate | reflexivity] |].
        split; [discriminate |]. split; [reflexivity |].
        split; [reflexivity |]. split; [reflexivity |].
        split; [intros; split; [reflexivity | discriminate] |].
        intros _ Hall. exfalso.
        assert (Hnone : forall i, In i (range (count args)) -> saved_in w i = [])
          by (intros i Hi; exact (proj2 (generation_fails_spec w i (Hall i Hi)))).
        apply (proj2 Hnil) in Hnone. discriminate Hnone.
Qed.

(** * Files written by a generation *)

Lemma nodup_repeat (p : string) (n : nat) :
  nodup string_dec (repeat p (S n)) = [p].
Proof.
  induction n as [| n IH]; [reflexivity |].
  change (repeat p (S (S n))) with (p :: repeat p (S n)).
  cbn [nodup]. destruct (in_dec string_dec p (repeat p (S n))) as [_ | Hnot].
  - exact IH.
  - exfalso. apply Hnot. left. reflexivity.
Qed.

(** C5, as the code has it.  Whatever an iteration saves, it saves at its
    own output path, once per image it records; a generation that succeeds
    leaves exactly one file; one that fails because the call raises or the
    response has no image part leaves none; and one whose first image cannot
    be saved leaves none either, and reports the exception of the save. *)
Theorem files_of_a_generation (args : Args) (w : World) (output_dir : Path.t)
    (input : option InputImage) (res : Resolution) (i : nat)
    (g : list GeneratedImage) :
  let p := Path.to_string (output_path args output_dir i) in
  let r := iteration args w output_dir input res i g in
  (forall f, In f (saves (snd r)) -> f = p) /\
  (call_succeeds w i = true ->
     nodup string_dec (saves (snd r)) = [p] /\ errors (snd r) = []) /\
  (generation_fails w i = true -> saves (snd r) = []) /\
  (save_fails w i = true ->
     saves (snd r) = [] /\ errors (snd r) <> [] /\ snd (fst r) = g /\
     fst (fst r) = if count args =? 1 then SysExit 1 else Ret tt) /\
  length (snd (fst r)) = (length g + length (saves (snd r)))%nat.
Proof.
  intros p r. subst p r.
  destruct (iteration_eq args w output_dir input res i) as [t [Hrun [Hs [_ [He _]]]]].
  rewrite Hrun. cbn [fst snd]. rewrite Hs.
  split; [| split; [| split; [| split]]].
  - intros f Hin. apply repeat_spec in Hin. exact Hin.
  - intros Hok. destruct (call_succeeds_saved w i Hok) as [n Hn].
    rewrite Hn. split; [apply nodup_repeat | apply He; exact Hok].
  - intros Hfails. destruct (generation_fails_spec w i Hfails) as [_ Hnone].
    rewrite Hnone. reflexivity.
  - intros Hfails. destruct (save_fails_spec w i Hfails) as [Hnot Hnone].
    rewrite Hnone. cbn [map length repeat]. rewrite app_nil_r.
    split; [reflexivity |]. split; [| split; [reflexivity |]].
    + intros Hnil. apply He in Hnil. congruence.
    + unfold iteration_end. rewrite Hnot. reflexivity.
  - rewrite length_app, length_map, repeat_length. reflexivity.
Qed.

(** * Batch metadata *)

Lemma length_loop_images_successes (args : Args) (w : World) (d : Path.t)
    (res : Resolution) (xs : list nat) :
  (forall i, In i xs ->
     length (saved_in w i) = if call_succeeds w i then 1%nat else 0%nat) ->
  length (loop_images args w d res xs) = length (filter (call_succeeds w) xs).
Proof.
  unfold loop_images.
  induction xs as [| i rest IH]; intros Hone; simpl; [reflexivity |].
  rewrite length_app, length_map, (Hone i (or_introl eq_refl)),
    IH by (intros j Hj; apply Hone; right; exact Hj).
  destruct (call_succeeds w i); reflexivity.
Qed.

Lemma in_loop_images (args : Args) (w : World) (d : Path.t) (res : Resolution)
    (xs : list nat) (img : GeneratedImage) :
  In img (loop_images args w d res xs) ->
  exists i mt, In i xs /\ img = image_entry args w (output_path args d i) res mt.
Proof.
  unfold loop_images. intros Hin. apply in_flat_map in Hin.
  destruct Hin as [i [Hi Himg]]. apply in_map_iff in Himg.
  destruct Himg as [mt [Heq _]]. exists i, mt. auto.
Qed.

Lemma no_write_json (t : list Event) :
  file_setup t = [] -> filter is_write_json t = [].
Proof.
  unfold file_setup. induction t as [| e t IH]; intros H; [reflexivity |].
  simpl in *. destruct e; simpl in *; try discriminate H; apply IH; exact H.
Qed.

(** C7, as the code has it.  A batch run that generated [m >= 1] images
    (one per image part saved, which is one per successful call when every
    successful response carries a single image) exits 0; its last line
    reports [m] of [count]; and [prompts.json] is written once into the
    timestamped directory, as the array of one object per generated image, in
    generation order, with the keys filename, prompt, resolution,
    aspect_ratio, model and model_text. *)
Theorem batch_metadata (args : Args) (w : World) :
  1 < count args ->
  images args w <> [] ->
  exists out res,
    out_dir args = Some out /\
    let d := timestamped_dir w out in
    let m := length (images args w) in
    outcome args w = Exit 0 /\
    last (trace args w) (Stdout "") =
      Stdout (fstr [nl; "Generated "; str_int (Z.of_nat m); "/"; str_int (count args);
                    " images in "; Path.to_string d]) /\
    filter is_write_json (trace args w) =
      [WriteJson (Path.join_str d "prompts.json")
         (JArr (map (fun img =>
                       JObj [("filename", JStr (gi_filename img));
                             ("prompt", JStr (prompt args));
                             ("resolution", JStr (resolution_str res));
                             ("aspect_ratio", JStr (aspect_ratio_str (aspect_ratio args)));
                             ("model", JStr (model args));
                             ("model_text", match gi_model_text img with
                                            | Some t => JStr t
                                            | None => JNull
                                            end)])
                    (images args w)))] /\
    images args w =
      flat_map (fun i => map (image_entry args w (output_path args d i) res) (saved_in w i))
               (range (count args)) /\
    m = length (saves (trace args w)) /\
    (one_image_per_success w (count args) ->
       m = length (filter (call_succeeds w) (range (count args)))).
Proof.
  intros Hcount Hsome.
  destruct (batch_cases args w Hcount)
    as [[Hi _] | [k [out [input [res [Hout [Ht [Hkey [Hk [Hmk Hload]]]]]]]]]];
    [congruence |].
  destruct (batch_started args w k out input res Hcount Hout Ht Hkey Hk Hmk Hload)
    as [tl [tloop [[Hs1 [Hc1 [Hf1 _]]] [[Hs2 [Hc2 [_ Hf2]]] Hrun]]]].
  pose proof (length_loop_saves args w (timestamped_dir w out) res
                (range (count args))) as Hlen.
  pose proof (in_loop_images args w (timestamped_dir w out) res
                (range (count args))) as Hin.
  pose proof (length_loop_images_successes args w (timestamped_dir w out) res
                (range (count args))) as Hsucc.
  exists out, res. split; [exact Hout |].
  unfold images, outcome, trace in *.
  remember (loop_images args w (timestamped_dir w out) res (range (count args)))
    as imgs eqn:Himgs.
  destruct imgs as [| x imgs]; rewrite Hrun in *; cbn [fst snd outcome_of] in *;
    [congruence |].
  cbv zeta. split; [reflexivity |]. split; [| split; [| split; [| split]]].
  - unfold batch_report. rewrite !app_assoc. apply last_last.
  - rewrite !filter_app, (no_write_json _ Hf1), (no_write_json _ Hf2).
    unfold batch_report.
    assert (Hmap : map prompt_entry (x :: imgs) =
                   map (fun img =>
                       JObj [("filename", JStr (gi_filename img));
                             ("prompt", JStr (prompt args));
                             ("resolution", JStr (resolution_str res));
                             ("aspect_ratio", JStr (aspect_ratio_str (aspect_ratio args)));
                             ("model", JStr (model args));
                             ("model_text", match gi_model_text img with
                                            | Some t => JStr t
                                            | None => JNull
                                            end)]) (x :: imgs)).
    { apply map_ext_in. intros img Himg.
      destruct (Hin img Himg) as [i [mt [_ ->]]]. reflexivity. }
    rewrite Hmap.
    destruct (no_gallery args); reflexivity.
  - exact Himgs.
  - rewrite !saves_app, Hs1, Hs2.
    unfold batch_report. destruct (no_gallery args); cbn [saves flat_map app];
      rewrite ?app_nil_r, Hlen; reflexivity.
  - intros Hone. apply Hsucc. exact Hone.
Qed.

(** * The text of the model *)

Lemma parts_result_text (save : nat -> option Exn) (ps : list Part) :
  forall j saved mt saved' mt',
    parts_result save j ps saved mt = Ret (saved', mt') -> mt' = last_text_from ps mt.
Proof.
  induction ps as [| part rest IH]; intros j saved mt saved' mt' Hres; simpl in *.
  - congruence.
  - destruct (text part) as [t |]; [eapply IH; exact Hres |].
    destruct (inline_data part) as [[mode | e] |];
      [| discriminate Hres | eapply IH; exact Hres].
    destruct (save j); [discriminate Hres | eapply IH; exact Hres].
Qed.

Lemma saved_texts_app (save : nat -> option Exn) (pre rest : list Part) :
  forall j saved mt,
    (forall e, parts_result save j pre saved mt <> Raise e) ->
    saved_texts save j (pre ++ rest) mt =
      saved_texts save j pre mt ++
      saved_texts save (j + length pre) rest (last_text_from pre mt).
Proof.
  induction pre as [| part pre IH]; intros j saved mt Hok; simpl in *.
  - rewrite Nat.add_0_r. reflexivity.
  - rewrite <- Nat.add_succ_comm.
    destruct (text part) as [t |]; [apply (IH (S j) saved); exact Hok |].
    destruct (inline_data part) as [[mode | e] |].
    + destruct (save j) as [e |]; [exfalso; exact (Hok e eq_refl) |].
      simpl. f_equal. apply (IH (S j) true); exact Hok.
    + exfalso. exact (Hok e eq_refl).
    + apply (IH (S j) saved); exact Hok.
Qed.

(** C8, as the code has it.  While the parts of a response are processed,
    [model_text] holds the text of the last text part seen (the last one wins),
    and that is what the loop over the parts ends with.  An image part that is
    reached and saved is recorded with the value [model_text] has when the
    part is reached: the text of the last text part before it in the
    response, or none when no text part comes before it.  An image part whose
    save raises is not recorded, and nothing after it is. *)
Theorem model_text_of_an_image (args : Args) (w : World) (output_dir : Path.t)
    (input : option InputImage) (res : Resolution) (i : nat)
    (g : list GeneratedImage) (pre post : list Part) (part : Part) (mode : ImageMode) :
  call_parts w i = Some (pre ++ part :: post) ->
  text part = None ->
  inline_data part = Some (Decodes mode) ->
  (forall e, parts_result (save_png w i) 0 pre false None <> Raise e) ->
  (forall saved mt g',
     fst (fst (process_parts args w (output_path args output_dir i) res i 0
                 (pre ++ part :: post) false None g')) = Ret (saved, mt) ->
     mt = last_text (pre ++ part :: post)) /\
  (save_png w i (length pre) = None ->
   exists before after,
     snd (fst (iteration args w output_dir input res i g)) =
       g ++ before ++
       image_entry args w (output_path args output_dir i) res (last_text pre) :: after /\
     length before = length (saved_texts (save_png w i) 0 pre None) /\
     gi_model_text
       (image_entry args w (output_path args output_dir i) res (last_text pre))
       = last_text pre) /\
  (forall e, save_png w i (length pre) = Some e ->
     snd (fst (iteration args w output_dir input res i g)) =
       g ++ map (image_entry args w (output_path args output_dir i) res)
              (saved_texts (save_png w i) 0 pre None)).
Proof.
  intros Hparts Htext Hdata Hok. split; [| split].
  - intros saved mt g' Hret.
    destruct (process_parts_eq args w res (output_path args output_dir i) i
                (pre ++ part :: post) 0 false None) as [t [Hrun _]].
    rewrite Hrun in Hret. cbn [fst] in Hret.
    exact (parts_result_text _ _ _ _ _ _ _ Hret).
  - intros Hsave.
    destruct (iteration_eq args w output_dir input res i) as [t [Hrun _]].
    rewrite Hrun. cbn [fst snd]. unfold saved_in. rewrite Hparts.
    rewrite (saved_texts_app (save_png w i) pre (part :: post) 0 false None Hok).
    cbn [saved_texts Nat.add]. rewrite Htext, Hdata, Hsave. fold (last_text pre).
    rewrite map_app. cbn [map].
    eexists. eexists. split; [reflexivity |].
    split; [apply length_map | reflexivity].
  - intros e Hsave.
    destruct (iteration_eq args w output_dir input res i) as [t [Hrun _]].
    rewrite Hrun. cbn [fst snd]. unfold saved_in. rewrite Hparts.
    rewrite (saved_texts_app (save_png w i) pre (part :: post) 0 false None Hok).
    cbn [saved_texts Nat.add]. rewrite Htext, Hdata, Hsave, app_nil_r. reflexivity.
Qed.

(** * Where the images go *)

Lemma run_prefix (args : Args) (w : World) (k : string) (d : Path.t) :
  (1 <? count args) && negb (truthy (out_dir args)) = false ->
  (count args =? 1) && negb (truthy (filename args)) && negb (truthy (out_dir args))
    = false ->
  get_api_key w (api_key args) = Some k ->
  truthy (Some k) = true ->
  (forall g, setup_output_dir args w g = (Ret d, g, [Mkdir d])) ->
  exists t, trace args w = [NewClient k; Mkdir d] ++ t.
Proof.
  intros Hv1 Hv2 Hkey Htruthy Hsetup.
  assert (Hrun : run args w =
                 let '(r, g, t) :=
                   (loaded <- load_input_image args w ;;
                    let '(input, res) := loaded in
                    for_each (range (count args)) (iteration args w d input res) ;;
                    save_batch args d) [] in
                 (r, g, [NewClient k; Mkdir d] ++ t)).
  { unfold run, main.
    rewrite Hv1, Hv2, Hkey, Htruthy. simpl negb. simpl when.
    erewrite bind_Ret by reflexivity.
    erewrite bind_Ret by reflexivity.
    erewrite bind_Ret by reflexivity.
    erewrite bind_Ret by reflexivity.
    erewrite bind_Ret by apply Hsetup.
    destruct ((loaded <- load_input_image args w ;;
               let '(input, res) := loaded in
               for_each (range (count args)) (iteration args w d input res) ;;
               save_batch args d) []) as [[r g] t].
    reflexivity. }
  unfold trace. rewrite Hrun.
  destruct ((loaded <- load_input_image args w ;;
             let '(input, res) := loaded in
             for_each (range (count args)) (iteration args w d input res) ;;
             save_batch args d) []) as [[r g] t].
  exists t. reflexivity.
Qed.

Lemma in_loop_saves (args : Args) (w : World) (d : Path.t) (xs : list nat) (f : string) :
  In f (loop_saves args w d xs) ->
  exists i, In i xs /\ f = Path.to_string (output_path args d i).
Proof.
  unfold loop_saves. intros Hin. apply in_flat_map in Hin.
  destruct Hin as [i [Hi Hf]]. apply repeat_spec in Hf. exists i. auto.
Qed.

Lemma input_opens_load (args : Args) (w : World) :
  input_opens args w -> exists input res, load_end args w = Ret (input, res).
Proof.
  unfold load_end.
  intros [Hnone | [path [size [Hpath Hopen]]]].
  - destruct (input_image args) as [path |]; [| eauto].
    rewrite Hnone. eauto.
  - rewrite Hpath. destruct (truthy (Some path)); [| eauto].
    rewrite Hopen. eauto.
Qed.

Lemma out_dir_passes (args : Args) :
  truthy (out_dir args) = true ->
  (1 <? count args) && negb (truthy (out_dir args)) = false /\
  (count args =? 1) && negb (truthy (filename args)) && negb (truthy (out_dir args))
    = false.
Proof. intros Ht. rewrite Ht. split; apply andb_false_r. Qed.

(** C6, as the code has it.  With [--out-dir] given, whatever [count] is,
    the timestamped directory [nano-banana-<timestamp>] under it is made
    exactly when the run gets past the credential check and [mkdir] does not
    raise, and it is then the output directory; without [--out-dir] the
    output directory is the parent of the file name.  In single mode the
    images of the response are saved at the file name, joined to the output
    directory when it is relative, or without a file name at [image.png] in
    the output directory; in batch mode those of call [i] at
    [image-NNN.png] in the timestamped directory. *)
Theorem output_locations (args : Args) (w : World) :
  (forall out,
     out_dir args = Some out -> truthy (out_dir args) = true ->
     (In (Mkdir (Path.join_str (Path.of_string out) (fstr ["nano-banana-"; timestamp w])))
         (trace args w)
      <-> truthy (get_api_key w (api_key args)) = true /\
          mkdir w (Path.join_str (Path.of_string out)
                     (fstr ["nano-banana-"; timestamp w])) = None)) /\
  (count args = 1 ->
   (forall f, In f (saves (trace args w)) ->
      exists d, output_dir_is args w d /\
        ((exists name,
            filename args = Some name /\ truthy (filename args) = true /\
            f = Path.to_string
                  (if Path.is_absolute (Path.of_string name) then Path.of_string name
                   else Path.join d (Path.of_string name))) \/
         (truthy (filename args) = false /\
          f = Path.to_string (Path.join_str d "image.png")))) /\
   (forall d,
      validation_passes args ->
      output_dir_is args w d -> mkdir w d = None ->
      truthy (get_api_key w (api_key args)) = true -> input_opens args w ->
      saves (trace args w) =
        repeat
          (Path.to_string
             (match filename args with
              | Some name =>
                  if truthy (filename args) then
                    if Path.is_absolute (Path.of_string name) then Path.of_string name
                    else Path.join d (Path.of_string name)
                  else Path.join_str d "image.png"
              | None => Path.join_str d "image.png"
              end))
          (length (saved_in w 0)))) /\
  (1 < count args ->
   (forall f, In f (saves (trace args w)) ->
      exists out i,
        out_dir args = Some out /\ In i (range (count args)) /\
        f = Path.to_string
              (Path.join_str (timestamped_dir w out)
                 (fstr ["image-"; pad3 (Z.of_nat i + 1); ".png"]))) /\
   (forall out,
      out_dir args = Some out -> truthy (out_dir args) = true ->
      mkdir w (timestamped_dir w out) = None ->
      truthy (get_api_key w (api_key args)) = true -> input_opens args w ->
      saves (trace args w) =
        flat_map
          (fun i =>
             repeat
               (Path.to_string
                  (Path.join_str (timestamped_dir w out)
                     (fstr ["image-"; pad3 (Z.of_nat i + 1); ".png"])))
               (length (saved_in w i)))
          (range (count args)))).
Proof.
  split; [| split].
  - intros out Hout Htruthy.
    destruct (out_dir_passes args Htruthy) as [Hv1 Hv2].
    fold (timestamped_dir w out).
    destruct (truthy (get_api_key w (api_key args))) eqn:Hkey.
    + destruct (truthy_some _ Hkey) as [k Hget]. rewrite Hget in Hkey.
      destruct (mkdir w (timestamped_dir w out)) as [e |] eqn:Hmk.
      * unfold trace.
        rewrite (stopped_at_mkdir args w k (timestamped_dir w out) e Hv1 Hv2 Hget Hkey
                   (or_introl (ex_intro _ out (conj Hout (conj Htruthy eq_refl)))) Hmk).
        cbn [snd]. split.
        -- intros [H | []]. discriminate H.
        -- intros [_ H]. discriminate H.
      * destruct (run_prefix args w k _ Hv1 Hv2 Hget Hkey
                    (setup_with_out_dir args w out Hout Htruthy Hmk)) as [t Ht].
        rewrite Ht. split; [auto |]. intros _. right. left. reflexivity.
    + unfold trace. rewrite (stopped_without_key args w Hv1 Hv2 Hkey). cbn [snd].
      split.
      * intros [H | [H | [H | [H | []]]]]; discriminate H.
      * intros [H _]. discriminate H.
  - intros Hcount. split.
    + intros f Hin.
      destruct (single_cases args w Hcount)
        as [[_ [Hs _]]
           | [k [d [input [res [Hdir [Hmk [Hgiven [Hkey [Hk Hload]]]]]]]]]].
      * rewrite Hs in Hin. destruct Hin.
      * destruct (single_started args w k d input res Hcount Hdir Hmk Hgiven Hkey Hk
                    Hload) as [tl [t [[Hs1 _] [[Hs2 _] Hrun]]]].
        unfold trace in Hin. rewrite Hrun in Hin. cbn [snd] in Hin.
        rewrite !saves_app, Hs1, Hs2 in Hin. cbn [saves flat_map app] in Hin.
        apply repeat_spec in Hin. exists d. split; [exact Hdir |].
        unfold output_path in Hin. rewrite Hcount in Hin.
        change (1 <? 1) with false in Hin. cbv iota in Hin.
        destruct (truthy (filename args)) eqn:Hfile.
        -- left. destruct (truthy_some _ Hfile) as [name Hname].
           exists name. rewrite Hname in Hin. cbv zeta in Hin. auto.
        -- right. auto.
    + intros d [_ Hsingle] Hdir Hmk Hkey Hopens.
      destruct (truthy_some _ Hkey) as [k Hget]. rewrite Hget in Hkey.
      destruct (input_opens_load args w Hopens) as [input [res Hload]].
      assert (Hgiven : truthy (filename args) || truthy (out_dir args) = true).
      { destruct (Hsingle Hcount) as [H | H]; rewrite H;
          [reflexivity | apply orb_true_r]. }
      destruct (single_started args w k d input res Hcount Hdir Hmk Hgiven Hget Hkey
                  Hload) as [tl [t [[Hs1 _] [[Hs2 _] Hrun]]]].
      unfold trace. rewrite Hrun. cbn [snd].
      rewrite !saves_app, Hs1, Hs2. cbn [saves flat_map app].
      unfold output_path. rewrite Hcount. change (1 <? 1) with false. cbv iota.
      destruct (filename args) as [name |]; [| reflexivity].
      destruct (truthy (Some name)); reflexivity.
  - intros Hcount. split.
    + intros f Hin.
      destruct (batch_cases args w Hcount)
        as [[_ [Hs _]] | [k [out [input [res [Hout [Ht [Hkey [Hk [Hmk Hload]]]]]]]]]].
      * rewrite Hs in Hin. destruct Hin.
      * destruct (batch_run_eq args w k out input res Hcount Hout Ht Hkey Hk Hmk Hload)
          as [_ [Hsaves _]].
        rewrite Hsaves in Hin.
        destruct (in_loop_saves _ _ _ _ _ Hin) as [i [Hi Hf]].
        exists out, i. split; [exact Hout |]. split; [exact Hi |].
        unfold output_path in Hf. apply Z.ltb_lt in Hcount. rewrite Hcount in Hf.
        exact Hf.
    + intros out Hout Ht Hmk Hkey Hopens.
      destruct (truthy_some _ Hkey) as [k Hget]. rewrite Hget in Hkey.
      destruct (input_opens_load args w Hopens) as [input [res Hload]].
      destruct (batch_run_eq args w k out input res Hcount Hout Ht Hget Hkey Hmk Hload)
        as [_ [Hsaves _]].
      rewrite Hsaves. unfold loop_saves, output_path.
      apply Z.ltb_lt in Hcount. rewrite Hcount. reflexivity.
Qed.

(** * A count of zero or less *)

(** The run of a command line that passes the checks, with a key and a
    directory that is made, when the input image does not open. *)
Lemma run_unreadable (args : Args) (w : World) (k path : string) (d : Path.t)
    (e : Exn) :
  (1 <? count args) && negb (truthy (out_dir args)) = false ->
  (count args =? 1) && negb (truthy (filename args)) && negb (truthy (out_dir args))
    = false ->
  get_api_key w (api_key args) = Some k -> truthy (Some k) = true ->
  output_dir_is args w d -> mkdir w d = None ->
  input_image args = Some path -> truthy (input_image args) = true ->
  open_image w path = inl e ->
  run args w =
    (SysExit 1, [],
     [NewClient k; Mkdir d; OpenImage path;
      Stderr (fstr ["Error loading input image: "; exn_str e])]).
Proof.
  intros Hv1 Hv2 Hkey Hk Hd Hmk Hin Htruthy Hopen.
  assert (Hload : forall g,
            load_input_image args w g =
              (SysExit 1, g,
               [OpenImage path;
                Stderr (fstr ["Error loading input image: "; exn_str e])])).
  { intros g. unfold load_input_image. rewrite Hin in *. rewrite Htruthy.
    unfold try_except, bind, emit, print, eprint, lift_result, raise, sys_exit.
    rewrite Hopen. reflexivity. }
  unfold run, main.
  rewrite Hv1, Hv2, Hkey, Hk. simpl negb. simpl when.
  erewrite bind_Ret by reflexivity.
  erewrite bind_Ret by reflexivity.
  erewrite bind_Ret by reflexivity.
  erewrite bind_Ret by reflexivity.
  erewrite bind_Ret by (apply (setup_output_dir_eq args w d Hd Hmk)).
  erewrite bind_SysExit by apply Hload.
  reflexivity.
Qed.

(** C10, as the code has it.  With [count <= 0] neither validation check
    applies.  Without a credential the run reports the missing key and exits
    1, and no directory is made.  With one and [--out-dir] given: when
    [mkdir] raises, the exception ends the run uncaught, the directory is not
    made and nothing else is done;
    when the directory is made and the input image, if one is named, opens,
    the run makes the timestamped directory and nothing else (no remote call,
    no image, no metadata, no error line) and exits 0; when the directory is
    made and the input image does not open, the run exits 1 after the
    directory is made.  With a credential and neither [--filename] nor
    [--out-dir], the run ends in an uncaught [TypeError] raised by
    [Path(None)], having printed no error line. *)
Theorem nothing_to_generate (args : Args) (w : World) :
  count args <= 0 ->
  validation_passes args /\
  (truthy (get_api_key w (api_key args)) = false ->
     outcome args w = Exit 1 /\ file_setup (trace args w) = [] /\
     length (errors (trace args w)) = 4%nat) /\
  (forall k,
     get_api_key w (api_key args) = Some k -> truthy (Some k) = true ->
     (forall out,
        out_dir args = Some out -> truthy (out_dir args) = true ->
        (mkdir w (timestamped_dir w out) = None -> input_opens args w ->
           outcome args w = Exit 0 /\
           images args w = [] /\
           calls (trace args w) = [] /\
           saves (trace args w) = [] /\
           errors (trace args w) = [] /\
           file_setup (trace args w) = [Mkdir (timestamped_dir w out)]) /\
        (forall e, mkdir w (timestamped_dir w out) = Some e ->
           outcome args w = Uncaught e /\ trace args w = [NewClient k]) /\
        (forall path e,
           mkdir w (timestamped_dir w out) = None ->
           input_image args = Some path -> truthy (input_image args) = true ->
           open_image w path = inl e ->
           outcome args w = Exit 1 /\
           file_setup (trace args w) = [Mkdir (timestamped_dir w out)] /\
           calls (trace args w) = [])) /\
     (filename args = None -> truthy (out_dir args) = false ->
        (exists msg, outcome args w = Uncaught (TypeError msg)) /\
        trace args w = [NewClient k])).
Proof.
  intros Hcount.
  assert (Hlt : (1 <? count args) = false) by (apply Z.ltb_ge; lia).
  assert (Hne : (count args =? 1) = false) by (apply Z.eqb_neq; lia).
  assert (Hv1 : (1 <? count args) && negb (truthy (out_dir args)) = false)
    by (rewrite Hlt; reflexivity).
  assert (Hv2 : (count args =? 1) && negb (truthy (filename args))
                && negb (truthy (out_dir args)) = false)
    by (rewrite Hne; reflexivity).
  split; [split; intros; lia |]. split.
  - intros Hkey. unfold outcome, trace.
    rewrite (stopped_without_key args w Hv1 Hv2 Hkey). repeat split.
  - intros k Hkey Hk. split.
    + intros out Hout Htruthy.
      assert (Hd : output_dir_is args w (timestamped_dir w out))
        by (left; exists out; auto).
      split; [| split].
      * intros Hmk Hopens.
        destruct (input_opens_load args w Hopens) as [input [res Hload]].
        destruct (empty_started args w k (timestamped_dir w out) input res Hcount Hkey Hk
                    (setup_with_out_dir args w out Hout Htruthy Hmk) Hload)
          as [tl [[Hs [Hc [Hf He]]] Hrun]].
        unfold outcome, images, trace. rewrite Hrun. cbn [fst snd outcome_of].
        rewrite calls_app, saves_app, errors_app, file_setup_app, Hs, Hc, Hf, He.
        repeat split.
      * intros e Hmk. unfold outcome, trace.
        rewrite (stopped_at_mkdir args w k _ e Hv1 Hv2 Hkey Hk Hd Hmk).
        split; reflexivity.
      * intros path e Hmk Hin Hit Hopen. unfold outcome, trace.
        rewrite (run_unreadable args w k path _ e Hv1 Hv2 Hkey Hk Hd Hmk Hin Hit Hopen).
        repeat split.
    + intros Hfile Hout.
      destruct (setup_with_neither args w Hout Hfile []) as [msg Hsetup].
      assert (Hrun : run args w = (Raise (TypeError msg), [], [NewClient k])).
      { unfold run, main. rewrite Hlt, Hne, Hkey, Hk. simpl negb. simpl when.
        erewrite bind_Ret by reflexivity.
        erewrite bind_Ret by reflexivity.
        erewrite bind_Ret by reflexivity.
        erewrite bind_Ret by reflexivity.
        erewrite bind_Raise by exact Hsetup.
        reflexivity. }
      unfold outcome, trace. rewrite Hrun. split; [exists msg |]; reflexivity.
Qed.

(** * The gallery page *)

Lemma string_app_assoc (a b c : string) :
  ((a ++ b) ++ c = a ++ b ++ c)%string.
Proof. induction a as [| x a IH]; simpl; [reflexivity | rewrite IH; reflexivity]. Qed.

Lemma markup_app (a b : string) : markup (a ++ b) = (markup a ++ markup b)%string.
Proof.
  induction a as [| c a IH]; simpl; [reflexivity |].
  destruct (is_markup c); simpl; rewrite IH; reflexivity.
Qed.

Lemma markup_fstr (pieces : list string) :
  markup (fstr pieces) = fstr (map markup pieces).
Proof.
  unfold fstr. induction pieces as [| p rest IH]; [reflexivity |].
  destruct rest as [| q rest']; [reflexivity |].
  change (String.concat "" (p :: q :: rest'))
    with (p ++ String.concat "" (q :: rest'))%string.
  change (String.concat "" (map markup (p :: q :: rest')))
    with (markup p ++ String.concat "" (map markup (q :: rest')))%string.
  rewrite markup_app, IH. reflexivity.
Qed.

Lemma escape_char_cases (c : ascii) :
  (escape_char c = String c "" /\ is_markup c = false /\ (c =? "&")%char = false) \/
  In (escape_char c) ["&amp;"; "&lt;"; "&gt;"; "&quot;"; "&#x27;"].
Proof.
  unfold escape_char, is_markup.
  destruct (c =? "&")%char eqn:Hamp; [right; simpl; auto |].
  destruct (c =? "<")%char eqn:Hlt; [right; simpl; auto |].
  destruct (c =? ">")%char eqn:Hgt; [right; simpl; auto |].
  destruct (c =? dq_char)%char eqn:Hdq; [right; simpl; auto |].
  destruct (c =? "'")%char eqn:Hsq; [right; simpl; auto 6 |].
  left. auto.
Qed.

Lemma markup_escape (s : string) : markup (html_escape s) = "".
Proof.
  induction s as [| c s IH]; [reflexivity |].
  simpl html_escape. rewrite markup_app, IH.
  destruct (escape_char_cases c) as [[Heq [Hm _]] | Hin].
  - rewrite Heq. simpl. rewrite Hm. reflexivity.
  - simpl in Hin.
    destruct Hin as [H | [H | [H | [H | [H | []]]]]]; rewrite <- H; reflexivity.
Qed.

Lemma prefix_empty (s : string) : prefix "" s = true.
Proof. destruct s; reflexivity. Qed.

Lemma entities_only_escape (s : string) : entities_only (html_escape s) = true.
Proof.
  induction s as [| c s IH]; [reflexivity |].
  simpl html_escape.
  destruct (escape_char_cases c) as [[Heq [_ Hamp]] | Hin].
  - rewrite Heq. simpl. rewrite Hamp, IH. reflexivity.
  - simpl in Hin.
    destruct Hin as [H | [H | [H | [H | [H | []]]]]]; rewrite <- H; simpl;
      rewrite IH, prefix_empty; reflexivity.
Qed.

Lemma markup_gallery_card (img : GeneratedImage) :
  markup (gallery_card img) = card_markup.
Proof.
  unfold gallery_card, prompt_preview. rewrite markup_fstr. cbn [map].
  rewrite markup_app, !markup_escape.
  destruct (50 <? str_len (gi_prompt img))%nat; vm_compute; reflexivity.
Qed.

Lemma string_app_nil_r (s : string) : (s ++ "")%string = s.
Proof. induction s as [| c s IH]; simpl; [reflexivity | rewrite IH; reflexivity]. Qed.

(** Decoding gives back what was escaped. *)
Lemma html_unescape_escape (a b : string) :
  html_unescape_from 0 (html_escape a ++ b) = (a ++ html_unescape_from 0 b)%string.
Proof.
  induction a as [| c a IH]; [reflexivity |].
  cbn [html_escape]. rewrite string_app_assoc. unfold escape_char.
  destruct (c =? "&")%char eqn:Hamp.
  { apply Ascii.eqb_eq in Hamp. subst c. cbn. rewrite prefix_empty, IH. reflexivity. }
  destruct (c =? "<")%char eqn:Hlt.
  { apply Ascii.eqb_eq in Hlt. subst c. cbn. rewrite prefix_empty, IH. reflexivity. }
  destruct (c =? ">")%char eqn:Hgt.
  { apply Ascii.eqb_eq in Hgt. subst c. cbn. rewrite prefix_empty, IH. reflexivity. }
  destruct (c =? dq_char)%char eqn:Hdq.
  { apply Ascii.eqb_eq in Hdq. subst c. cbn. rewrite prefix_empty, IH. reflexivity. }
  destruct (c =? "'")%char eqn:Hsq.
  { apply Ascii.eqb_eq in Hsq. subst c. cbn. rewrite prefix_empty, IH. reflexivity. }
  cbn [String.append html_unescape_from]. rewrite Hamp, IH. reflexivity.
Qed.

Lemma html_unescape_escaped (s : string) : html_unescape (html_escape s) = s.
Proof.
  unfold html_unescape.
  rewrite <- (string_app_nil_r (html_escape s)), html_unescape_escape.
  apply string_app_nil_r.
Qed.

(** A text without markup characters is one piece. *)
Lemma split_markup_plain (x rest cur : string) :
  markup x = "" ->
  split_markup (x ++ rest) cur = split_markup rest (cur ++ x).
Proof.
  revert cur. induction x as [| c x IH]; intros cur Hplain; simpl in *.
  - rewrite string_app_nil_r. reflexivity.
  - destruct (is_markup c); [discriminate Hplain |].
    rewrite (IH _ Hplain), string_app_assoc. reflexivity.
Qed.

Lemma split_card_open (rest : string) :
  split_markup (card_open ++ rest) "" =
    [line_start 8; "div class="; "card"; ""; line_start 12; "img src="]
    ++ split_markup rest "".
Proof. vm_compute. reflexivity. Qed.

Lemma split_card_alt (rest cur : string) :
  split_markup (card_alt ++ rest) cur = [cur; " alt="] ++ split_markup rest "".
Proof. reflexivity. Qed.

Lemma split_card_info (rest cur : string) :
  split_markup (card_info ++ rest) cur =
    [cur; ""; line_start 12; "div class="; "info"; "";
     line_start 16; "div class="; "prompt"; ""]
    ++ split_markup rest "".
Proof. vm_compute. reflexivity. Qed.

Lemma split_card_meta (rest cur : string) :
  split_markup (card_meta ++ rest) cur =
    [cur; "/div"; line_start 16; "div class="; "meta"; ""] ++ split_markup rest "".
Proof. vm_compute. reflexivity. Qed.

Lemma split_card_close (cur : string) :
  split_markup card_close cur =
    [cur; "/div"; line_start 12; "/div"; line_start 8; "/div"; nl].
Proof. vm_compute. reflexivity. Qed.

Lemma markup_prompt_preview (p : string) : markup (prompt_preview p) = "".
Proof.
  unfold prompt_preview. rewrite markup_app, markup_escape.
  destruct (50 <? str_len p)%nat; reflexivity.
Qed.

Lemma gallery_card_eq (img : GeneratedImage) :
  gallery_card img =
    (card_open ++ html_escape (gi_filename img) ++
     card_alt ++ prompt_preview (gi_prompt img) ++
     card_info ++ html_escape (gi_prompt img) ++
     card_meta ++ html_escape (resolution_str (gi_resolution img)) ++
     card_sep ++ html_escape (gi_model img) ++ card_close)%string.
Proof.
  unfold gallery_card, fstr. cbn [String.concat]. cbn [String.append]. reflexivity.
Qed.

Lemma segments_gallery_card (img : GeneratedImage) :
  segments (gallery_card img) =
    card_segments (html_escape (gi_filename img)) (prompt_preview (gi_prompt img))
      (html_escape (gi_prompt img))
      (html_escape (resolution_str (gi_resolution img)) ++ card_sep ++
       html_escape (gi_model img)).
Proof.
  unfold segments. rewrite gallery_card_eq.
  rewrite split_card_open.
  rewrite (split_markup_plain _ _ _ (markup_escape (gi_filename img))).
  rewrite split_card_alt.
  rewrite (split_markup_plain _ _ _ (markup_prompt_preview (gi_prompt img))).
  rewrite split_card_info.
  rewrite (split_markup_plain _ _ _ (markup_escape (gi_prompt img))).
  rewrite split_card_meta.
  rewrite (split_markup_plain _ _ _
             (markup_escape (resolution_str (gi_resolution img)))).
  rewrite (split_markup_plain card_sep _ _ eq_refl).
  rewrite (split_markup_plain _ _ _ (markup_escape (gi_model img))).
  rewrite split_card_close.
  cbn [String.append app]. rewrite string_app_assoc. reflexivity.
Qed.

Lemma read_gallery_card (img : GeneratedImage) :
  read_card (gallery_card img) =
    [gi_filename img;
     (str_take 50 (gi_prompt img) ++
      (if (50 <? str_len (gi_prompt img))%nat then "..." else ""))%string;
     gi_prompt img;
     (resolution_str (gi_resolution img) ++ card_sep ++ gi_model img)%string].
Proof.
  unfold read_card. rewrite segments_gallery_card.
  unfold card_segments. cbn [map nth].
  rewrite !html_unescape_escaped.
  unfold prompt_preview, html_unescape.
  rewrite !html_unescape_escape.
  assert (Hsep : forall b, html_unescape_from 0 (card_sep ++ b)
                           = (card_sep ++ html_unescape_from 0 b)%string)
    by (intros b; reflexivity).
  rewrite Hsep.
  rewrite <- (string_app_nil_r (html_escape (gi_model img))), html_unescape_escape.
  cbn [html_unescape_from]. rewrite string_app_nil_r.
  destruct (50 <? str_len (gi_prompt img))%nat; reflexivity.
Qed.

Lemma no_write_text (t : list Event) :
  file_setup t = [] -> filter is_write_text t = [].
Proof.
  unfold file_setup. induction t as [| e t IH]; intros H; [reflexivity |].
  simpl in *. destruct e; simpl in *; try discriminate H; apply IH; exact H.
Qed.

(** The one text file a batch run with images writes, unless [--no-gallery]
    is given, is the gallery of the images it generated. *)
Lemma batch_run_gallery (args : Args) (w : World) :
  1 < count args -> images args w <> [] -> no_gallery args = false ->
  exists out,
    out_dir args = Some out /\
    filter is_write_text (trace args w) =
      [WriteText (Path.join_str (timestamped_dir w out) "index.html")
         (gallery_html (images args w))].
Proof.
  intros Hcount Hsome Hgallery.
  destruct (batch_cases args w Hcount)
    as [[Hi _] | [k [out [input [res [Hout [Ht [Hkey [Hk [Hmk Hload]]]]]]]]]];
    [congruence |].
  destruct (batch_started args w k out input res Hcount Hout Ht Hkey Hk Hmk Hload)
    as [tl [tloop [[_ [_ [Hf1 _]]] [[_ [_ [_ Hf2]]] Hrun]]]].
  exists out. split; [exact Hout |].
  unfold images, trace in *.
  destruct (loop_images args w (timestamped_dir w out) res (range (count args)))
    as [| x imgs]; rewrite Hrun in *; cbn [fst snd] in *; [congruence |].
  rewrite !filter_app, (no_write_text _ Hf1), (no_write_text _ Hf2).
  unfold batch_report. rewrite Hgallery. reflexivity.
Qed.

Example escape_markup : html_escape "<b> & </b>" = "&lt;b&gt; &amp; &lt;/b&gt;".
Proof. reflexivity. Qed.

(** C9.  The page a batch run writes is the one [generate_gallery_html]
    builds from the images of the run.  [html.escape] replaces [&], [<],
    [>], the double quote and ['] by entities and nothing else: decoding the
    entities of an escaped text gives the text back, an escaped text contains
    none of [<], [>], the double quote and ['], and each [&] in it starts an
    entity.  Each card of the page is fixed text around five interpolated
    values, each escaped: cut at its markup characters, the card has the
    pieces of the template, with the file name as the value of [src], the
    first 50 characters of the prompt (and an ellipsis when the prompt is
    longer) as the value of [alt], the prompt as the text of the prompt block,
    and resolution and model as the caption; a reader gets exactly these
    values back.  So the markup characters of the page are those of its fixed
    text, whatever the values are. *)
Theorem gallery_text_is_escaped (args : Args) (w : World) (output_dir : Path.t)
    (imgs : list GeneratedImage) (g : list GeneratedImage) :
  (1 < count args -> images args w <> [] -> no_gallery args = false ->
   exists out,
     out_dir args = Some out /\
     filter is_write_text (trace args w) =
       [WriteText (Path.join_str (timestamped_dir w out) "index.html")
          (gallery_html (images args w))]) /\
  generate_gallery_html output_dir imgs g =
    (Ret (Path.join_str output_dir "index.html"), g,
     [WriteText (Path.join_str output_dir "index.html") (gallery_html imgs)]) /\
  (forall s,
     html_unescape (html_escape s) = s /\
     markup (html_escape s) = "" /\ entities_only (html_escape s) = true) /\
  (forall img,
     segments (gallery_card img) =
       card_segments (html_escape (gi_filename img)) (prompt_preview (gi_prompt img))
         (html_escape (gi_prompt img))
         (html_escape (resolution_str (gi_resolution img)) ++ card_sep ++
          html_escape (gi_model img)) /\
     read_card (gallery_card img) =
       [gi_filename img;
        (str_take 50 (gi_prompt img) ++
         (if (50 <? str_len (gi_prompt img))%nat then "..." else ""))%string;
        gi_prompt img;
        (resolution_str (gi_resolution img) ++ card_sep ++ gi_model img)%string]) /\
  markup (gallery_html imgs) =
    fstr (markup gallery_head :: map (fun _ => card_markup) imgs ++ [markup gallery_foot]).
Proof.
  split; [apply batch_run_gallery |].
  split; [cbv [generate_gallery_html bind emit ret app]; reflexivity |].
  split; [| split].
  - intros s. split; [apply html_unescape_escaped |].
    split; [apply markup_escape | apply entities_only_escape].
  - intros img. split; [apply segments_gallery_card | apply read_gallery_card].
  - unfold gallery_html. rewrite markup_fstr. cbn [map]. rewrite map_app, map_map.
    cbn [map].
    rewrite (map_ext (fun img => markup (gallery_card img)) (fun _ => card_markup)
               markup_gallery_card).
    reflexivity.
Qed.

(** * Concrete runs *)

Example single_run_saves :
  saves (trace single_args good_world) = ["out.png"] /\
  outcome single_args good_world = Exit 0.
Proof. split; reflexivity. Qed.

Example batch_run_names :
  saves (trace (batch_args 4) good_world) =
    ["shots/nano-banana-20250101-120000/image-001.png";
     "shots/nano-banana-20250101-120000/image-002.png";
     "shots/nano-banana-20250101-120000/image-003.png";
     "shots/nano-banana-20250101-120000/image-004.png"].
Proof. vm_compute. reflexivity. Qed.

Example edit_run_request :
  calls (trace (edit_args R1K) good_world) =
    [(0%nat,
      {| req_model := default_model;
         contents := ImageAndPrompt
                       {| source := "photo.jpg"; width := 3200; height := 1800 |}
                       "make it sunset";
         image_config := [("image_size", Size R4K)] |})].
Proof. vm_compute. reflexivity. Qed.

(** ** The theorems at concrete runs *)

Lemma generation_failure_exit_status_witness :
  (exit_status (outcome single_args failing_world) <> 0 /\
   images single_args failing_world = []) /\
  (outcome (batch_args 4) mixed_world = Exit 0 /\
   images (batch_args 4) mixed_world <> []) /\
  (outcome (batch_args 4) failing_world = Exit 1 /\
   images (batch_args 4) failing_world = [] /\
   length (calls (trace (batch_args 4) failing_world)) = Z.to_nat 4).
Proof.
  split; [| split].
  - apply (proj1 (generation_failure_exit_status single_args failing_world));
      reflexivity.
  - destruct (proj2 (generation_failure_exit_status (batch_args 4) mixed_world) eq_refl)
      as [_ [_ [_ [_ [_ [Hsuccess _]]]]]].
    apply (Hsuccess 1%nat (build_request (batch_args 4) None R1K)).
    + vm_compute. repeat (try (left; reflexivity); right).
    + reflexivity.
  - destruct (proj2 (generation_failure_exit_status (batch_args 4) failing_world)
                eq_refl) as [_ [_ [_ [_ [_ [_ Hfailure]]]]]].
    apply Hfailure.
    + vm_compute. discriminate.
    + intros i _. reflexivity.
Defined.

Lemma validation_failure_exits_first_witness :
  exists msg,
    trace no_dir_args good_world = [Stderr msg] /\ one_line msg = true /\
    outcome no_dir_args good_world = Exit 1 /\
    exit_status (outcome no_dir_args good_world) <> 0 /\
    images no_dir_args good_world = [].
Proof.
  apply (validation_failure_exits_first no_dir_args good_world).
  left. split; reflexivity.
Defined.

Lemma aspect_ratio_only_without_input_witness :
  (dict_get "aspect_ratio" [("image_size", Size R4K)] <> None <->
     truthy (input_image (edit_args R1K)) = false) /\
  (truthy (input_image (edit_args R1K)) = false ->
     dict_get "aspect_ratio" [("image_size", Size R4K)]
       = Some (Ratio (aspect_ratio (edit_args R1K)))) /\
  (exists r, dict_get "image_size" [("image_size", Size R4K)] = Some (Size r)).
Proof.
  apply (aspect_ratio_only_without_input (edit_args R1K) good_world 0
           {| req_model := default_model;
              contents := ImageAndPrompt
                            {| source := "photo.jpg"; width := 3200; height := 1800 |}
                            "make it sunset";
              image_config := [("image_size", Size R4K)] |}).
  vm_compute. do 6 right. left. reflexivity.
Defined.

Lemma resolution_from_input_image_witness :
  (resolution (edit_args R1K) = R1K ->
     (3000 <= Z.max 3200 1800 ->
        dict_get "image_size" [("image_size", Size R4K)] = Some (Size R4K)) /\
     (1500 <= Z.max 3200 1800 < 3000 ->
        dict_get "image_size" [("image_size", Size R4K)] = Some (Size R2K)) /\
     (Z.max 3200 1800 < 1500 ->
        dict_get "image_size" [("image_size", Size R4K)] = Some (Size R1K))) /\
  (resolution (edit_args R1K) <> R1K ->
     dict_get "image_size" [("image_size", Size R4K)]
       = Some (Size (resolution (edit_args R1K)))).
Proof.
  apply (resolution_from_input_image (edit_args R1K) good_world "photo.jpg" 3200 1800 0
           {| req_model := default_model;
              contents := ImageAndPrompt
                            {| source := "photo.jpg"; width := 3200; height := 1800 |}
                            "make it sunset";
              image_config := [("image_size", Size R4K)] |}).
  - reflexivity.
  - reflexivity.
  - reflexivity.
  - vm_compute. do 6 right. left. reflexivity.
Defined.

Lemma files_of_a_generation_witness :
  (nodup string_dec
     (saves (snd (iteration single_args good_world (Path.of_string ".") None R1K 0 [])))
   = ["out.png"] /\
   errors (snd (iteration single_args good_world (Path.of_string ".") None R1K 0 []))
   = []) /\
  saves (snd (iteration nested_args unsaved_world (Path.of_string "sub") None R1K 0 []))
  = [].
Proof.
  split.
  - apply (proj1 (proj2 (files_of_a_generation single_args good_world
                           (Path.of_string ".") None R1K 0 []))).
    reflexivity.
  - apply (proj1 (proj2 (proj2 (proj2 (files_of_a_generation nested_args unsaved_world
                                         (Path.of_string "sub") None R1K 0 []))))).
    reflexivity.
Defined.

Lemma batch_metadata_witness :
  outcome (batch_args 4) mixed_world = Exit 0 /\
  length (images (batch_args 4) mixed_world)
    = length (saves (trace (batch_args 4) mixed_world)).
Proof.
  destruct (batch_metadata (batch_args 4) mixed_world)
    as [out [res [_ [Hexit [_ [_ [_ [Hsaves _]]]]]]]].
  - reflexivity.
  - vm_compute. discriminate.
  - split; [exact Hexit | exact Hsaves].
Defined.

Lemma model_text_of_an_image_witness :
  exists before after,
    snd (fst (iteration single_args good_world (Path.of_string ".") None R1K 0 [])) =
      [] ++ before ++
      image_entry single_args good_world
        (output_path single_args (Path.of_string ".") 0) R1K (Some "Here you go")
      :: after.
Proof.
  destruct (model_text_of_an_image single_args good_world (Path.of_string ".") None R1K
              0 [] [text_part "Here you go"] [] (image_part RGB) RGB)
    as [_ [Hsaved _]].
  - reflexivity.
  - reflexivity.
  - reflexivity.
  - intros e. discriminate.
  - destruct (Hsaved eq_refl) as [before [after [Himages _]]].
    exists before, after. exact Himages.
Defined.

Lemma output_locations_witness :
  In (Mkdir (Path.join_str (Path.of_string "shots")
               (fstr ["nano-banana-"; timestamp good_world])))
     (trace (batch_args 1) good_world) /\
  saves (trace (batch_args 4) mixed_world) =
    flat_map
      (fun i =>
         repeat
           (Path.to_string
              (Path.join_str (timestamped_dir mixed_world "shots")
                 (fstr ["image-"; pad3 (Z.of_nat i + 1); ".png"])))
           (length (saved_in mixed_world i)))
      (range (count (batch_args 4))).
Proof.
  split.
  - apply (proj2 (proj1 (output_locations (batch_args 1) good_world)
                    "shots" eq_refl eq_refl)).
    split; reflexivity.
  - apply (proj2 (proj2 (proj2 (output_locations (batch_args 4) mixed_world)) eq_refl)
             "shots"); try reflexivity.
    left. reflexivity.
Defined.

Lemma nothing_to_generate_witness :
  (outcome (batch_args 0) good_world = Exit 0 /\
   images (batch_args 0) good_world = [] /\
   calls (trace (batch_args 0) good_world) = [] /\
   saves (trace (batch_args 0) good_world) = [] /\
   errors (trace (batch_args 0) good_world) = [] /\
   file_setup (trace (batch_args 0) good_world)
     = [Mkdir (timestamped_dir good_world "shots")]) /\
  (outcome (batch_args 0) blocked_world = Uncaught not_a_directory /\
   trace (batch_args 0) blocked_world = [NewClient "env-key"]).
Proof.
  split.
  - destruct (nothing_to_generate (batch_args 0) good_world (Z.le_refl 0))
      as [_ [_ Hkey]].
    destruct (Hkey "env-key" eq_refl eq_refl) as [Hout _].
    destruct (Hout "shots" eq_refl eq_refl) as [Hmade _].
    apply Hmade; [reflexivity | left; reflexivity].
  - destruct (nothing_to_generate (batch_args 0) blocked_world (Z.le_refl 0))
      as [_ [_ Hkey]].
    destruct (Hkey "env-key" eq_refl eq_refl) as [Hout _].
    destruct (Hout "shots" eq_refl eq_refl) as [_ [Hblocked _]].
    apply Hblocked. reflexivity.
Defined.

Lemma gallery_text_is_escaped_witness :
  (exists out,
     out_dir (batch_args 4) = Some out /\
     filter is_write_text (trace (batch_args 4) mixed_world) =
       [WriteText (Path.join_str (timestamped_dir mixed_world out) "index.html")
          (gallery_html (images (batch_args 4) mixed_world))]) /\
  read_card (gallery_card hostile_image) =
    ["image-001.png";
     "</div><script>alert('x')</script> & more";
     "</div><script>alert('x')</script> & more";
     fstr ["1K"; card_sep; dq; "><b>"]] /\
  length (segments (gallery_card hostile_image)) = 31%nat.
Proof.
  split; [| split].
  - apply (proj1 (gallery_text_is_escaped (batch_args 4) mixed_world
                    (Path.of_string ".") [] [])).
    + reflexivity.
    + vm_compute. discriminate.
    + reflexivity.
  - destruct (gallery_text_is_escaped (batch_args 4) mixed_world
                (Path.of_string ".") [] []) as [_ [_ [_ [Hcard _]]]].
    rewrite (proj2 (Hcard hostile_image)). vm_compute. reflexivity.
  - destruct (gallery_text_is_escaped (batch_args 4) mixed_world
                (Path.of_string ".") [] []) as [_ [_ [_ [Hcard _]]]].
    rewrite (proj1 (Hcard hostile_image)). reflexivity.
Defined.

(** ** Where the code departs from the claims as they are written *)

(** C5.  A generation that fails after an image part was saved leaves the
    file: the answer holds an image and then a payload that does not decode;
    the image is saved at [out.png], then the exception is reported and the
    process exits with status 1. *)
Lemma failed_generation_leaves_a_file :
  call_succeeds partial_world 0 = false /\
  errors (trace single_args partial_world)
    = ["Error generating image: cannot identify image file"] /\
  outcome single_args partial_world = Exit 1 /\
  saves (trace single_args partial_world) = ["out.png"].
Proof. repeat split; reflexivity. Qed.

(** C6.  The timestamped directory is made and used in single mode too:
    with [--count 1 --out-dir shots] and no file name, the image is saved in
    it as [image.png]. *)
Lemma timestamped_dir_in_single_mode :
  count (batch_args 1) = 1 /\
  In (Mkdir (timestamped_dir good_world "shots")) (trace (batch_args 1) good_world) /\
  saves (trace (batch_args 1) good_world)
    = ["shots/nano-banana-20250101-120000/image.png"].
Proof.
  split; [reflexivity |]. split; [| reflexivity].
  vm_compute. right. left. reflexivity.
Qed.

(** C7.  Both of two calls succeed, the first with two image parts: the run
    records and reports three images of two. *)
Lemma more_images_than_calls :
  count (batch_args 2) = 2 /\
  length (filter (call_succeeds double_world) (range (count (batch_args 2)))) = 2%nat /\
  outcome (batch_args 2) double_world = Exit 0 /\
  last (trace (batch_args 2) double_world) (Stdout "")
    = Stdout (fstr [nl; "Generated 3/2 images in shots/nano-banana-20250101-120000"]) /\
  length (images (batch_args 2) double_world) = 3%nat.
Proof. repeat split; vm_compute; reflexivity. Qed.

(** C8.  The text that comes after the image in the response is the last
    text of the response, and it is not stored with the image. *)
Lemma later_text_is_not_stored :
  call_parts text_last_world 0
    = Some [image_part RGB; text_part "Here is your image"] /\
  last_text [image_part RGB; text_part "Here is your image"]
    = Some "Here is your image" /\
  map gi_model_text (images single_args text_last_world) = [None].
Proof. repeat split; reflexivity. Qed.

(** C10.  Three runs with [--count 0 --out-dir shots] that do not end with
    status 0 and an empty directory.  Without a credential the run stops at
    the credential check: status 1, and no directory made.  When [--out-dir]
    names a regular file, [mkdir] raises and nothing catches the exception.
    When the input image does not open, the directory is made and the run
    exits with status 1. *)
Lemma zero_count_needs_a_key :
  (count (batch_args 0) <= 0 /\
   out_dir (batch_args 0) = Some "shots" /\
   outcome (batch_args 0) keyless_world = Exit 1 /\
   file_setup (trace (batch_args 0) keyless_world) = []) /\
  (outcome (batch_args 0) blocked_world = Uncaught not_a_directory /\
   file_setup (trace (batch_args 0) blocked_world) = []) /\
  (count (batch_edit_args 0) <= 0 /\
   out_dir (batch_edit_args 0) = Some "shots" /\
   outcome (batch_edit_args 0) unreadable_world = Exit 1 /\
   file_setup (trace (batch_edit_args 0) unreadable_world)
     = [Mkdir (timestamped_dir unreadable_world "shots")]).
Proof.
  split; [| split].
  - split; [apply Z.le_refl |]. repeat split; reflexivity.
  - split; reflexivity.
  - split; [apply Z.le_refl |]. repeat split; reflexivity.
Qed.

(** * The shape of every event of a run *)

Section Shape.
Context (args : Args) (w : World) (E : Event -> Prop).

Hypothesis E_stdout : forall s, E (Stdout s).
Hypothesis E_stderr : forall s, E (Stderr s).
Hypothesis E_client : forall k,
  get_api_key w (api_key args) = Some k -> truthy (Some k) = true -> E (NewClient k).
Hypothesis E_mkdir : forall d,
  output_dir_is args w d -> mkdir w d = None -> E (Mkdir d).
Hypothesis E_open : forall p,
  input_image args = Some p -> truthy (input_image args) = true -> E (OpenImage p).
Hypothesis E_call : forall i input res,
  In i (range (count args)) -> loaded args w input res ->
  E (Call i (build_request args input res)).
Hypothesis E_save : forall d i j how,
  output_dir_is args w d -> In i (range (count args)) -> save_png w i j = None ->
  E (SavePng (Path.to_string (output_path args d i)) how).
Hypothesis E_json : forall d g,
  1 < count args -> output_dir_is args w d -> g <> [] ->
  E (WriteJson (Path.join_str d "prompts.json") (JArr (map prompt_entry g))).
Hypothesis E_text : forall d g,
  1 < count args -> no_gallery args = false -> output_dir_is args w d -> g <> [] ->
  E (WriteText (Path.join_str d "index.html") (gallery_html g)).

Ltac shape_lines :=
  repeat
    lazymatch goal with
    | |- sat _ _ (ret _) => apply sat_ret; exact I
    | |- sat _ _ (sys_exit _) => apply sat_sys_exit
    | |- sat _ _ (raise _) => apply sat_raise
    | |- sat _ _ (print _) => apply sat_emit; [apply E_stdout | exact I]
    | |- sat _ _ (eprint _) => apply sat_emit; [apply E_stderr | exact I]
    | |- sat _ _ (when _ _) => apply sat_when; intros _
    | |- sat _ _ (bind _ _) => eapply sat_bind with (Q := fun _ => True); [| intros ? _]
    end.

Lemma shape_make_dir (d : Path.t) :
  output_dir_is args w d -> sat E (fun _ => True) (make_dir w d).
Proof.
  intros Hd. unfold make_dir. destruct (mkdir w d) eqn:Hmk.
  - apply sat_raise.
  - apply sat_emit; [apply E_mkdir; assumption | exact I].
Qed.

Lemma shape_setup_output_dir :
  sat E (output_dir_is args w) (setup_output_dir args w).
Proof.
  unfold setup_output_dir.
  destruct (truthy (out_dir args)) eqn:Hout.
  - destruct (out_dir args) as [out |] eqn:Hdir; [| discriminate Hout].
    assert (Hd : output_dir_is args w (timestamped_dir w out)).
    { left. exists out. rewrite Hdir. auto. }
    simpl path_of.
    eapply sat_bind with (Q := fun p => p = Path.of_string out);
      [apply sat_ret; reflexivity | intros p ->].
    eapply sat_bind with (Q := fun _ => True);
      [apply shape_make_dir; exact Hd | intros _ _].
    apply sat_ret. exact Hd.
  - destruct (filename args) as [f |] eqn:Hfile; simpl path_of.
    + assert (Hd : output_dir_is args w (Path.parent (Path.of_string f))).
      { right. exists f. auto. }
      eapply sat_bind with (Q := fun p => p = Path.of_string f);
        [apply sat_ret; reflexivity | intros p ->].
      eapply sat_bind with (Q := fun _ => True);
        [apply shape_make_dir; exact Hd | intros _ _].
      apply sat_ret. exact Hd.
    + eapply sat_bind with (Q := fun _ => False); [apply sat_raise | intros p []].
Qed.

Lemma shape_load_input_image :
  sat E (fun r => loaded args w (fst r) (snd r)) (load_input_image args w).
Proof.
  unfold load_input_image.
  destruct (input_image args) as [path |] eqn:Hin.
  - destruct (truthy (Some path)) eqn:Htruthy.
    + apply sat_try_except.
      * eapply sat_bind with (Q := fun _ => True);
          [apply sat_emit; [apply E_open; first [reflexivity | assumption] | exact I]
          | intros _ _].
        eapply sat_bind with (Q := fun size => open_image w path = inr size);
          [apply sat_lift_result; auto | intros [wd ht] Hopen].
        eapply sat_bind with (Q := fun _ => True);
          [apply sat_emit; [apply E_stdout | exact I] | intros _ _].
        simpl fst; simpl snd.
        destruct (resolution_eqb (resolution args) R1K) eqn:Hres.
        -- eapply sat_bind with (Q := fun _ => True);
             [apply sat_emit; [apply E_stdout | exact I] | intros _ _].
           apply sat_ret. unfold loaded; simpl.
           rewrite Hin, Htruthy, Hres. auto.
        -- apply sat_ret. unfold loaded; simpl.
           rewrite Hin, Htruthy, Hres. auto.
      * intros e. shape_lines.
    + apply sat_ret. unfold loaded; simpl. rewrite Hin. auto.
  - apply sat_ret. unfold loaded; simpl. rewrite Hin. auto.
Qed.

Lemma shape_output_path_for (d : Path.t) (i : nat) :
  sat E (fun p => p = output_path args d i) (output_path_for args d i).
Proof.
  unfold output_path_for, output_path.
  destruct (1 <? count args).
  - eapply sat_bind with (Q := fun _ => True);
      [apply sat_emit; [apply E_stdout | exact I] | intros _ _].
    apply sat_ret. reflexivity.
  - destruct (filename args) as [f |]; simpl.
    + destruct (negb (f =? "")%string).
      * destruct (Path.is_absolute (Path.of_string f)); simpl;
          apply sat_ret; reflexivity.
      * apply sat_ret; reflexivity.
    + apply sat_ret; reflexivity.
Qed.

Lemma shape_save_image (d : Path.t) (i j : nat) (how : Conversion) :
  output_dir_is args w d -> In i (range (count args)) ->
  sat E (fun _ => True) (save_image w i j (output_path args d i) how).
Proof.
  intros Hd Hi. unfold save_image. destruct (save_png w i j) eqn:Hsave.
  - apply sat_raise.
  - apply sat_emit; [apply (E_save d i j); assumption | exact I].
Qed.

Lemma shape_process_parts (d : Path.t) (i : nat) (res : Resolution) (ps : list Part) :
  output_dir_is args w d -> In i (range (count args)) ->
  forall j saved mt,
    sat E (fun _ => True)
      (process_parts args w (output_path args d i) res i j ps saved mt).
Proof.
  intros Hd Hi.
  induction ps as [| part rest IH]; intros j saved mt; simpl.
  - apply sat_ret; exact I.
  - destruct (text part) as [t |].
    + eapply sat_bind with (Q := fun _ => True);
        [apply sat_emit; [apply E_stdout | exact I] | intros _ _]. apply IH.
    + destruct (inline_data part) as [data |]; [| apply IH].
      eapply sat_bind with (Q := fun _ => True);
        [apply sat_lift_result; trivial | intros mode _].
      eapply sat_bind with (Q := fun _ => True);
        [apply shape_save_image; assumption | intros _ _].
      eapply sat_bind with (Q := fun _ => True);
        [apply sat_append_image; exact I | intros _ _]. apply IH.
Qed.

Lemma shape_iteration (d : Path.t) (input : option InputImage) (res : Resolution)
    (i : nat) :
  output_dir_is args w d -> In i (range (count args)) -> loaded args w input res ->
  sat E (fun _ => True) (iteration args w d input res i).
Proof.
  intros Hd Hi Hloaded. unfold iteration.
  eapply sat_bind; [apply shape_output_path_for | intros output_path ->].
  eapply sat_bind with (Q := fun _ => True); [destruct input; shape_lines | intros _ _].
  apply sat_try_except.
  - eapply sat_bind with (Q := fun _ => True);
      [apply sat_emit; [apply E_call; assumption | exact I] | intros _ _].
    eapply sat_bind with (Q := fun _ => True);
      [apply sat_lift_result; trivial | intros response _].
    eapply sat_bind with (Q := fun _ => True);
      [unfold parts_iter; destruct (parts response); shape_lines | intros ps _].
    eapply sat_bind with (Q := fun _ => True);
      [apply shape_process_parts; assumption | intros r _].
    destruct (fst r); shape_lines.
  - intros e. shape_lines.
Qed.

Lemma shape_save_batch (d : Path.t) :
  output_dir_is args w d -> sat E (fun _ => True) (save_batch args d).
Proof.
  intros Hd g. rewrite save_batch_eq. split; [| trivial].
  destruct (1 <? count args) eqn:Hcount; [| constructor].
  apply Z.ltb_lt in Hcount.
  destruct g as [| x g']; cbn [snd].
  - constructor; [apply E_stderr | constructor].
  - unfold batch_report.
    assert (Hne : x :: g' <> []) by discriminate.
    apply Forall_app. split.
    + constructor; [apply E_json; assumption |].
      constructor; [apply E_stdout | constructor].
    + apply Forall_app. split.
      * destruct (no_gallery args) eqn:Hgallery; [constructor |].
        constructor; [apply E_text; first [assumption | reflexivity] |].
        constructor; [apply E_stdout | constructor].
      * constructor; [apply E_stdout | constructor].
Qed.

(** Every event of a run has one of the shapes that [E] allows. *)
Lemma run_shape : Forall E (trace args w).
Proof.
  assert (Hmain : sat E (fun _ => True) (main args w)).
  { unfold main.
    eapply sat_bind with (Q := fun _ => True); [shape_lines | intros _ _].
    eapply sat_bind with (Q := fun _ => True); [shape_lines | intros _ _].
    destruct (truthy (get_api_key w (api_key args))) eqn:Hkey.
    - destruct (get_api_key w (api_key args)) as [k |] eqn:Hget; [| discriminate Hkey].
      eapply sat_bind with (Q := fun _ => True); [shape_lines | intros _ _].
      eapply sat_bind with (Q := fun _ => True);
        [apply sat_emit; [apply E_client; [reflexivity | exact Hkey] | exact I]
        | intros _ _].
      eapply sat_bind; [apply shape_setup_output_dir | intros d Hd].
      eapply sat_bind; [apply shape_load_input_image | intros [input res] Hloaded].
      simpl in Hloaded.
      eapply sat_bind with (Q := fun _ => True).
      + apply sat_for_each. intros i Hi. apply shape_iteration; assumption.
      + intros _ _. apply shape_save_batch. exact Hd.
    - eapply sat_bind with (Q := fun _ => False); [| intros _ []].
      simpl when. shape_lines. }
  exact (proj1 (Hmain [])).
Qed.

End Shape.

(** * The credential *)

Lemma validation_passes_checks (args : Args) :
  validation_passes args ->
  (1 <? count args) && negb (truthy (out_dir args)) = false /\
  (count args =? 1) && negb (truthy (filename args)) && negb (truthy (out_dir args))
    = false.
Proof.
  intros [Hbatch Hsingle]. split.
  - destruct (Z.ltb_spec 1 (count args)) as [Hlt | Hge]; [| reflexivity].
    rewrite (Hbatch Hlt). reflexivity.
  - destruct (Z.eqb_spec (count args) 1) as [Heq | Hne]; [| reflexivity].
    destruct (Hsingle Heq) as [H | H]; rewrite H; simpl;
      [reflexivity | apply andb_false_r].
Qed.

(** X1.  Without a key -- [--api-key] absent or empty and
    [GEMINI_API_KEY] unset or empty -- a command line that passes the
    argument checks gets the four lines of the missing-key message on
    standard error and exit status 1; no client is created, no directory is
    made, no file is opened and no remote call is issued. *)
Theorem missing_key_stops_the_run (args : Args) (w : World) :
  validation_passes args ->
  truthy (api_key args) = false ->
  truthy (env_api_key w) = false ->
  trace args w =
    [Stderr "Error: No API key provided."; Stderr "Please either:";
     Stderr "  1. Provide --api-key argument";
     Stderr "  2. Set GEMINI_API_KEY environment variable"] /\
  outcome args w = Exit 1 /\
  images args w = [].
Proof.
  intros Hvalid Harg Henv.
  destruct (validation_passes_checks args Hvalid) as [Hv1 Hv2].
  assert (Hkey : truthy (get_api_key w (api_key args)) = false)
    by (unfold get_api_key; rewrite Harg; exact Henv).
  unfold trace, outcome, images.
  rewrite (stopped_without_key args w Hv1 Hv2 Hkey). repeat split.
Qed.

(** X2.  The client of a run is created with the key of the command line
    when it is not empty, and with the one of the environment otherwise (an
    empty [--api-key] counts as none); never with an empty key. *)
Theorem client_key_precedence (args : Args) (w : World) (k : string) :
  In (NewClient k) (trace args w) ->
  k <> "" /\
  ((truthy (api_key args) = true /\ api_key args = Some k) \/
   (truthy (api_key args) = false /\ env_api_key w = Some k)).
Proof.
  intros Hin.
  pose proof (run_shape args w
    (fun e => match e with
              | NewClient k' =>
                  get_api_key w (api_key args) = Some k' /\ truthy (Some k') = true
              | _ => True
              end)) as Hshape.
  rewrite Forall_forall in Hshape.
  destruct (Hshape (fun _ => I) (fun _ => I) (fun k' H1 H2 => conj H1 H2)
              (fun _ _ _ => I) (fun _ _ _ => I) (fun _ _ _ _ _ => I)
              (fun _ _ _ _ _ _ _ => I) (fun _ _ _ _ _ => I) (fun _ _ _ _ _ _ => I)
              _ Hin) as [Hget Htruthy].
  split.
  - intros ->. discriminate Htruthy.
  - unfold get_api_key in Hget. destruct (truthy (api_key args)); auto.
Qed.

(** * The input image *)

(** X3.  When the input image does not open, the run has already created
    the client and made the output directory; it then reports the exception
    on one line of standard error and exits with status 1, without a remote
    call and without an image.  (When [mkdir] raises, the run does not get to
    the image: it ends there, with that exception.) *)
Theorem unreadable_input_image (args : Args) (w : World) (k path : string)
    (d : Path.t) (e : Exn) :
  validation_passes args ->
  get_api_key w (api_key args) = Some k -> truthy (Some k) = true ->
  output_dir_is args w d ->
  input_image args = Some path -> truthy (input_image args) = true ->
  open_image w path = inl e ->
  (mkdir w d = None ->
     trace args w =
       [NewClient k; Mkdir d; OpenImage path;
        Stderr (fstr ["Error loading input image: "; exn_str e])] /\
     outcome args w = Exit 1 /\
     images args w = []) /\
  (forall e', mkdir w d = Some e' ->
     trace args w = [NewClient k] /\
     outcome args w = Uncaught e' /\
     images args w = []).
Proof.
  intros Hvalid Hkey Hk Hd Hin Htruthy Hopen.
  destruct (validation_passes_checks args Hvalid) as [Hv1 Hv2].
  unfold trace, outcome, images. split.
  - intros Hmk.
    rewrite (run_unreadable args w k path d e Hv1 Hv2 Hkey Hk Hd Hmk Hin Htruthy Hopen).
    repeat split.
  - intros e' Hmk.
    rewrite (stopped_at_mkdir args w k d e' Hv1 Hv2 Hkey Hk Hd Hmk).
    repeat split.
Qed.

(** * The request *)

(** X4.  Every remote call of a run names the model of the command line
    and has an index below [count].  Without an input image its contents are
    the prompt alone; with one, they are the opened image followed by the
    prompt. *)
Theorem request_contents (args : Args) (w : World) (i : nat) (req : Request) :
  In (Call i req) (trace args w) ->
  req_model req = model args /\
  (Z.of_nat i < count args) /\
  (truthy (input_image args) = false -> contents req = PromptOnly (prompt args)) /\
  (forall path, input_image args = Some path -> truthy (input_image args) = true ->
     exists wd ht,
       open_image w path = inr (wd, ht) /\
       contents req =
         ImageAndPrompt {| source := path; width := wd; height := ht |} (prompt args)).
Proof.
  intros Hin.
  pose proof (run_shape args w
    (fun e => match e with
              | Call j r =>
                  In j (range (count args)) /\
                  exists input res,
                    loaded args w input res /\ r = build_request args input res
              | _ => True
              end)) as Hshape.
  rewrite Forall_forall in Hshape.
  destruct (Hshape (fun _ => I) (fun _ => I) (fun _ _ _ => I)
              (fun _ _ _ => I) (fun _ _ _ => I)
              (fun j input res H1 H2 =>
                 conj H1 (ex_intro _ input (ex_intro _ res (conj H2 eq_refl))))
              (fun _ _ _ _ _ _ _ => I) (fun _ _ _ _ _ => I) (fun _ _ _ _ _ _ => I)
              _ Hin) as [Hi [input [res [Hloaded ->]]]].
  split; [reflexivity |]. split.
  - unfold range in Hi. apply in_seq in Hi. lia.
  - destruct input as [img |]; simpl in Hloaded; simpl.
    + destruct Hloaded as [Htruthy [Hsrc [Hopen _]]]. split; [congruence |].
      intros path Hpath _. exists (width img), (height img).
      assert (Hsame : source img = path) by congruence.
      rewrite <- Hsame. split; [exact Hopen |]. destruct img; reflexivity.
    + destruct Hloaded as [Hfalse _]. split; [reflexivity |].
      intros path _ Htrue. congruence.
Qed.

(** * What a run touches *)

Lemma checks_validation_passes (args : Args) :
  (1 <? count args) && negb (truthy (out_dir args)) = false ->
  (count args =? 1) && negb (truthy (filename args)) && negb (truthy (out_dir args))
    = false ->
  validation_passes args.
Proof.
  intros Hv1 Hv2. split.
  - intros Hlt. apply Z.ltb_lt in Hlt. rewrite Hlt in Hv1.
    destruct (truthy (out_dir args)); [reflexivity | discriminate Hv1].
  - intros Heq. rewrite Heq in Hv2.
    destruct (truthy (filename args)); [left; reflexivity |].
    destruct (truthy (out_dir args)); [right; reflexivity | discriminate Hv2].
Qed.

(** Past the argument checks, every event of a run has one of the shapes
    that [E] allows; before them, a run only writes to standard error. *)
Lemma run_shape_checked (args : Args) (w : World) (E : Event -> Prop) :
  (forall s, E (Stdout s)) ->
  (forall s, E (Stderr s)) ->
  (validation_passes args ->
   (forall k, get_api_key w (api_key args) = Some k -> truthy (Some k) = true ->
              E (NewClient k)) /\
   (forall d, output_dir_is args w d -> mkdir w d = None -> E (Mkdir d)) /\
   (forall p, input_image args = Some p -> truthy (input_image args) = true ->
              E (OpenImage p)) /\
   (forall i input res, In i (range (count args)) -> loaded args w input res ->
              E (Call i (build_request args input res))) /\
   (forall d i j how, output_dir_is args w d -> In i (range (count args)) ->
              save_png w i j = None ->
              E (SavePng (Path.to_string (output_path args d i)) how)) /\
   (forall d g, 1 < count args -> output_dir_is args w d -> g <> [] ->
              E (WriteJson (Path.join_str d "prompts.json")
                   (JArr (map prompt_entry g)))) /\
   (forall d g, 1 < count args -> no_gallery args = false ->
              output_dir_is args w d -> g <> [] ->
              E (WriteText (Path.join_str d "index.html") (gallery_html g)))) ->
  Forall E (trace args w).
Proof.
  intros Hout Herr Hrest.
  destruct ((1 <? count args) && negb (truthy (out_dir args))) eqn:Hv1.
  - unfold trace, run, main. unfold bind at 1. rewrite Hv1. simpl.
    constructor; [apply Herr | constructor].
  - destruct ((count args =? 1) && negb (truthy (filename args))
              && negb (truthy (out_dir args))) eqn:Hv2.
    + unfold trace, run, main. unfold bind at 1. rewrite Hv1. simpl.
      unfold bind at 1. rewrite Hv2. simpl.
      constructor; [apply Herr | constructor].
    + destruct (Hrest (checks_validation_passes args Hv1 Hv2))
        as [H1 [H2 [H3 [H4 [H5 [H6 H7]]]]]].
      apply run_shape; assumption.
Qed.

(** X5.  The footprint of a run on the file system.  The only file it
    opens is the one named by [--input-image]; the only [mkdir] call that
    returns is the one on its output directory (called with [parents=True], so
    it makes the missing ancestors of that directory with it); PNG files are
    saved only at the output path of an iteration, by a save that returned;
    [prompts.json] and [index.html] are written only in batch mode, into the
    timestamped directory, and [index.html] only without [--no-gallery]. *)
Theorem file_system_footprint (args : Args) (w : World) (e : Event) :
  In e (trace args w) ->
  match e with
  | OpenImage p => input_image args = Some p /\ truthy (input_image args) = true
  | Mkdir d => output_dir_is args w d /\ mkdir w d = None
  | SavePng f _ =>
      exists d i j,
        output_dir_is args w d /\ Z.of_nat i < count args /\
        save_png w i j = None /\
        f = Path.to_string (output_path args d i)
  | WriteJson f _ =>
      1 < count args /\
      exists out, out_dir args = Some out /\
                  f = Path.join_str (timestamped_dir w out) "prompts.json"
  | WriteText f _ =>
      1 < count args /\ no_gallery args = false /\
      exists out, out_dir args = Some out /\
                  f = Path.join_str (timestamped_dir w out) "index.html"
  | _ => True
  end.
Proof.
  intros Hin.
  assert (Hbatch_dir : validation_passes args -> 1 < count args ->
            forall d, output_dir_is args w d ->
            exists out, out_dir args = Some out /\ d = timestamped_dir w out).
  { intros [Hbatch _] Hlt d [[out [Hout [_ ->]]] | [f [Hfalse _]]].
    - exists out. auto.
    - rewrite (Hbatch Hlt) in Hfalse. discriminate Hfalse. }
  pose proof (run_shape_checked args w
    (fun e => match e with
              | OpenImage p =>
                  input_image args = Some p /\ truthy (input_image args) = true
              | Mkdir d => output_dir_is args w d /\ mkdir w d = None
              | SavePng f _ =>
                  exists d i j,
                    output_dir_is args w d /\ Z.of_nat i < count args /\
                    save_png w i j = None /\
                    f = Path.to_string (output_path args d i)
              | WriteJson f _ =>
                  1 < count args /\
                  exists out, out_dir args = Some out /\
                              f = Path.join_str (timestamped_dir w out) "prompts.json"
              | WriteText f _ =>
                  1 < count args /\ no_gallery args = false /\
                  exists out, out_dir args = Some out /\
                              f = Path.join_str (timestamped_dir w out) "index.html"
              | _ => True
              end)) as Hshape.
  rewrite Forall_forall in Hshape. apply Hshape; try exact Hin; try (intros; exact I).
  intros Hvalid.
  split; [intros; exact I |].
  split; [intros d Hd Hmk; split; assumption |].
  split; [intros q H1 H2; split; assumption |].
  split; [intros; exact I |].
  split; [| split].
  - intros d i j how Hd Hi Hsave. exists d, i, j. split; [exact Hd |].
    split; [| split; [exact Hsave | reflexivity]].
    unfold range in Hi. apply in_seq in Hi. lia.
  - intros d g Hlt Hd _. split; [exact Hlt |].
    destruct (Hbatch_dir Hvalid Hlt d Hd) as [out [Hout ->]]. exists out. auto.
  - intros d g Hlt Hgallery Hd _. split; [exact Hlt |]. split; [exact Hgallery |].
    destruct (Hbatch_dir Hvalid Hlt d Hd) as [out [Hout ->]]. exists out. auto.
Qed.

(** X6.  What a batch run with a key leaves in its directory besides the
    images.  When [mkdir] raises, the directory is not made, nothing is
    written and the exception ends the run.  When the directory is made and
    the input image (if one is named) opens: with no image generated the run
    writes nothing into the directory and exits 1; otherwise it writes
    [prompts.json] and then, unless [--no-gallery] is given, [index.html],
    both from the images of the run, and exits 0. *)
Theorem batch_directory_contents (args : Args) (w : World) (k out : string) :
  1 < count args ->
  out_dir args = Some out -> truthy (out_dir args) = true ->
  get_api_key w (api_key args) = Some k -> truthy (Some k) = true ->
  let d := timestamped_dir w out in
  (forall e, mkdir w d = Some e ->
     file_setup (trace args w) = [] /\ outcome args w = Uncaught e) /\
  (mkdir w d = None -> input_opens args w ->
   match images args w with
   | [] => file_setup (trace args w) = [Mkdir d] /\ outcome args w = Exit 1
   | imgs =>
       file_setup (trace args w) =
         Mkdir d ::
         WriteJson (Path.join_str d "prompts.json") (JArr (map prompt_entry imgs)) ::
         (if no_gallery args then []
          else [WriteText (Path.join_str d "index.html") (gallery_html imgs)]) /\
       outcome args w = Exit 0
   end).
Proof.
  intros Hcount Hout Ht Hkey Hk d. split.
  - intros e Hmk.
    destruct (out_dir_passes args Ht) as [Hv1 Hv2].
    unfold trace, outcome.
    rewrite (stopped_at_mkdir args w k d e Hv1 Hv2 Hkey Hk
               (or_introl (ex_intro _ out (conj Hout (conj Ht eq_refl)))) Hmk).
    split; reflexivity.
  - intros Hmk Hopens.
    destruct (input_opens_load args w Hopens) as [input [res Hload]].
    destruct (batch_started args w k out input res Hcount Hout Ht Hkey Hk Hmk Hload)
      as [tl [tloop [[_ [_ [Hf1 _]]] [[_ [_ [_ Hf2]]] Hrun]]]].
    unfold images, outcome, trace. fold d in Hrun.
    destruct (loop_images args w d res (range (count args))) as [| x imgs];
      rewrite Hrun; cbn [fst snd outcome_of].
    + rewrite !file_setup_app, Hf1, Hf2. split; reflexivity.
    + rewrite !file_setup_app, Hf1, Hf2. unfold batch_report.
      destruct (no_gallery args); split; reflexivity.
Qed.

(** * Exit statuses *)




(** * The single image *)

Lemma iteration_success_tail (args : Args) (w : World) (d : Path.t)
    (input : option InputImage) (res : Resolution) (i : nat) :
  count args = 1 -> call_succeeds w i = true ->
  exists t0, forall g,
    snd (iteration args w d input res i g) =
      t0 ++
      [Stdout (fstr ["Image saved: ";
                     Path.to_string (resolve w (output_path args d i))]);
       Stdout (fstr ["MEDIA: ";
                     Path.to_string (resolve w (output_path args d i))])].
Proof.
  intros Hcount Hok.
  destruct (output_path_for_eq args d i) as [t0 [Hpath _]].
  unfold call_succeeds, call_parts in Hok.
  destruct (generate_content w i) as [e | response] eqn:Hgen; [discriminate Hok |].
  destruct (parts response) as [ps |] eqn:Hparts; [| discriminate Hok].
  destruct (process_parts_eq args w res (output_path args d i) i ps 0 false None)
    as [t1 [Hrun _]].
  destruct (parts_result (save_png w i) 0 ps false None) as [[[|] mt] | e | c] eqn:Hres;
    try discriminate Hok.
  exists (t0 ++
          [Stdout (match input with
                   | Some _ =>
                       fstr ["Editing image with resolution "; resolution_str res; "..."]
                   | None =>
                       fstr ["Generating image with resolution "; resolution_str res;
                             ", aspect ratio "; aspect_ratio_str (aspect_ratio args);
                             "..."]
                   end);
           Call i (build_request args input res)] ++ t1).
  intros g. unfold iteration. unfold bind at 1. rewrite Hpath.
  unfold parts_iter, try_except, bind, print, eprint, emit, when, sys_exit, ret,
    lift_result, raise.
  rewrite Hgen, Hcount.
  destruct input as [img |];
    repeat first [rewrite Hparts | rewrite Hrun | progress simpl];
    rewrite ?app_nil_r, <- ?app_assoc; reflexivity.
Qed.

Lemma single_trace (args : Args) (w : World) (k : string) (d : Path.t)
    (input : option InputImage) (res : Resolution) :
  count args = 1 ->
  output_dir_is args w d -> mkdir w d = None ->
  truthy (filename args) || truthy (out_dir args) = true ->
  get_api_key w (api_key args) = Some k -> truthy (Some k) = true ->
  load_end args w = Ret (input, res) ->
  exists tl,
    errors tl = [] /\ saves tl = [] /\
    trace args w =
      [NewClient k; Mkdir d] ++ tl ++ snd (iteration args w d input res 0 []) /\
    outcome args w = outcome_of (iteration_end args w 0).
Proof.
  intros Hcount Hdir Hmk Hgiven Hkey Hk Hload.
  assert (Hv1 : (1 <? count args) && negb (truthy (out_dir args)) = false)
    by (rewrite Hcount; reflexivity).
  assert (Hv2 : (count args =? 1) && negb (truthy (filename args))
                && negb (truthy (out_dir args)) = false).
  { rewrite <- andb_assoc, <- negb_orb, Hgiven. apply andb_false_r. }
  destruct (started_run args w k d input res Hv1 Hv2 Hkey Hk
              (setup_output_dir_eq args w d Hdir Hmk) Hload)
    as [tl [Hs [_ [_ [He Hrun]]]]].
  destruct (iteration_eq args w d input res 0) as [t [Hit _]].
  exists tl. split; [exact He |]. split; [exact Hs |].
  unfold trace, outcome. rewrite Hrun, Hcount. change (range 1) with [0%nat].
  simpl for_each. unfold bind at 1. unfold bind at 1. unfold bind at 1.
  unfold bind at 1. rewrite !Hit.
  destruct (iteration_end args w 0) as [[] | e | c]; simpl;
    rewrite ?save_batch_eq, ?Hcount; simpl; rewrite ?app_nil_r; split; reflexivity.
Qed.

(** X8.  A single-image run that gets to the remote call (the checks
    pass, a key is there, the output directory is made, the input image
    opens) exits 0 exactly when the call returns, every part is processed
    without an exception -- every image part decodes and is saved -- and an
    image was saved.  It then ends with the line [Image saved: <path>]
    followed by the line [MEDIA: <path>], where the path is the resolved
    output path; otherwise it exits 1 after an error line on standard
    error.  In particular, when the first image of the response cannot be
    saved, the run exits 1 with no file written and no image recorded. *)
Theorem single_image_outcome (args : Args) (w : World) (k : string) (d : Path.t) :
  count args = 1 ->
  output_dir_is args w d -> mkdir w d = None ->
  truthy (filename args) || truthy (out_dir args) = true ->
  get_api_key w (api_key args) = Some k -> truthy (Some k) = true ->
  input_opens args w ->
  (outcome args w = Exit 0 <-> call_succeeds w 0 = true) /\
  (call_succeeds w 0 = true ->
     exists t,
       trace args w =
         t ++
         [Stdout (fstr ["Image saved: ";
                        Path.to_string (resolve w (output_path args d 0))]);
          Stdout (fstr ["MEDIA: ";
                        Path.to_string (resolve w (output_path args d 0))])] /\
       errors (trace args w) = []) /\
  (call_succeeds w 0 = false ->
     outcome args w = Exit 1 /\ errors (trace args w) <> []) /\
  (save_fails w 0 = true ->
     outcome args w = Exit 1 /\ saves (trace args w) = [] /\ images args w = [] /\
     errors (trace args w) <> []).
Proof.
  intros Hcount Hdir Hmk Hgiven Hkey Hk Hopens.
  destruct (input_opens_load args w Hopens) as [input [res Hload]].
  destruct (single_trace args w k d input res Hcount Hdir Hmk Hgiven Hkey Hk Hload)
    as [tl [He [Hstl [Htrace Hout]]]].
  destruct (iteration_eq args w d input res 0) as [t [Hit [Hst [_ [Herr _]]]]].
  assert (Hsnd : snd (iteration args w d input res 0 []) = t)
    by (rewrite Hit; reflexivity).
  assert (Hfailed : call_succeeds w 0 = false ->
            outcome args w = Exit 1 /\ errors (trace args w) <> []).
  { intros Hfail. rewrite Hout. unfold iteration_end.
    rewrite Hcount, Hfail. split; [reflexivity |].
    rewrite Htrace, Hsnd, !errors_app, He. cbn [errors flat_map app].
    intros Hnil. apply Herr in Hnil. congruence. }
  split; [| split; [| split]].
  - rewrite Hout. unfold iteration_end. rewrite Hcount. change (1 =? 1) with true.
    destruct (call_succeeds w 0); simpl; split; congruence.
  - intros Hok.
    destruct (iteration_success_tail args w d input res 0 Hcount Hok) as [t0 Htail].
    exists ([NewClient k; Mkdir d] ++ tl ++ t0). split.
    + rewrite Htrace, (Htail []), <- !app_assoc. reflexivity.
    + rewrite Htrace, Hsnd, !errors_app, He, (proj2 Herr Hok). reflexivity.
  - exact Hfailed.
  - intros Hfails. destruct (save_fails_spec w 0 Hfails) as [Hnot Hnone].
    destruct (Hfailed Hnot) as [Hexit Herrors].
    split; [exact Hexit |]. split; [| split; [| exact Herrors]].
    + rewrite Htrace, Hsnd, !saves_app, Hstl, Hst, Hnone. reflexivity.
    + unfold images.
      destruct (single_started args w k d input res Hcount Hdir Hmk Hgiven Hkey Hk
                  Hload) as [tl' [t' [_ [_ Hrun]]]].
      rewrite Hrun. cbn [fst snd]. rewrite Hnone. reflexivity.
Qed.

(** * The files of a batch *)

Lemma no_slash_app (a b : string) : no_slash (a ++ b) = no_slash a && no_slash b.
Proof.
  induction a as [| c a IH]; simpl; [reflexivity |].
  rewrite IH, andb_assoc. reflexivity.
Qed.

Lemma no_slash_uint (d : Decimal.uint) : no_slash (NilEmpty.string_of_uint d) = true.
Proof. induction d; simpl; auto. Qed.

Lemma no_slash_zeros (n : nat) : no_slash (zeros n) = true.
Proof. induction n; simpl; auto. Qed.

Lemma str_int_value (n : Z) :
  0 <= n -> decimal_value (str_int n) = Some n /\ no_slash (str_int n) = true.
Proof.
  intros Hn. unfold str_int, decimal_value.
  pose proof (DecimalZ.of_to n) as Hback.
  destruct (Z.to_int n) as [u | u] eqn:Hint.
  - simpl in Hback. unfold NilZero.string_of_int, NilZero.string_of_uint.
    destruct u as [| u' | u' | u' | u' | u' | u' | u' | u' | u' | u'];
      try (rewrite NilEmpty.usu, no_slash_uint; simpl; rewrite Hback; auto).
    simpl in *. subst n. auto.
  - destruct n; simpl in Hint; try discriminate Hint. lia.
Qed.

Lemma decimal_value_zeros (k : nat) (s : string) (n : Z) :
  decimal_value s = Some n -> decimal_value (zeros k ++ s) = Some n.
Proof.
  unfold decimal_value. intros Hs. induction k as [| k IH]; simpl; [exact Hs |].
  destruct (NilEmpty.uint_of_string (zeros k ++ s)) as [d |]; simpl in *;
    [exact IH | discriminate IH].
Qed.

Lemma pad3_value (n : Z) :
  0 <= n -> decimal_value (pad3 n) = Some n /\ no_slash (pad3 n) = true.
Proof.
  intros Hn. destruct (str_int_value n Hn) as [Hvalue Hslash].
  unfold pad3. split.
  - apply decimal_value_zeros. exact Hvalue.
  - rewrite no_slash_app, no_slash_zeros, Hslash. reflexivity.
Qed.

Lemma pad3_injective (a b : Z) : 0 <= a -> 0 <= b -> pad3 a = pad3 b -> a = b.
Proof.
  intros Ha Hb Heq.
  destruct (pad3_value a Ha) as [Hva _]. destruct (pad3_value b Hb) as [Hvb _].
  rewrite Heq in Hva. congruence.
Qed.

Lemma string_length_app (a b : string) :
  String.length (a ++ b) = (String.length a + String.length b)%nat.
Proof. induction a as [| c a IH]; simpl; [reflexivity | rewrite IH; reflexivity]. Qed.

Lemma string_app_cancel_r (a b t : string) : (a ++ t = b ++ t)%string -> a = b.
Proof.
  revert b. induction a as [| c a IH]; intros [| c' b] Heq; simpl in Heq.
  - reflexivity.
  - exfalso. apply (f_equal String.length) in Heq. simpl in Heq.
    rewrite string_length_app in Heq. lia.
  - exfalso. apply (f_equal String.length) in Heq. simpl in Heq.
    rewrite string_length_app in Heq. lia.
  - inversion Heq; subst. f_equal. apply IH. assumption.
Qed.

Lemma batch_name_eq (i : nat) :
  batch_name i = ("image-" ++ pad3 (Z.of_nat i + 1) ++ ".png")%string.
Proof. reflexivity. Qed.

Lemma batch_name_injective (i j : nat) : batch_name i = batch_name j -> i = j.
Proof.
  rewrite !batch_name_eq. intros Heq. simpl in Heq.
  inversion Heq as [Hrest]. apply string_app_cancel_r in Hrest.
  apply pad3_injective in Hrest; lia.
Qed.

Lemma split_slash_plain (s : string) :
  no_slash s = true -> forall cur, Path.split_slash s cur = [(cur ++ s)%string].
Proof.
  induction s as [| c s IH]; intros Hno cur; simpl in *.
  - rewrite string_app_nil_r. reflexivity.
  - apply andb_true_iff in Hno. destruct Hno as [Hc Hs].
    apply negb_true_iff in Hc. rewrite Hc, (IH Hs).
    rewrite string_app_assoc. reflexivity.
Qed.

Lemma of_string_batch_name (i : nat) :
  Path.of_string (batch_name i) = Path.mk "" [batch_name i].
Proof.
  unfold Path.of_string.
  assert (Hno : no_slash (batch_name i) = true).
  { rewrite batch_name_eq, !no_slash_app.
    destruct (pad3_value (Z.of_nat i + 1)) as [_ Hpad]; [lia |].
    rewrite Hpad. reflexivity. }
  rewrite (split_slash_plain _ Hno ""). rewrite batch_name_eq. reflexivity.
Qed.

Lemma join_batch_name (d : Path.t) (i : nat) :
  Path.join_str d (batch_name i)
    = Path.mk (Path.root d) (Path.parts d ++ [batch_name i]).
Proof.
  unfold Path.join_str. rewrite of_string_batch_name. reflexivity.
Qed.

Lemma length_zeros (k : nat) : String.length (zeros k) = k.
Proof. induction k as [| k IH]; simpl; [reflexivity | rewrite IH; reflexivity]. Qed.

Lemma pad3_length (n : Z) : (3 <= String.length (pad3 n))%nat.
Proof. unfold pad3. rewrite string_length_app, length_zeros. lia. Qed.

Lemma in_loop_images_saved (args : Args) (w : World) (d : Path.t) (res : Resolution)
    (xs : list nat) (img : GeneratedImage) :
  In img (loop_images args w d res xs) ->
  exists i,
    In i xs /\ gi_filename img = Path.name (output_path args d i) /\
    In (Path.to_string (output_path args d i)) (loop_saves args w d xs).
Proof.
  unfold loop_images, loop_saves. intros Hin. apply in_flat_map in Hin.
  destruct Hin as [i [Hi Himg]]. apply in_map_iff in Himg.
  destruct Himg as [mt [Heq Hmt]]. exists i. split; [exact Hi |].
  split; [rewrite <- Heq; reflexivity |].
  apply in_flat_map. exists i. split; [exact Hi |].
  destruct (saved_in w i) as [| x rest]; [destruct Hmt |]. left. reflexivity.
Qed.

(** X9.  The files of a batch.  The output path of iteration [i] is the
    file [image-NNN.png] directly inside the output directory, where [NNN] is
    [i+1] in decimal, padded with zeros to at least three digits; different
    iterations have different output paths.  Every image a batch run records
    carries such a file name, and joining it to the timestamped directory
    gives a file that the run saved (the names in [prompts.json] are relative
    to the directory that holds it). *)
Theorem batch_files (args : Args) (w : World) (d : Path.t) :
  1 < count args ->
  (forall i,
     output_path args d i
       = Path.join_str d ("image-" ++ pad3 (Z.of_nat i + 1) ++ ".png")%string /\
     Path.name (output_path args d i)
       = ("image-" ++ pad3 (Z.of_nat i + 1) ++ ".png")%string /\
     Path.parent (output_path args d i) = d /\
     (3 <= String.length (pad3 (Z.of_nat i + 1)))%nat) /\
  (forall i j, output_path args d i = output_path args d j -> i = j) /\
  (forall img, In img (images args w) ->
     exists out i,
       out_dir args = Some out /\ Z.of_nat i < count args /\
       gi_filename img = ("image-" ++ pad3 (Z.of_nat i + 1) ++ ".png")%string /\
       In (Path.to_string (Path.join_str (timestamped_dir w out) (gi_filename img)))
          (saves (trace args w))).
Proof.
  intros Hcount.
  assert (Hpath : forall i, output_path args d i = Path.join_str d (batch_name i)).
  { intros i. unfold output_path. apply Z.ltb_lt in Hcount. rewrite Hcount.
    reflexivity. }
  assert (Hname : forall d' i, Path.name (Path.join_str d' (batch_name i)) = batch_name i).
  { intros d' i. rewrite join_batch_name. unfold Path.name. simpl Path.parts.
    apply last_last. }
  split; [| split].
  - intros i. rewrite Hpath. split; [reflexivity |].
    split; [apply Hname |]. split; [| apply pad3_length].
    rewrite join_batch_name. unfold Path.parent. simpl Path.parts.
    destruct (Path.parts d ++ [batch_name i]) eqn:Happ.
    + apply app_eq_nil in Happ. destruct Happ as [_ Hnil]. discriminate Hnil.
    + rewrite <- Happ, removelast_last. destruct d; reflexivity.
  - intros i j Heq. rewrite !Hpath in Heq.
    apply (f_equal Path.name) in Heq. rewrite !Hname in Heq.
    apply batch_name_injective. exact Heq.
  - intros img Himg.
    destruct (batch_cases args w Hcount)
      as [[Hi _] | [k [out [input [res [Hout [Ht [Hkey [Hk [Hmk Hload]]]]]]]]]].
    + rewrite Hi in Himg. destruct Himg.
    + destruct (batch_started args w k out input res Hcount Hout Ht Hkey Hk Hmk Hload)
        as [tl [tloop [[Hs1 _] [[Hs2 _] Hrun]]]].
      assert (Hboth : images args w
                        = loop_images args w (timestamped_dir w out) res
                            (range (count args)) /\
                      saves (trace args w)
                        = loop_saves args w (timestamped_dir w out)
                            (range (count args))).
      { unfold images, trace.
        destruct (loop_images args w (timestamped_dir w out) res (range (count args)))
          eqn:Himgs; rewrite Hrun; cbn [fst snd]; rewrite !saves_app, Hs1, Hs2.
        - cbn [saves flat_map app]. rewrite app_nil_r. auto.
        - unfold batch_report. destruct (no_gallery args); cbn [saves flat_map app];
            rewrite app_nil_r; auto. }
      destruct Hboth as [Himages Hsaves]. rewrite Himages in Himg.
      destruct (in_loop_images_saved _ _ _ _ _ _ Himg) as [i [Hi [Hfile Hsaved]]].
      exists out, i. split; [exact Hout |].
      split; [unfold range in Hi; apply in_seq in Hi; lia |].
      assert (Hp : output_path args (timestamped_dir w out) i
                   = Path.join_str (timestamped_dir w out) (batch_name i)).
      { unfold output_path. apply Z.ltb_lt in Hcount. rewrite Hcount. reflexivity. }
      rewrite Hfile, Hp, Hname. split; [reflexivity |].
      rewrite Hsaves, <- Hp. exact Hsaved.
Qed.

(** * A file name with a directory *)

Lemma app_self_nil {A} (xs : list A) : xs ++ xs = xs -> xs = [].
Proof.
  intros H. apply (f_equal (@length A)) in H. rewrite length_app in H.
  destruct xs; [reflexivity | simpl in H; lia].
Qed.

(** X10.  Single mode without [--out-dir].  The directory the run makes
    is the parent of the file name.  An absolute file name is the output path
    as it stands.  A relative one is joined to that parent, so the
    directories of the file name come twice in the output path: the output
    path lies in the directory that was made only when the file name has no
    directory part.  When the save at the output path raises -- as it does
    when the doubled directory does not exist -- the run has made the parent
    directory, writes no file, records no image and exits 1 after an error
    line. *)
Theorem relative_filename_is_joined_to_its_parent (args : Args) (w : World)
    (f : string) :
  count args = 1 ->
  truthy (out_dir args) = false ->
  filename args = Some f -> truthy (filename args) = true ->
  let file := Path.of_string f in
  let made := Path.parent file in
  (mkdir w made = None ->
   forall g, setup_output_dir args w g = (Ret made, g, [Mkdir made])) /\
  (forall p, In p (saves (trace args w)) ->
     p = Path.to_string (output_path args made 0)) /\
  (Path.is_absolute file = true -> output_path args made 0 = file) /\
  (Path.is_absolute file = false ->
     output_path args made 0
       = Path.mk (Path.root made) (Path.parts made ++ Path.parts file)) /\
  (Path.is_absolute file = false -> Path.parts file <> [] ->
     (Path.parent (output_path args made 0) = made <-> Path.parts made = [])) /\
  (truthy (get_api_key w (api_key args)) = true -> mkdir w made = None ->
   input_opens args w -> save_fails w 0 = true ->
     outcome args w = Exit 1 /\
     file_setup (trace args w) = [Mkdir made] /\
     saves (trace args w) = [] /\
     images args w = [] /\
     errors (trace args w) <> []).
Proof.
  intros Hcount Hout Hfile Htruthy file made.
  assert (Hpath : output_path args made 0
                  = if Path.is_absolute file then file else Path.join made file).
  { unfold output_path. rewrite Hcount, Htruthy, Hfile. reflexivity. }
  assert (Hjoin : Path.is_absolute file = false ->
                  Path.join made file
                    = Path.mk (Path.root made) (Path.parts made ++ Path.parts file)).
  { unfold Path.is_absolute, Path.join. intros Hrel.
    apply negb_false_iff in Hrel. rewrite Hrel. reflexivity. }
  assert (Hmade_dir : output_dir_is args w made).
  { right. exists f. auto. }
  assert (Hgiven : truthy (filename args) || truthy (out_dir args) = true)
    by (rewrite Htruthy; reflexivity).
  split; [intros Hmk; apply setup_with_filename; assumption |].
  split; [| split; [| split; [| split]]].
  - intros p Hin.
    destruct (single_cases args w Hcount)
      as [[_ [Hs _]] | [k [d [input [res [Hdir [Hmk [_ [Hkey [Hk Hload]]]]]]]]]].
    + rewrite Hs in Hin. destruct Hin.
    + assert (Hd : d = made).
      { destruct Hdir as [[out [_ [Ht _]]] | [f' [_ [Hf' ->]]]]; [congruence |].
        rewrite Hfile in Hf'. inversion Hf'. subst f'. reflexivity. }
      subst d.
      destruct (single_started args w k made input res Hcount Hdir Hmk Hgiven Hkey Hk
                  Hload) as [tl [t [[Hs1 _] [[Hs2 _] Hrun]]]].
      unfold trace in Hin. rewrite Hrun in Hin. cbn [snd] in Hin.
      rewrite !saves_app, Hs1, Hs2 in Hin. cbn [saves flat_map app] in Hin.
      apply repeat_spec in Hin. exact Hin.
  - intros Habs. rewrite Hpath, Habs. reflexivity.
  - intros Hrel. rewrite Hpath, Hrel. apply Hjoin. exact Hrel.
  - intros Hrel Hparts. rewrite Hpath, Hrel, (Hjoin Hrel).
    assert (Hmade : made = Path.mk (Path.root file) (removelast (Path.parts file))).
    { unfold made, Path.parent. destruct (Path.parts file); [congruence | reflexivity]. }
    destruct (exists_last Hparts) as [ds [n Hsplit]].
    rewrite Hmade, Hsplit. cbn [Path.root Path.parts]. rewrite removelast_last.
    unfold Path.parent. cbn [Path.root Path.parts].
    destruct (ds ++ ds ++ [n]) eqn:Happ.
    { destruct ds; discriminate Happ. }
    rewrite <- Happ, app_assoc, removelast_last.
    split.
    + intros Heq. injection Heq as Hds. exact (app_self_nil ds Hds).
    + intros ->. reflexivity.
  - intros Hkey Hmk Hopens Hfails.
    destruct (truthy_some _ Hkey) as [k Hget]. rewrite Hget in Hkey.
    destruct (input_opens_load args w Hopens) as [input [res Hload]].
    destruct (save_fails_spec w 0 Hfails) as [Hnot Hnone].
    destruct (single_started args w k made input res Hcount Hmade_dir Hmk Hgiven Hget
                Hkey Hload)
      as [tl [t [[Hs1 [_ [Hf1 He1]]] [[Hs2 [_ [He2 Hf2]]] Hrun]]]].
    unfold outcome, trace, images. rewrite Hrun. cbn [fst snd].
    unfold iteration_end. rewrite Hnot, Hcount, Hnone.
    rewrite !file_setup_app, !saves_app, !errors_app, Hs1, Hs2, Hf1, Hf2, He1, Hnone.
    repeat split.
    cbn [errors flat_map app]. intros Hnil. apply He2 in Hnil. congruence.
Qed.

(** * The alt text of a card *)

Lemma str_take_drop (n : nat) (s : string) :
  (str_take n s ++ str_drop n s)%string = s.
Proof.
  revert n. induction s as [| c s IH]; intros n; simpl; [reflexivity |].
  destruct (is_continuation c); [simpl; rewrite IH; reflexivity |].
  destruct n as [| n]; [reflexivity |]. simpl. rewrite IH. reflexivity.
Qed.

Lemma str_take_all (n : nat) (s : string) : (str_len s <= n)%nat -> str_take n s = s.
Proof.
  revert n. induction s as [| c s IH]; intros n Hlen; simpl in *; [reflexivity |].
  destruct (is_continuation c); [rewrite IH by exact Hlen; reflexivity |].
  destruct n as [| n]; [lia |]. rewrite IH by lia. reflexivity.
Qed.

Lemma str_len_take (n : nat) (s : string) :
  (n <= str_len s)%nat -> str_len (str_take n s) = n.
Proof.
  revert n. induction s as [| c s IH]; intros n Hlen; simpl in *; [lia |].
  destruct (is_continuation c) eqn:Hc.
  - simpl. rewrite Hc. apply IH. exact Hlen.
  - destruct n as [| n]; [reflexivity |]. simpl. rewrite Hc, IH by lia. reflexivity.
Qed.

Lemma html_escape_app (a b : string) :
  html_escape (a ++ b) = (html_escape a ++ html_escape b)%string.
Proof.
  induction a as [| c a IH]; simpl; [reflexivity |].
  rewrite IH, string_app_assoc. reflexivity.
Qed.

(** ** Characters outside ASCII *)

Lemma continuation_byte (x : N) :
  is_continuation (ascii_of_N (128 + x mod 64)) = true.
Proof.
  unfold is_continuation. cbv zeta.
  assert (Hlt : (x mod 64 < 64)%N) by (apply N.mod_lt; discriminate).
  generalize dependent (x mod 64)%N. intros r Hlt.
  rewrite N_ascii_embedding by lia.
  apply andb_true_iff. split; [apply N.leb_le | apply N.ltb_lt]; lia.
Qed.

Lemma leading_byte (m : N) :
  (m < 128 \/ 192 <= m < 256)%N -> is_continuation (ascii_of_N m) = false.
Proof.
  intros Hm. unfold is_continuation. cbv zeta. rewrite N_ascii_embedding by lia.
  apply andb_false_iff. destruct Hm as [Hlow | Hhigh].
  - left. apply N.leb_gt. exact Hlow.
  - right. apply N.ltb_ge. lia.
Qed.

(** The encoding of a character is a byte that begins it and bytes that
    continue it. *)
Lemma utf8_char_shape (cp : N) :
  (cp < 1114112)%N ->
  exists c t,
    utf8_char cp = String c t /\ is_continuation c = false /\ all_continuation t = true.
Proof.
  intros Hcp. unfold utf8_char.
  destruct (N.ltb_spec cp 128) as [H1 | H1].
  { eexists. eexists. split; [reflexivity |].
    split; [apply leading_byte; left; exact H1 | reflexivity]. }
  destruct (N.ltb_spec cp 2048) as [H2 | H2].
  { eexists. eexists. split; [reflexivity |]. split.
    - apply leading_byte. right.
      assert (cp / 64 < 32)%N by (apply N.Div0.div_lt_upper_bound; lia).
      generalize dependent (cp / 64)%N. intros; lia.
    - cbn [all_continuation]. rewrite continuation_byte. reflexivity. }
  destruct (N.ltb_spec cp 65536) as [H3 | H3].
  { eexists. eexists. split; [reflexivity |]. split.
    - apply leading_byte. right.
      assert (cp / 4096 < 16)%N by (apply N.Div0.div_lt_upper_bound; lia).
      generalize dependent (cp / 4096)%N. intros; lia.
    - cbn [all_continuation]. rewrite !continuation_byte. reflexivity. }
  eexists. eexists. split; [reflexivity |]. split.
  - apply leading_byte. right.
    assert (cp / 262144 < 5)%N by (apply N.Div0.div_lt_upper_bound; lia).
    generalize dependent (cp / 262144)%N. intros; lia.
  - cbn [all_continuation]. rewrite !continuation_byte. reflexivity.
Qed.

Lemma str_len_continuation (t rest : string) :
  all_continuation t = true -> str_len (t ++ rest) = str_len rest.
Proof.
  induction t as [| c t IH]; simpl; [reflexivity |].
  intros Hall. apply andb_true_iff in Hall. destruct Hall as [Hc Ht].
  rewrite Hc. apply IH. exact Ht.
Qed.

Lemma str_take_continuation (n : nat) (t rest : string) :
  all_continuation t = true -> str_take n (t ++ rest) = (t ++ str_take n rest)%string.
Proof.
  induction t as [| c t IH]; simpl; [reflexivity |].
  intros Hall. apply andb_true_iff in Hall. destruct Hall as [Hc Ht].
  rewrite Hc, (IH Ht). reflexivity.
Qed.

(** On the encoding of a text, [str_len] counts its characters and
    [str_take] takes its first characters whole. *)
Lemma str_len_utf8 (cps : list N) :
  Forall (fun cp => (cp < 1114112)%N) cps -> str_len (utf8 cps) = length cps.
Proof.
  induction 1 as [| cp rest Hcp _ IH]; simpl; [reflexivity |].
  destruct (utf8_char_shape cp Hcp) as [c [t [-> [Hc Ht]]]].
  simpl. rewrite Hc, (str_len_continuation t _ Ht), IH. reflexivity.
Qed.

Lemma str_take_utf8 (n : nat) (cps : list N) :
  Forall (fun cp => (cp < 1114112)%N) cps ->
  str_take n (utf8 cps) = utf8 (firstn n cps).
Proof.
  intros Hall. revert n.
  induction Hall as [| cp rest Hcp _ IH]; intros n; simpl.
  - destruct n; reflexivity.
  - destruct (utf8_char_shape cp Hcp) as [c [t [Hshape [Hc Ht]]]].
    destruct n as [| n]; simpl; rewrite Hshape; simpl; rewrite Hc; [reflexivity |].
    rewrite (str_take_continuation n t _ Ht), IH. reflexivity.
Qed.

(** A prompt of 20 characters that takes 60 bytes is shown whole, and one
    of 51 characters loses its last character. *)
Example preview_counts_characters :
  str_len "富士山の上に昇る朝日と桜の花びらが舞う春" = 20%nat /\
  String.length "富士山の上に昇る朝日と桜の花びらが舞う春" = 60%nat /\
  prompt_preview "富士山の上に昇る朝日と桜の花びらが舞う春"
    = "富士山の上に昇る朝日と桜の花びらが舞う春" /\
  prompt_preview (String.concat "" (repeat "é" 51))
    = (String.concat "" (repeat "é" 50) ++ "...")%string.
Proof. repeat split; vm_compute; reflexivity. Qed.

(** X11.  The alt text of a card.  A prompt of at most 50 characters is
    shown whole, escaped, without an ellipsis; a longer one is cut to its
    first 50 characters, which are escaped, and three dots are appended.  The
    prompt is cut before it is escaped, so what stands before the dots is
    always the beginning of the escaped prompt and no entity is cut in two.
    Characters are counted, not bytes: for the text with the characters
    [cps], whatever they are, the alt text is the escaped text of the first
    50 of them, and the dots are there exactly when there are more than 50. *)
Theorem alt_text_bounds (p : string) (cps : list N) :
  ((str_len p <= 50)%nat -> prompt_preview p = html_escape p) /\
  ((50 < str_len p)%nat ->
     prompt_preview p = (html_escape (str_take 50 p) ++ "...")%string /\
     str_len (str_take 50 p) = 50%nat) /\
  html_escape p = (html_escape (str_take 50 p) ++ html_escape (str_drop 50 p))%string /\
  entities_only (html_escape (str_take 50 p)) = true /\
  (Forall (fun cp => (cp < 1114112)%N) cps ->
     str_len (utf8 cps) = length cps /\
     prompt_preview (utf8 cps) =
       (html_escape (utf8 (firstn 50 cps)) ++
        (if (50 <? length cps)%nat then "..." else ""))%string).
Proof.
  unfold prompt_preview. split; [| split; [| split; [| split]]].
  - intros Hlen. rewrite (str_take_all 50 p Hlen).
    destruct (Nat.ltb_spec 50 (str_len p)) as [Hlt | _]; [lia |].
    apply string_app_nil_r.
  - intros Hlen.
    destruct (Nat.ltb_spec 50 (str_len p)) as [_ | Hle]; [| lia].
    split; [reflexivity | apply str_len_take; lia].
  - rewrite <- html_escape_app, str_take_drop. reflexivity.
  - apply entities_only_escape.
  - intros Hcps. split; [apply str_len_utf8; exact Hcps |].
    rewrite (str_take_utf8 50 cps Hcps), (str_len_utf8 cps Hcps). reflexivity.
Qed.

(** * The detected resolution *)

(** X12.  The resolution detected for an input image depends on its
    longer edge only: exchanging width and height changes nothing, and an
    image that is at least as wide and as high as another never gets a lower
    resolution.  4K is detected exactly from 3000 px, 1K exactly below
    1500 px. *)
Theorem detected_resolution_follows_the_longer_edge (wd ht wd' ht' : Z) :
  detect_resolution wd ht = detect_resolution ht wd /\
  (wd <= wd' -> ht <= ht' ->
     resolution_rank (detect_resolution wd ht)
       <= resolution_rank (detect_resolution wd' ht')) /\
  (detect_resolution wd ht = R4K <-> 3000 <= wd \/ 3000 <= ht) /\
  (detect_resolution wd ht = R1K <-> wd < 1500 /\ ht < 1500).
Proof.
  unfold detect_resolution.
  rewrite (Z.max_comm ht wd).
  destruct (Z.leb_spec 3000 (Z.max wd ht)); destruct (Z.leb_spec 1500 (Z.max wd ht));
    destruct (Z.leb_spec 3000 (Z.max wd' ht'));
    destruct (Z.leb_spec 1500 (Z.max wd' ht'));
    simpl; repeat split; intros; try discriminate; try lia.
Qed.

(** * When a batch succeeds *)

Lemma some_response_saves (w : World) (xs : list nat) :
  (forall i, In i xs -> saved_in w i = []) \/
  (exists i, In i xs /\ saved_in w i <> []).
Proof.
  induction xs as [| x xs IH]; [left; intros i [] |].
  destruct (saved_in w x) eqn:Hx.
  - destruct IH as [Hall | [i [Hi Hsome]]].
    + left. intros i [<- | Hi]; [exact Hx | apply Hall; exact Hi].
    + right. exists i. split; [right; exact Hi | exact Hsome].
  - right. exists x. split; [left; reflexivity | rewrite Hx; discriminate].
Qed.

(** X13.  A batch run that gets to its loop (a key is there, the
    timestamped directory is made, the input image opens if one is named)
    exits 0 exactly when some response of its [count] calls yields a saved
    image: an image part that decodes and is saved, reached before any
    payload that does not decode and any save that raises; it exits 1
    otherwise.  The iteration that yields the image need not succeed as a
    whole.  Said with the files: the run exits 0 exactly when it saved a
    file. *)
Theorem batch_success_criterion (args : Args) (w : World) (k out : string) :
  1 < count args ->
  out_dir args = Some out -> truthy (out_dir args) = true ->
  get_api_key w (api_key args) = Some k -> truthy (Some k) = true ->
  mkdir w (timestamped_dir w out) = None ->
  input_opens args w ->
  (outcome args w = Exit 0 <->
     exists i, Z.of_nat i < count args /\ saved_in w i <> []) /\
  (outcome args w = Exit 0 \/ outcome args w = Exit 1) /\
  (outcome args w = Exit 0 <-> saves (trace args w) <> []).
Proof.
  intros Hcount Hout Ht Hkey Hk Hmk Hopens.
  destruct (input_opens_load args w Hopens) as [input [res Hload]].
  destruct (batch_run_eq args w k out input res Hcount Hout Ht Hkey Hk Hmk Hload)
    as [_ [Hsaves [_ Hexit]]].
  pose proof (loop_images_nil args w (timestamped_dir w out) res (range (count args)))
    as Hnil.
  pose proof (length_loop_saves args w (timestamped_dir w out) res
                (range (count args))) as Hlen.
  rewrite Hexit, Hsaves.
  destruct (loop_images args w (timestamped_dir w out) res (range (count args)))
    as [| x imgs].
  - split; [| split; [right; reflexivity |]].
    + split; [discriminate |].
      intros [i [Hi Hsome]]. exfalso. apply Hsome.
      apply (proj1 Hnil eq_refl). unfold range. apply in_seq. lia.
    + split; [discriminate |]. intros Hne. exfalso. apply Hne.
      destruct (loop_saves args w (timestamped_dir w out) (range (count args)));
        [reflexivity | discriminate Hlen].
  - split; [| split; [left; reflexivity |]].
    + split; [| reflexivity]. intros _.
      destruct (some_response_saves w (range (count args))) as [Hall | [i [Hi Hsome]]].
      * exfalso. apply (proj2 Hnil) in Hall. discriminate Hall.
      * exists i. split; [| exact Hsome]. unfold range in Hi. apply in_seq in Hi. lia.
    + split; [| reflexivity]. intros _ Hnone. rewrite Hnone in Hlen.
      discriminate Hlen.
Qed.

(** * Saving the images of a response *)

(** X14.  Processing the parts of a response saves, in order, the image
    parts that decode and whose save returns, up to the first payload that
    does not decode and the first save that raises -- every one at the same
    output path, so a later image replaces an earlier one.  One entry, with
    the name of the output file, is appended to [generated_images] for each
    save; the entries that were there and those added before a payload or a
    save raises are kept. *)
Theorem images_of_a_response (args : Args) (w : World) (p : Path.t)
    (res : Resolution) (i j : nat) (ps : list Part) (saved : bool)
    (mt : option string) (g : list GeneratedImage) :
  let r := process_parts args w p res i j ps saved mt g in
  let done := saved_prefix (save_png w i) (decoded_parts j ps) in
  filter is_save (snd r) =
    map (fun x => SavePng (Path.to_string p) (conversion (snd x))) done /\
  length (snd (fst r)) = (length g + length done)%nat /\
  (exists added,
     snd (fst r) = g ++ added /\
     Forall (fun x => gi_filename x = Path.name p) added) /\
  (forall x, In x done -> save_png w i (fst x) = None /\ (j <= fst x)%nat).
Proof.
  cbv zeta. revert j saved mt g.
  induction ps as [| part rest IH]; intros j saved mt g; simpl.
  - split; [reflexivity |]. split; [lia |]. split; [| intros x []].
    exists []. rewrite app_nil_r. split; [reflexivity | constructor].
  - assert (Hstep : forall x,
              In x (saved_prefix (save_png w i) (decoded_parts (S j) rest)) ->
              save_png w i (fst x) = None /\ (S j <= fst x)%nat)
      by (intros x; apply (IH (S j) saved mt g)).
    destruct (text part) as [t |].
    + specialize (IH (S j) saved (Some t) g). unfold bind, print, emit.
      destruct (process_parts args w p res i (S j) rest saved (Some t) g)
        as [[r g2] t2].
      destruct IH as [Hsaves [Hlen [Hadded _]]].
      split; [exact Hsaves |]. split; [exact Hlen |]. split; [exact Hadded |].
      intros x Hx. destruct (Hstep x Hx). split; [assumption | lia].
    + destruct (inline_data part) as [[mode | e] |].
      * cbn [saved_prefix].
        destruct (save_png w i j) as [e |] eqn:Hsave.
        -- unfold bind, lift_result, decode, save_image, raise, ret.
           rewrite Hsave. simpl.
           split; [reflexivity |]. split; [lia |]. split; [| intros x []].
           exists []. rewrite app_nil_r. split; [reflexivity | constructor].
        -- specialize (IH (S j) true mt (g ++ [image_entry args w p res mt])).
           unfold bind, save_image, emit, append_image, lift_result, decode, ret.
           rewrite Hsave. simpl.
           destruct (process_parts args w p res i (S j) rest true mt
                       (g ++ [image_entry args w p res mt])) as [[r g2] t2].
           simpl in *. destruct IH as [Hsaves [Hlen [[added [Heq Hnames]] _]]].
           split; [rewrite Hsaves; reflexivity |].
           split; [rewrite Hlen, length_app; simpl; lia |].
           split.
           ++ exists (image_entry args w p res mt :: added).
              split; [rewrite Heq, <- app_assoc; reflexivity |].
              constructor; [reflexivity | exact Hnames].
           ++ intros x [<- | Hx]; [split; [exact Hsave | simpl; lia] |].
              destruct (Hstep x Hx). split; [assumption | lia].
      * unfold bind, lift_result, decode, raise. simpl.
        split; [reflexivity |]. split; [lia |]. split; [| intros x []].
        exists []. rewrite app_nil_r. split; [reflexivity | constructor].
      * specialize (IH (S j) saved mt g).
        destruct (process_parts args w p res i (S j) rest saved mt g) as [[r g2] t2].
        destruct IH as [Hsaves [Hlen [Hadded _]]].
        split; [exact Hsaves |]. split; [exact Hlen |]. split; [exact Hadded |].
        intros x Hx. destruct (Hstep x Hx). split; [assumption | lia].
Qed.

(** * Further concrete runs *)

Example nested_run :
  file_setup (trace nested_args good_world) = [Mkdir (Path.of_string "sub")] /\
  saves (trace nested_args good_world) = ["sub/sub/a.png"].
Proof. split; reflexivity. Qed.

Example nested_run_without_the_directory :
  trace nested_args unsaved_world =
    [NewClient "env-key"; Mkdir (Path.of_string "sub");
     Stdout "Generating image with resolution 1K, aspect ratio 1:1...";
     Call 0 (build_request nested_args None R1K);
     Stdout "Model response: Here you go";
     Stderr "Error generating image: [Errno 2] No such file or directory"] /\
  outcome nested_args unsaved_world = Exit 1.
Proof. split; reflexivity. Qed.

Example blocked_run :
  trace (batch_args 4) blocked_world = [NewClient "env-key"] /\
  outcome (batch_args 4) blocked_world = Uncaught not_a_directory /\
  exit_status (outcome (batch_args 4) blocked_world) = 1.
Proof. repeat split; reflexivity. Qed.

Example rejected_command_line :
  script_outcome (Rejected "usage: generate_image.py [-h] --prompt PROMPT") good_world
    = Exit 2.
Proof. reflexivity. Qed.

Example key_of_the_command_line :
  trace {| prompt := "p"; filename := Some "a.png"; input_image := None;
           resolution := R1K; aspect_ratio := A1x1; count := 0; out_dir := None;
           model := default_model; api_key := Some "cli-key"; no_gallery := false |}
        good_world
  = [NewClient "cli-key"; Mkdir (Path.of_string ".")].
Proof. reflexivity. Qed.

Lemma single_args_pass : validation_passes single_args.
Proof. split; [intros H; discriminate H | intros _; left; reflexivity]. Qed.

Lemma missing_key_stops_the_run_witness :
  trace single_args keyless_world =
    [Stderr "Error: No API key provided."; Stderr "Please either:";
     Stderr "  1. Provide --api-key argument";
     Stderr "  2. Set GEMINI_API_KEY environment variable"] /\
  outcome single_args keyless_world = Exit 1 /\
  images single_args keyless_world = [].
Proof.
  apply (missing_key_stops_the_run single_args keyless_world).
  - exact single_args_pass.
  - reflexivity.
  - reflexivity.
Defined.

Lemma client_key_precedence_witness :
  "env-key" <> "" /\
  ((truthy (api_key single_args) = true /\ api_key single_args = Some "env-key") \/
   (truthy (api_key single_args) = false /\ env_api_key good_world = Some "env-key")).
Proof.
  apply (client_key_precedence single_args good_world "env-key").
  vm_compute. left. reflexivity.
Defined.

Lemma unreadable_input_image_witness :
  trace (edit_args R1K) unreadable_world =
    [NewClient "env-key"; Mkdir (Path.of_string "."); OpenImage "photo.jpg";
     Stderr (fstr ["Error loading input image: "; "cannot identify image file"])] /\
  outcome (edit_args R1K) unreadable_world = Exit 1 /\
  images (edit_args R1K) unreadable_world = [].
Proof.
  destruct (unreadable_input_image (edit_args R1K) unreadable_world "env-key"
              "photo.jpg" (Path.of_string ".")
              (LibraryError "cannot identify image file")) as [Hmade _].
  - split; [intros H; discriminate H | intros _; left; reflexivity].
  - reflexivity.
  - reflexivity.
  - right. exists "edited.png". repeat split; reflexivity.
  - reflexivity.
  - reflexivity.
  - reflexivity.
  - apply Hmade. reflexivity.
Defined.

Lemma request_contents_witness :
  default_model = model (edit_args R1K) /\
  (Z.of_nat 0 < count (edit_args R1K)) /\
  (truthy (input_image (edit_args R1K)) = false ->
     ImageAndPrompt {| source := "photo.jpg"; width := 3200; height := 1800 |}
       "make it sunset" = PromptOnly (prompt (edit_args R1K))) /\
  (forall path, input_image (edit_args R1K) = Some path ->
     truthy (input_image (edit_args R1K)) = true ->
     exists wd ht,
       open_image good_world path = inr (wd, ht) /\
       ImageAndPrompt {| source := "photo.jpg"; width := 3200; height := 1800 |}
         "make it sunset" =
         ImageAndPrompt {| source := path; width := wd; height := ht |}
           (prompt (edit_args R1K))).
Proof.
  apply (request_contents (edit_args R1K) good_world 0
           {| req_model := default_model;
              contents := ImageAndPrompt
                            {| source := "photo.jpg"; width := 3200; height := 1800 |}
                            "make it sunset";
              image_config := [("image_size", Size R4K)] |}).
  vm_compute. do 6 right. left. reflexivity.
Defined.

Lemma file_system_footprint_witness :
  exists d i j,
    output_dir_is (batch_args 4) mixed_world d /\
    Z.of_nat i < count (batch_args 4) /\
    save_png mixed_world i j = None /\
    "shots/nano-banana-20250101-120000/image-002.png"
      = Path.to_string (output_path (batch_args 4) d i).
Proof.
  apply (file_system_footprint (batch_args 4) mixed_world
           (SavePng "shots/nano-banana-20250101-120000/image-002.png" FlattenOnWhite)).
  vm_compute. repeat (try (left; reflexivity); right).
Defined.

Lemma batch_directory_contents_witness :
  file_setup (trace (batch_args 4) mixed_world) =
    [Mkdir (timestamped_dir mixed_world "shots");
     WriteJson (Path.join_str (timestamped_dir mixed_world "shots") "prompts.json")
       (JArr (map prompt_entry (images (batch_args 4) mixed_world)));
     WriteText (Path.join_str (timestamped_dir mixed_world "shots") "index.html")
       (gallery_html (images (batch_args 4) mixed_world))] /\
  outcome (batch_args 4) mixed_world = Exit 0.
Proof.
  exact (proj2 (batch_directory_contents (batch_args 4) mixed_world "env-key" "shots"
                  eq_refl eq_refl eq_refl eq_refl eq_refl)
           eq_refl (or_introl eq_refl)).
Defined.

Lemma single_image_outcome_witness :
  (outcome single_args good_world = Exit 0 <-> call_succeeds good_world 0 = true) /\
  (outcome nested_args unsaved_world = Exit 1 /\
   saves (trace nested_args unsaved_world) = [] /\
   images nested_args unsaved_world = [] /\
   errors (trace nested_args unsaved_world) <> []).
Proof.
  split.
  - apply (single_image_outcome single_args good_world "env-key" (Path.of_string ".")).
    + reflexivity.
    + right. exists "out.png". repeat split; reflexivity.
    + reflexivity.
    + reflexivity.
    + reflexivity.
    + reflexivity.
    + left. reflexivity.
  - apply (single_image_outcome nested_args unsaved_world "env-key"
             (Path.of_string "sub")).
    + reflexivity.
    + right. exists "sub/a.png". repeat split; reflexivity.
    + reflexivity.
    + reflexivity.
    + reflexivity.
    + reflexivity.
    + left. reflexivity.
    + reflexivity.
Defined.

Lemma batch_files_witness :
  Path.name (output_path (batch_args 4) (Path.of_string "shots") 6)
    = ("image-" ++ pad3 (Z.of_nat 6 + 1) ++ ".png")%string.
Proof.
  apply (proj1 (batch_files (batch_args 4) mixed_world (Path.of_string "shots")
                  eq_refl) 6%nat).
Defined.

Lemma relative_filename_is_joined_to_its_parent_witness :
  output_path nested_args (Path.parent (Path.of_string "sub/a.png")) 0
    = Path.mk (Path.root (Path.parent (Path.of_string "sub/a.png")))
        (Path.parts (Path.parent (Path.of_string "sub/a.png"))
         ++ Path.parts (Path.of_string "sub/a.png")) /\
  (outcome nested_args unsaved_world = Exit 1 /\
   file_setup (trace nested_args unsaved_world)
     = [Mkdir (Path.parent (Path.of_string "sub/a.png"))] /\
   saves (trace nested_args unsaved_world) = [] /\
   images nested_args unsaved_world = [] /\
   errors (trace nested_args unsaved_world) <> []).
Proof.
  split.
  - apply (relative_filename_is_joined_to_its_parent nested_args good_world
             "sub/a.png"); reflexivity.
  - apply (relative_filename_is_joined_to_its_parent nested_args unsaved_world
             "sub/a.png"); try reflexivity.
    left. reflexivity.
Defined.

Lemma batch_success_criterion_witness :
  outcome (batch_args 4) mixed_world = Exit 0 <->
  exists i, Z.of_nat i < count (batch_args 4) /\ saved_in mixed_world i <> [].
Proof.
  apply (batch_success_criterion (batch_args 4) mixed_world "env-key" "shots");
    try reflexivity.
  left. reflexivity.
Defined.

